(** * georgejenkins/jwt: compact JWS tokens, their engines and claim checks

    A shallow embedding of the Go package: the base64url codec of
    [token.go], the ECDSA engine of [ecdsa.go], the HMAC, RSA, EdDSA and
    None engines, the registered-claims validator and the
    [JOSESignerVerifier] orchestrator, followed by the properties
    established about them.

    Conventions of the embedding.
    - A Go [[]byte] and a Go [string] are both [list byte]: the source
      converts freely between the two and a Go string is a byte sequence.
    - A Go function returning [(T, error)] with a nil [T] on failure is a
      [result T]; one returning [(bool, error)], where both components
      carry information, is a pair [bool * option error].
    - A run-time panic (index out of range, nil dereference, slice bounds)
      is the [Panic] outcome of the [run] monad.
    - The Go standard library (encoding/base64, strings, strconv, time,
      math/big) is modelled by the definitions named after its packages
      ([base64_DecodeString], [strings_Split], ...), following its
      documented behaviour; the hash functions, the signature primitives
      and the JSON codec are fields of a [Platform]. *)

From Stdlib Require Import String Ascii Strings.Byte.
From Stdlib Require Import Bool List ZArith NArith Lia.
Import ListNotations.

Set Implicit Arguments.

Ltac Zify.zify_post_hook ::= Z.to_euclidean_division_equations.

(** ** Bytes and strings *)

Definition bytes := list byte.

Definition str (s : string) : bytes := list_byte_of_string s.

Definition u8 (b : byte) : N := Byte.to_N b.

(** Go's conversion [byte(x)] of an unsigned integer: the low eight bits. *)
Definition byte_of_N (n : N) : byte :=
  match Byte.of_N (n mod 256) with
  | Some b => b
  | None => x00
  end.

Definition bytes_eqb (a b : bytes) : bool :=
  if list_eq_dec Byte.byte_eq_dec a b then true else false.

(** ** Errors, results and panics *)

Inductive NumErrorKind := ErrSyntax | ErrRange.

Inductive error :=
| errorString (msg : string)
    (* errors.New, and fmt.Errorf with its arguments left out *)
| CorruptInputError (offset : nat)
    (* encoding/base64 *)
| NumError (func : string) (num : bytes) (kind : NumErrorKind)
    (* strconv *)
| SyntaxError (msg : string)
    (* encoding/json, raised by the scanner *)
| SignatureLengthError (expected received : nat)
    (* ecdsa.go: "Signature length invalid: expected %v, received %v" *)
| wrapError (msg : string) (inner : error)
    (* fmt.Errorf("...: %s", err) *)
| PlatformError (code : nat).
    (* an error reported by a primitive of the platform *)

Inductive result (A : Type) :=
| Ok (a : A)
| Err (e : error).

Arguments Ok {A} a.
Arguments Err {A} e.

Inductive panic :=
| IndexOutOfRange (index len : nat)
| SliceBoundsOutOfRange
| NilDereference.

Inductive run (A : Type) :=
| Val (a : A)
| Panic (p : panic).

Arguments Val {A} a.
Arguments Panic {A} p.

Definition run_bind {A B} (m : run A) (k : A -> run B) : run B :=
  match m with
  | Val a => k a
  | Panic p => Panic p
  end.

Notation "x <- m ;; k" := (run_bind m (fun x => k))
  (at level 61, m at next level, right associativity).

(** Go's [s[i]] on a slice. *)
Definition index {A} (s : list A) (i : nat) : run A :=
  match nth_error s i with
  | Some a => Val a
  | None => Panic (IndexOutOfRange i (length s))
  end.

(** ** Go's [strings] package, as the source uses it *)

(** [strings.Split(s, sep)] for a one-byte separator, the only way the
    source calls it: the pieces between the separators, always at least
    one piece. *)
Fixpoint strings_Split (s : bytes) (sep : byte) : list bytes :=
  match s with
  | [] => [[]]
  | c :: rest =>
      if Byte.eqb c sep then [] :: strings_Split rest sep
      else match strings_Split rest sep with
           | piece :: pieces => (c :: piece) :: pieces
           | [] => [[c]]
           end
  end.

(** [strings.Replace(s, old, new, -1)] for one-byte [old] and [new]. *)
Definition strings_Replace (s : bytes) (old new : byte) : bytes :=
  map (fun c => if Byte.eqb c old then new else c) s.

(** ** Go's [encoding/base64], [StdEncoding] *)

Definition encodeStd : bytes :=
  str "ABCDEFGHIJKLMNOPQRSTUVWXYZabcdefghijklmnopqrstuvwxyz0123456789+/".

Definition padChar : byte := "="%byte.

(** [enc.encode[i]] *)
Definition encode_at (i : N) : byte := nth (N.to_nat i) encodeStd x00.

(** [enc.decodeMap[c]], with [None] for the 0xff entries. *)
Definition decodeMap (c : byte) : option N :=
  let fix find (l : bytes) (i : N) : option N :=
    match l with
    | [] => None
    | a :: l' => if Byte.eqb a c then Some i else find l' (N.succ i)
    end in
  find encodeStd 0%N.

(** [Encoding.Encode] (and so [EncodeToString]): three source bytes give
    four characters, a final block of one or two bytes is padded. *)
Fixpoint base64_EncodeToString (src : bytes) : bytes :=
  match src with
  | [] => []
  | [b0] =>
      let val := N.shiftl (u8 b0) 16 in
      [encode_at (N.land (N.shiftr val 18) 63);
       encode_at (N.land (N.shiftr val 12) 63);
       padChar; padChar]
  | [b0; b1] =>
      let val := N.lor (N.shiftl (u8 b0) 16) (N.shiftl (u8 b1) 8) in
      [encode_at (N.land (N.shiftr val 18) 63);
       encode_at (N.land (N.shiftr val 12) 63);
       encode_at (N.land (N.shiftr val 6) 63);
       padChar]
  | b0 :: b1 :: b2 :: rest =>
      let val :=
        N.lor (N.lor (N.shiftl (u8 b0) 16) (N.shiftl (u8 b1) 8)) (u8 b2) in
      encode_at (N.land (N.shiftr val 18) 63)
      :: encode_at (N.land (N.shiftr val 12) 63)
      :: encode_at (N.land (N.shiftr val 6) 63)
      :: encode_at (N.land val 63)
      :: base64_EncodeToString rest
  end.

Definition is_newline (c : byte) : bool :=
  Byte.eqb c x0a || Byte.eqb c x0d.

(** The loops [for si < len(src) && (src[si] == '\n' || src[si] == '\r')]
    of [decodeQuantum]: what is left of the input, and how far [si] moved. *)
Fixpoint skip_newlines (src : bytes) : bytes * nat :=
  match src with
  | c :: rest =>
      if is_newline c
      then let '(r, n) := skip_newlines rest in (r, S n)
      else (src, 0)
  | [] => ([], 0)
  end.

(** The conversion at the end of [decodeQuantum]: [dlen] six-bit values
    (missing ones are zero) give [dlen - 1] bytes. *)
Definition quantum_bytes (dbuf : list N) : bytes :=
  let d i := nth i dbuf 0%N in
  let val :=
    N.lor (N.lor (N.lor (N.shiftl (d 0) 18) (N.shiftl (d 1) 12))
                 (N.shiftl (d 2) 6)) (d 3) in
  firstn (length dbuf - 1)
    [byte_of_N (N.shiftr val 16); byte_of_N (N.shiftr val 8); byte_of_N val].

(** [decodeQuantum] on a padding character met after [dbuf] (of length
    [j]); [si] is the offset just after that character. *)
Definition decode_padding (rest : bytes) (si : nat) (dbuf : list N)
  : result bytes :=
  match length dbuf with
  | 0 | 1 => Err (CorruptInputError (si - 1))
  | j =>
      let after_second :=
        if Nat.eqb j 2 then
          let '(r, n) := skip_newlines rest in
          match r with
          | [] => Err (CorruptInputError (si + n))
          | c :: r' =>
              if Byte.eqb c padChar then Ok (r', S (si + n))
              else Err (CorruptInputError (si + n - 1))
          end
        else Ok (rest, si) in
      match after_second with
      | Err e => Err e
      | Ok (r, si') =>
          let '(r', n') := skip_newlines r in
          match r' with
          | [] => Ok (quantum_bytes dbuf)
          | _ :: _ => Err (CorruptInputError (si' + n'))
          end
      end
  end.

(** [Encoding.Decode] with the non-strict [StdEncoding]: the quanta are
    read left to right, [dbuf] holds the six-bit values of the quantum
    under way and [si] is the offset of the next character.  Line breaks
    are skipped, any other character outside the alphabet is an error,
    and input that ends inside a quantum is an error. *)
Fixpoint base64_decode (src : bytes) (si : nat) (dbuf : list N)
  : result bytes :=
  match src with
  | [] =>
      match dbuf with
      | [] => Ok []
      | _ :: _ => Err (CorruptInputError (si - length dbuf))
      end
  | c :: rest =>
      match decodeMap c with
      | Some v =>
          if Nat.eqb (length dbuf) 3 then
            match base64_decode rest (S si) [] with
            | Ok tl => Ok (quantum_bytes (dbuf ++ [v]) ++ tl)
            | Err e => Err e
            end
          else base64_decode rest (S si) (dbuf ++ [v])
      | None =>
          if is_newline c then base64_decode rest (S si) dbuf
          else if Byte.eqb c padChar then decode_padding rest (S si) dbuf
          else Err (CorruptInputError si)
      end
  end.

Definition base64_DecodeString (s : bytes) : result bytes :=
  base64_decode s 0 [].

(** ** token.go: the base64url codec *)

(** [Base64URLEncode]: standard base64, cut at the first ['='], with
    ['+'] and ['/'] replaced. *)
Definition Base64URLEncode (arg : bytes) : bytes :=
  let s := base64_EncodeToString arg in
  let s := hd [] (strings_Split s "="%byte) in
  let s := strings_Replace s "+"%byte "-"%byte in
  let s := strings_Replace s "/"%byte "_"%byte in
  s.

(** [Base64URLDecode]: the replacements undone, the padding restored from
    the length modulo four, then standard base64. *)
Definition Base64URLDecode (arg : bytes) : result bytes :=
  let arg := strings_Replace arg "-"%byte "+"%byte in
  let arg := strings_Replace arg "_"%byte "/"%byte in
  match (length arg mod 4)%nat with
  | 0%nat => base64_DecodeString arg
  | 2%nat => base64_DecodeString (arg ++ str "==")
  | 3%nat => base64_DecodeString (arg ++ str "=")
  | _ => Err (errorString "Illegal base64url string")
  end.

(** ** Go's [strconv.ParseInt(s, 10, 64)] *)

Definition is_digit (c : byte) : bool :=
  (u8 "0"%byte <=? u8 c)%N && (u8 c <=? u8 "9"%byte)%N.

Definition digit_value (c : byte) : Z := Z.of_N (u8 c - u8 "0"%byte).

Definition maxUint64 : Z := 2 ^ 64 - 1.

(** The loop of [ParseUint] in base 10: [n] is the value read so far. *)
Fixpoint parseUint_loop (s : bytes) (n : Z) : result Z :=
  match s with
  | [] => Ok n
  | c :: rest =>
      if is_digit c then
        if (n >=? maxUint64 / 10 + 1)%Z then
          Err (NumError "ParseUint" [] ErrRange)
        else
          let n1 := (n * 10 + digit_value c)%Z in
          if (n1 >? maxUint64)%Z then Err (NumError "ParseUint" [] ErrRange)
          else parseUint_loop rest n1
      else Err (NumError "ParseUint" [] ErrSyntax)
  end.

Definition strconv_ParseUint (s : bytes) : result Z :=
  match s with
  | [] => Err (NumError "ParseUint" [] ErrSyntax)
  | _ :: _ => parseUint_loop s 0%Z
  end.

Definition strconv_ParseInt (s : bytes) : result Z :=
  match s with
  | [] => Err (NumError "ParseInt" s ErrSyntax)
  | c :: rest =>
      let neg := Byte.eqb c "-"%byte in
      let digits :=
        if Byte.eqb c "+"%byte || Byte.eqb c "-"%byte then rest else s in
      match strconv_ParseUint digits with
      | Err (NumError _ _ ErrRange) => Err (NumError "ParseInt" s ErrRange)
      | Err _ => Err (NumError "ParseInt" s ErrSyntax)
      | Ok un =>
          let cutoff := (2 ^ 63)%Z in
          if negb neg && (un >=? cutoff)%Z
          then Err (NumError "ParseInt" s ErrRange)
          else if neg && (un >? cutoff)%Z
          then Err (NumError "ParseInt" s ErrRange)
          else Ok (if neg then - un else un)%Z
      end
  end.

(** ** Go's [time] package, as the source uses it

    A [Time] is the struct of package time without its location, which
    plays no part in [Add], [Before] and [After].  The field [wall]
    (uint64) holds a flag in bit 63, 33 bits of seconds and 30 bits of
    nanoseconds; [ext] (int64) holds the seconds since January 1 of year
    1 when the flag is clear, and a monotonic clock reading when it is
    set.  A [Duration] is a signed 64-bit count of nanoseconds.  The
    functions are those of the current standard library: [time.Unix]
    adds the seconds from year 1 to 1970 in int64, which wraps around,
    and [addSec] keeps its sum within int64. *)

Record Time := { wall : Z; ext : Z }.
Definition Duration := Z.

Definition second : Z := 1000000000.

(** Two's complement wrap-around of signed 64-bit and 32-bit integers,
    and the wrap-around of an unsigned 64-bit integer. *)
Definition wrap64 (x : Z) : Z := ((x + 2 ^ 63) mod 2 ^ 64 - 2 ^ 63)%Z.
Definition wrap32 (x : Z) : Z := ((x + 2 ^ 31) mod 2 ^ 32 - 2 ^ 31)%Z.
Definition wrapu64 (x : Z) : Z := (x mod 2 ^ 64)%Z.

Definition hasMonotonic : Z := Z.shiftl 1 63.
Definition nsecMask : Z := (Z.shiftl 1 30 - 1)%Z.
Definition nsecShift : Z := 30.

Definition secondsPerDay : Z := 86400.
Definition unixToInternal : Z :=
  ((1969 * 365 + 1969 / 4 - 1969 / 100 + 1969 / 400) * secondsPerDay)%Z.
Definition wallToInternal : Z :=
  ((1884 * 365 + 1884 / 4 - 1884 / 100 + 1884 / 400) * secondsPerDay)%Z.

(** The zero value of [time.Time]: January 1, year 1, 00:00 UTC. *)
Definition time_zero : Time := {| wall := 0; ext := 0 |}.

(** [t.wall&hasMonotonic != 0] *)
Definition time_hasMonotonic (t : Time) : bool :=
  negb (Z.land (wall t) hasMonotonic =? 0)%Z.

(** [t.wall << 1 >> (nsecShift + 1)], on uint64. *)
Definition time_wallSeconds (t : Time) : Z :=
  Z.shiftr (wrapu64 (Z.shiftl (wall t) 1)) (nsecShift + 1).

(** [t.nsec()]: [int32(t.wall & nsecMask)]. *)
Definition time_nsec (t : Time) : Z := wrap32 (Z.land (wall t) nsecMask).

(** [t.sec()]: the seconds since January 1 of year 1. *)
Definition time_sec (t : Time) : Z :=
  if time_hasMonotonic t
  then wrap64 (wallToInternal + wrap64 (time_wallSeconds t))
  else ext t.

(** [t.stripMono()] *)
Definition time_stripMono (t : Time) : Time :=
  if time_hasMonotonic t
  then {| wall := Z.land (wall t) nsecMask; ext := time_sec t |}
  else t.

(** The end of [t.addSec(d)], below the branch of the monotonic flag: the
    sum [t.ext + d], kept within int64. *)
Definition time_addSec_ext (t : Time) (d : Z) : Time :=
  let sum := wrap64 (ext t + d) in
  if Bool.eqb (sum >? ext t)%Z (d >? 0)%Z
  then {| wall := wall t; ext := sum |}
  else if (d >? 0)%Z
  then {| wall := wall t; ext := (Z.shiftl 1 63 - 1)%Z |}
  else {| wall := wall t; ext := (- (Z.shiftl 1 63 - 1))%Z |}.

(** [t.addSec(d)] *)
Definition time_addSec (t : Time) (d : Z) : Time :=
  if time_hasMonotonic t then
    let sec := wrap64 (time_wallSeconds t) in
    let dsec := wrap64 (sec + d) in
    if (0 <=? dsec)%Z && (dsec <=? Z.shiftl 1 33 - 1)%Z then
      {| wall :=
           Z.lor (Z.lor (Z.land (wall t) nsecMask)
                        (wrapu64 (Z.shiftl (wrapu64 dsec) nsecShift)))
                 hasMonotonic;
         ext := ext t |}
    else time_addSec_ext (time_stripMono t) d
  else time_addSec_ext t d.

(** [t.Add(d)] *)
Definition time_Add (t : Time) (d : Duration) : Time :=
  let dsec := Z.quot d 1000000000 in
  let nsec := wrap32 (time_nsec t + wrap32 (Z.rem d 1000000000)) in
  let '(dsec, nsec) :=
    if (nsec >=? 1000000000)%Z
    then (wrap64 (dsec + 1), wrap32 (nsec - 1000000000))
    else if (nsec <? 0)%Z
    then (wrap64 (dsec - 1), wrap32 (nsec + 1000000000))
    else (dsec, nsec) in
  let t :=
    {| wall := Z.lor (Z.ldiff (wall t) nsecMask) (wrapu64 nsec);
       ext := ext t |} in
  let t := time_addSec t dsec in
  if time_hasMonotonic t then
    let te := wrap64 (ext t + d) in
    if (d <? 0)%Z && (te >? ext t)%Z || (d >? 0)%Z && (te <? ext t)%Z
    then time_stripMono t
    else {| wall := wall t; ext := te |}
  else t.

(** [unixTime(sec, nsec)]: the seconds are counted from year 1, in
    int64. *)
Definition time_unixTime (sec nsec : Z) : Time :=
  {| wall := wrapu64 nsec; ext := wrap64 (sec + unixToInternal) |}.

(** [time.Unix(sec, nsec)] *)
Definition time_Unix (sec nsec : Z) : Time :=
  let '(sec, nsec) :=
    if (nsec <? 0)%Z || (nsec >=? 1000000000)%Z then
      let n := Z.quot nsec 1000000000 in
      let sec := wrap64 (sec + n) in
      let nsec := wrap64 (nsec - wrap64 (n * 1000000000)) in
      if (nsec <? 0)%Z
      then (wrap64 (sec - 1), wrap64 (nsec + 1000000000))
      else (sec, nsec)
    else (sec, nsec) in
  time_unixTime sec (wrap32 nsec).

(** [t.After(u)] and [t.Before(u)]: two readings of the monotonic clock
    are compared when both times have one, the seconds and nanoseconds
    otherwise. *)
Definition time_After (t u : Time) : bool :=
  if negb (Z.land (Z.land (wall t) (wall u)) hasMonotonic =? 0)%Z
  then (ext t >? ext u)%Z
  else
    let ts := time_sec t in
    let us := time_sec u in
    (ts >? us)%Z || (ts =? us)%Z && (time_nsec t >? time_nsec u)%Z.

Definition time_Before (t u : Time) : bool :=
  if negb (Z.land (Z.land (wall t) (wall u)) hasMonotonic =? 0)%Z
  then (ext t <? ext u)%Z
  else
    let ts := time_sec t in
    let us := time_sec u in
    (ts <? us)%Z || (ts =? us)%Z && (time_nsec t <? time_nsec u)%Z.

(** Go's unary minus on a [Duration]. *)
Definition Duration_neg (d : Duration) : Duration := wrap64 (- d).

(** ** Go's [math/big], as the source uses it: a [*big.Int] is a [Z] *)

(** Base-256 digits of [n], least significant first, at most [fuel]. *)
Fixpoint le_bytes (fuel : nat) (n : N) : bytes :=
  match fuel with
  | O => []
  | S fuel' =>
      if (n =? 0)%N then []
      else byte_of_N n :: le_bytes fuel' (n / 256)
  end.

(** [x.Bytes()]: the absolute value of [x], big-endian, without leading
    zero bytes. *)
Definition big_Bytes (x : Z) : bytes :=
  let n := Z.to_N (Z.abs x) in
  rev (le_bytes (N.to_nat (N.size n)) n).

(** [new(big.Int).SetBytes(buf)]: [buf] read as a big-endian unsigned
    integer. *)
Definition big_SetBytes (buf : bytes) : Z :=
  Z.of_N (fold_left (fun acc b => (acc * 256 + u8 b)%N) buf 0%N).

(** ** Go's [crypto/subtle] *)

Definition subtle_ConstantTimeCompare (x y : bytes) : Z :=
  if bytes_eqb x y then 1%Z else 0%Z.

(** ** The algorithm identifiers (an [Algorithm] is a Go string) *)

Definition Algorithm := bytes.

Module Alg.
Definition HS256 : Algorithm := str "HS256".
Definition HS384 : Algorithm := str "HS384".
Definition HS512 : Algorithm := str "HS512".
Definition RS256 : Algorithm := str "RS256".
Definition RS384 : Algorithm := str "RS384".
Definition RS512 : Algorithm := str "RS512".
Definition ES256 : Algorithm := str "ES256".
Definition ES384 : Algorithm := str "ES384".
Definition ES512 : Algorithm := str "ES512".
Definition PS256 : Algorithm := str "PS256".
Definition PS384 : Algorithm := str "PS384".
Definition PS512 : Algorithm := str "PS512".
Definition EdDSA : Algorithm := str "EdDSA".
Definition None : Algorithm := str "none".
End Alg.

(** [alg] is one of the cases of a Go [switch] or of a chain of [!=]. *)
Definition alg_in (alg : Algorithm) (l : list Algorithm) : bool :=
  existsb (bytes_eqb alg) l.

(** ** Keys *)

(** The curves of [crypto/elliptic]; [Name] and [BitSize] are the fields of
    [Params()] the source reads. *)
Inductive Curve := P224 | P256 | P384 | P521.

Definition Curve_Name (c : Curve) : bytes :=
  match c with
  | P224 => str "P-224"
  | P256 => str "P-256"
  | P384 => str "P-384"
  | P521 => str "P-521"
  end.

Definition Curve_BitSize (c : Curve) : nat :=
  match c with
  | P224 => 224
  | P256 => 256
  | P384 => 384
  | P521 => 521
  end.

Record ecdsa_PublicKey := { ec_Curve : Curve; ec_X : Z; ec_Y : Z }.
Record ecdsa_PrivateKey := { ec_PublicKey : ecdsa_PublicKey; ec_D : Z }.

Record rsa_PublicKey := { rsa_N : Z; rsa_E : Z }.
Record rsa_PrivateKey := { rsa_Public : rsa_PublicKey; rsa_D : Z }.

(** [ed25519.PrivateKey] and [ed25519.PublicKey] are byte slices. *)
Definition ed25519_PrivateKey := bytes.
Definition ed25519_PublicKey := bytes.

(** [priv.Public()]: 32 bytes that start as zeros, onto which the bytes
    of the private key from index 32 on are copied; the slice expression
    [priv[32:]] panics on a key of fewer than 32 bytes. *)
Definition ed25519_Public (priv : ed25519_PrivateKey)
  : run ed25519_PublicKey :=
  if (length priv <? 32)%nat then Panic SliceBoundsOutOfRange
  else Val (firstn 32 (skipn 32 priv ++ repeat x00 32)).

(** ** The platform

    What the package takes from the Go standard library without the
    source saying how it is computed: digests, the signature primitives
    and the JSON codec.  A platform fixes the outcome of the random choices
    of the signing primitives; the primitives are total, their panics on
    malformed keys are not modelled.  The public half of an Ed25519
    private key is not among them: [ed25519_Public] above is the copy
    that [Public] makes. *)

Inductive HashFn := SHA256 | SHA384 | SHA512.

Record Header := {
  h_Algorithm : bytes;
  h_JWKSetURL : bytes;
  h_JWK : bytes;
  h_KeyID : bytes;
  h_Type : bytes;
  h_ContentType : bytes
}.

Record Claims := {
  Issuer : bytes;
  Subject : bytes;
  Audience : bytes;
  Expiration : bytes;
  NotBefore : bytes;
  IssuedAt : bytes;
  JWTID : bytes
}.

Record Platform := {
  (* crypto/sha256, crypto/sha512: New, Write, Sum *)
  hash_Sum : HashFn -> bytes -> bytes;
  (* crypto/hmac: New(h, key), Write(msg), Sum(nil) *)
  hmac_Sum : HashFn -> bytes -> bytes -> bytes;
  (* crypto/rsa *)
  rsa_SignPKCS1v15 : rsa_PrivateKey -> HashFn -> bytes -> result bytes;
  rsa_SignPSS : rsa_PrivateKey -> HashFn -> bytes -> result bytes;
  rsa_VerifyPKCS1v15 :
    rsa_PublicKey -> HashFn -> bytes -> bytes -> option error;
  rsa_VerifyPSS : rsa_PublicKey -> HashFn -> bytes -> bytes -> option error;
  (* crypto/ecdsa *)
  ecdsa_Sign : ecdsa_PrivateKey -> bytes -> result (Z * Z);
  ecdsa_Verify : ecdsa_PublicKey -> bytes -> Z -> Z -> bool;
  (* crypto/ed25519 *)
  ed25519_Sign : ed25519_PrivateKey -> bytes -> bytes;
  ed25519_Verify : ed25519_PublicKey -> bytes -> bytes -> bool;
  (* encoding/json: the values a caller can pass as interface{}, Marshal,
     and what Unmarshal does into a Header or a Claims once the scanner has
     accepted the first token *)
  GoValue : Type;
  json_Marshal : GoValue -> result bytes;
  json_decode_Header : bytes -> result Header;
  json_decode_Claims : bytes -> result Claims
}.

(** ** Go's [encoding/json]: the start of [Unmarshal]

    [Unmarshal] first runs the scanner over the input; the scanner skips
    white space and then wants the first byte of a value.  The rest of the
    decoding is the platform's. *)

Definition json_is_space (c : byte) : bool :=
  Byte.eqb c " "%byte || Byte.eqb c x09 || Byte.eqb c x0d || Byte.eqb c x0a.

Definition json_begins_value (c : byte) : bool :=
  Byte.eqb c "{"%byte || Byte.eqb c "["%byte || Byte.eqb c x22
  || Byte.eqb c "-"%byte || is_digit c
  || Byte.eqb c "t"%byte || Byte.eqb c "f"%byte || Byte.eqb c "n"%byte.

Fixpoint json_scan_start (data : bytes) : option error :=
  match data with
  | [] => Some (SyntaxError "unexpected end of JSON input")
  | c :: rest =>
      if json_is_space c then json_scan_start rest
      else if json_begins_value c then None
      else Some (SyntaxError
                   "invalid character looking for beginning of value")
  end.

Definition json_Unmarshal {T} (decode : bytes -> result T) (data : bytes)
  : result T :=
  match json_scan_start data with
  | Some e => Err e
  | None => decode data
  end.

(** ** token.go: digests and the dot *)

Section Engines.
Variable P : Platform.

(** [GetHash]: the digest the algorithm calls for. *)
Definition GetHash (algorithm : Algorithm) (plaintext : bytes)
  : result bytes :=
  if alg_in algorithm [Alg.RS256; Alg.PS256; Alg.ES256]
  then Ok (hash_Sum P SHA256 plaintext)
  else if alg_in algorithm [Alg.RS384; Alg.PS384; Alg.ES384]
  then Ok (hash_Sum P SHA384 plaintext)
  else if alg_in algorithm [Alg.RS512; Alg.PS512; Alg.ES512; Alg.EdDSA]
  then Ok (hash_Sum P SHA512 plaintext)
  else Err (errorString
              "Cannot generate hash with the configured algorithm").

(** ** hmac.go *)

Record HMACSignerVerifier := {
  hmac_algorithm : Algorithm;
  hmac_key : bytes
}.

Definition InitHMACSignerVerifier (alg : Algorithm) (key : bytes)
  : result HMACSignerVerifier :=
  if Nat.eqb (length key) 0 then
    Err (errorString
           "Cannot initialize HMACSignerVerifier with an empty key")
  else if bytes_eqb [] alg then
    Err (errorString
           "Cannot initialize HMACSignerVerifier with no algorithm")
  else if negb (alg_in alg [Alg.HS256; Alg.HS384; Alg.HS512]) then
    Err (errorString
      "Signing algorithm unexpected, must be one of: HS256, HS384, HS512")
  else Ok {| hmac_algorithm := alg; hmac_key := key |}.

(** [initHash]: the keyed hash, here the function from the message to
    its MAC. *)
Definition HMAC_initHash (sv : HMACSignerVerifier)
  : result (bytes -> bytes) :=
  if bytes_eqb (hmac_algorithm sv) Alg.HS256
  then Ok (hmac_Sum P SHA256 (hmac_key sv))
  else if bytes_eqb (hmac_algorithm sv) Alg.HS384
  then Ok (hmac_Sum P SHA384 (hmac_key sv))
  else if bytes_eqb (hmac_algorithm sv) Alg.HS512
  then Ok (hmac_Sum P SHA512 (hmac_key sv))
  else Err (errorString
    "Cannot HMACSignerVerifier hash with the configured algorithm").

Definition HMAC_Sign (sv : HMACSignerVerifier) (plaintext : bytes)
  : result bytes :=
  if Nat.eqb (length plaintext) 0 then
    Err (errorString "Payload cannot be empty")
  else
    match HMAC_initHash sv with
    | Err e => Err e
    | Ok hash => Ok (hash plaintext)
    end.

Definition HMAC_Verify (sv : HMACSignerVerifier)
  (plaintext signature : bytes) : bool * option error :=
  if Nat.eqb (length plaintext) 0 then
    (false, Some (errorString "Plaintext cannot be empty"))
  else if Nat.eqb (length signature) 0 then
    (false, Some (errorString "Signature cannot be empty"))
  else
    match HMAC_Sign sv plaintext with
    | Err e => (false, Some e)
    | Ok output =>
        (Z.eqb (subtle_ConstantTimeCompare signature output) 1, None)
    end.

(** ** rsa.go *)

Definition getHashAlgorithm (alg : Algorithm) : result HashFn :=
  if alg_in alg [Alg.RS256; Alg.PS256] then Ok SHA256
  else if alg_in alg [Alg.RS384; Alg.PS384] then Ok SHA384
  else if alg_in alg [Alg.RS512; Alg.PS512] then Ok SHA512
  else Err (errorString
              "No compatible hash function found for algorithm type").

Record RSASigner := {
  rsas_algorithm : Algorithm;
  rsas_hash : HashFn;
  rsas_prvKey : rsa_PrivateKey
}.

Definition InitRSASigner (alg : Algorithm) (key : option rsa_PrivateKey)
  : result RSASigner :=
  match key with
  | None => Err (errorString "Cannot init RSASigner with empty key")
  | Some k =>
      if bytes_eqb [] alg then
        Err (errorString "Cannot init RSASigner with no algorithm")
      else if negb (alg_in alg [Alg.RS256; Alg.RS384; Alg.RS512;
                                Alg.PS256; Alg.PS384; Alg.PS512]) then
        Err (errorString "Signing algorithm unexpected, must be one of: RS256, RS384, RS512, PS256, PS384, PS512")
      else
        match getHashAlgorithm alg with
        | Err e => Err e
        | Ok hashFunc =>
            Ok {| rsas_algorithm := alg; rsas_hash := hashFunc;
                  rsas_prvKey := k |}
        end
  end.

Definition RSA_Sign (sv : RSASigner) (plaintext : bytes) : result bytes :=
  match GetHash (rsas_algorithm sv) plaintext with
  | Err e => Err e
  | Ok hash =>
      let r :=
        if alg_in (rsas_algorithm sv) [Alg.RS256; Alg.RS384; Alg.RS512]
        then rsa_SignPKCS1v15 P (rsas_prvKey sv) (rsas_hash sv) hash
        else if alg_in (rsas_algorithm sv)
                  [Alg.PS256; Alg.PS384; Alg.PS512]
        then rsa_SignPSS P (rsas_prvKey sv) (rsas_hash sv) hash
        else Ok [] in
      match r with
      | Err e => Err (wrapError "error from signing" e)
      | Ok signature => Ok signature
      end
  end.

Record RSAVerifier := {
  rsav_algorithm : Algorithm;
  rsav_hash : HashFn;
  rsav_pubKey : rsa_PublicKey
}.

Definition InitRSAVerifier (alg : Algorithm) (key : option rsa_PublicKey)
  : result RSAVerifier :=
  match key with
  | None => Err (errorString "Cannot init RSAVerifier with empty key")
  | Some k =>
      if bytes_eqb [] alg then
        Err (errorString "Cannot init RSAVerifier with no algorithm")
      else
        match getHashAlgorithm alg with
        | Err e => Err e
        | Ok hashFunc =>
            Ok {| rsav_algorithm := alg; rsav_hash := hashFunc;
                  rsav_pubKey := k |}
        end
  end.

Definition RSA_Verify (sv : RSAVerifier) (plaintext signature : bytes)
  : bool * option error :=
  match GetHash (rsav_algorithm sv) plaintext with
  | Err e => (false, Some e)
  | Ok hash =>
      let err :=
        if alg_in (rsav_algorithm sv) [Alg.RS256; Alg.RS384; Alg.RS512]
        then rsa_VerifyPKCS1v15 P (rsav_pubKey sv) (rsav_hash sv)
               hash signature
        else if alg_in (rsav_algorithm sv)
                  [Alg.PS256; Alg.PS384; Alg.PS512]
        then rsa_VerifyPSS P (rsav_pubKey sv) (rsav_hash sv)
               hash signature
        else None in
      match err with
      | Some e => (false, Some (wrapError "Error from verification" e))
      | None => (true, None)
      end
  end.

(** ** ecdsa.go *)

Record ECDSASigner := {
  ecs_algorithm : Algorithm;
  ecs_prvKey : ecdsa_PrivateKey
}.

Definition getExpectedKeyParameters (alg : Algorithm)
  : result (nat * Curve) :=
  if bytes_eqb alg Alg.ES256 then Ok (32, P256)
  else if bytes_eqb alg Alg.ES384 then Ok (48, P384)
  else if bytes_eqb alg Alg.ES512 then Ok (66, P521)
  else Err (errorString "Could not determine parameters for algorithm; Expected alg to be one of: ES256, ES384, ES512").

Definition validateKeyMatchesAlgorithm (alg : Algorithm)
  (key : ecdsa_PrivateKey) : option error :=
  match getExpectedKeyParameters alg with
  | Err e => Some e
  | Ok (_, expectedCurve) =>
      if negb (bytes_eqb (Curve_Name (ec_Curve (ec_PublicKey key)))
                         (Curve_Name expectedCurve))
      then Some (errorString
        "Key does not match expected parameters for algorithm")
      else None
  end.

Definition InitECDSASigner (alg : Algorithm)
  (key : option ecdsa_PrivateKey) : result ECDSASigner :=
  match key with
  | None => Err (errorString "Cannot init ECDSASigner with empty key")
  | Some k =>
      if bytes_eqb [] alg then
        Err (errorString "Cannot init ECDSASigner with no algorithm")
      else
        match validateKeyMatchesAlgorithm alg k with
        | Some keyValidationErr => Err keyValidationErr
        | None => Ok {| ecs_algorithm := alg; ecs_prvKey := k |}
        end
  end.

(** [getSignatureLength]: the byte length of each of [r] and [s]. *)
Definition getSignatureLength (curve : Curve) : nat :=
  let keySize := Curve_BitSize curve in
  let adjustedSize := (keySize / 8)%nat in
  if (0 <? adjustedSize mod 8)%nat then S adjustedSize else adjustedSize.

(** [dst := make([]byte, keySize); copy(dst[keySize-len(src):], src)]:
    the slice expression panics when its low bound is negative. *)
Definition pad_left (keySize : nat) (src : bytes) : run bytes :=
  let low := (Z.of_nat keySize - Z.of_nat (length src))%Z in
  if (low <? 0)%Z then Panic SliceBoundsOutOfRange
  else Val (repeat x00 (Z.to_nat low) ++ src).

Definition padAndJoin (sv : ECDSASigner) (r s : Z) : run bytes :=
  let keySize :=
    getSignatureLength (ec_Curve (ec_PublicKey (ecs_prvKey sv))) in
  rBytesPadded <- pad_left keySize (big_Bytes r) ;;
  sBytesPadded <- pad_left keySize (big_Bytes s) ;;
  Val (rBytesPadded ++ sBytesPadded).

Definition ECDSA_Sign (sv : ECDSASigner) (plaintext : bytes)
  : run (result bytes) :=
  match GetHash (ecs_algorithm sv) plaintext with
  | Err e => Val (Err e)
  | Ok hash =>
      match ecdsa_Sign P (ecs_prvKey sv) hash with
      | Err e => Val (Err e)
      | Ok (r, s) =>
          sig <- padAndJoin sv r s ;;
          Val (Ok sig)
      end
  end.

Record ECDSAVerifier := {
  ecv_algorithm : Algorithm;
  ecv_pubKey : ecdsa_PublicKey
}.

Definition InitECDSAVerifier (alg : Algorithm)
  (key : option ecdsa_PublicKey) : result ECDSAVerifier :=
  match key with
  | None => Err (errorString "Cannot init ECDSAVerifier with empty key")
  | Some k =>
      if bytes_eqb [] alg then
        Err (errorString "Cannot init ECDSAVerifier with no algorithm")
      else if negb (alg_in alg [Alg.ES256; Alg.ES384; Alg.ES512]) then
        Err (errorString
      "Signing algorithm unexpected, must be one of: ES256, ES384, ES512")
      else Ok {| ecv_algorithm := alg; ecv_pubKey := k |}
  end.

Definition ECDSA_Verify (sv : ECDSAVerifier) (plaintext signature : bytes)
  : bool * option error :=
  match GetHash (ecv_algorithm sv) plaintext with
  | Err e => (false, Some e)
  | Ok hash =>
      let rsSplitLen := getSignatureLength (ec_Curve (ecv_pubKey sv)) in
      if negb (Nat.eqb (length signature) (rsSplitLen * 2)) then
        (false,
         Some (SignatureLengthError (rsSplitLen * 2) (length signature)))
      else
        (ecdsa_Verify P (ecv_pubKey sv) hash
           (big_SetBytes (firstn rsSplitLen signature))
           (big_SetBytes (skipn rsSplitLen signature)),
         None)
  end.

(** ** eddsa.go *)

Record EdDSASigner := {
  eds_algorithm : Algorithm;
  eds_prvKey : ed25519_PrivateKey
}.

Definition InitEdDSASigner (alg : Algorithm)
  (key : option ed25519_PrivateKey) : result EdDSASigner :=
  match key with
  | None => Err (errorString "Cannot init EdDSASigner with empty key")
  | Some k =>
      if bytes_eqb [] alg then
        Err (errorString "Cannot init EdDSASigner with no algorithm")
      else Ok {| eds_algorithm := alg; eds_prvKey := k |}
  end.

Definition EdDSA_Sign (sv : EdDSASigner) (plaintext : bytes)
  : result bytes :=
  Ok (ed25519_Sign P (eds_prvKey sv) plaintext).

Record EdDSAVerifier := {
  edv_algorithm : Algorithm;
  edv_pubKey : ed25519_PublicKey
}.

Definition InitEdDSAVerifier (alg : Algorithm)
  (key : option ed25519_PublicKey) : result EdDSAVerifier :=
  match key with
  | None => Err (errorString "Cannot init EdDSAVerifier with empty key")
  | Some k =>
      if bytes_eqb [] alg then
        Err (errorString "Cannot init EdDSAVerifier with no algorithm")
      else if negb (bytes_eqb Alg.EdDSA alg) then
        Err (errorString "Signing algorithm unexpected, must be: EdDSA")
      else Ok {| edv_algorithm := alg; edv_pubKey := k |}
  end.

Definition EdDSA_Verify (sv : EdDSAVerifier) (plaintext signature : bytes)
  : bool * option error :=
  (ed25519_Verify P (edv_pubKey sv) plaintext signature, None).

(** ** The None engine *)

Record NoneSignerVerifier := {
  none_algorithm : Algorithm;
  none_key : bytes
}.

Definition InitNoneSignerVerifier (alg : Algorithm)
  : result NoneSignerVerifier :=
  if negb (bytes_eqb Alg.None alg) then
    Err (errorString "Expected alg to be None but received")
  else Ok {| none_algorithm := []; none_key := [] |}.

Definition None_Sign (sv : NoneSignerVerifier) (plaintext : bytes)
  : result bytes := Ok [].

Definition None_Verify (sv : NoneSignerVerifier)
  (plaintext signature : bytes) : bool * option error := (true, None).

(** ** The two interfaces

    A value of an interface type is one of the engines of the package
    that implement it; calling the method dispatches on the engine. *)

Inductive TokenVerifier :=
| VerifierHMAC (e : HMACSignerVerifier)
| VerifierRSA (e : RSAVerifier)
| VerifierECDSA (e : ECDSAVerifier)
| VerifierEdDSA (e : EdDSAVerifier)
| VerifierNone (e : NoneSignerVerifier).

Definition Verify (v : TokenVerifier) (plaintext hash : bytes)
  : bool * option error :=
  match v with
  | VerifierHMAC e => HMAC_Verify e plaintext hash
  | VerifierRSA e => RSA_Verify e plaintext hash
  | VerifierECDSA e => ECDSA_Verify e plaintext hash
  | VerifierEdDSA e => EdDSA_Verify e plaintext hash
  | VerifierNone e => None_Verify e plaintext hash
  end.

(** The interface [TokenSigner] (its declaration follows the tests in
    rsa_test.go): one method, [Sign(plaintext []byte) ([]byte, error)].
    The five engines of the package implement it. *)
Inductive TokenSigner :=
| SignerHMAC (e : HMACSignerVerifier)
| SignerRSA (e : RSASigner)
| SignerECDSA (e : ECDSASigner)
| SignerEdDSA (e : EdDSASigner)
| SignerNone (e : NoneSignerVerifier).

Definition Sign (s : TokenSigner) (plaintext : bytes)
  : run (result bytes) :=
  match s with
  | SignerHMAC e => Val (HMAC_Sign e plaintext)
  | SignerRSA e => Val (RSA_Sign e plaintext)
  | SignerECDSA e => ECDSA_Sign e plaintext
  | SignerEdDSA e => Val (EdDSA_Sign e plaintext)
  | SignerNone e => Val (None_Sign e plaintext)
  end.
End Engines.

(** ** The registered claims and their validation *)

Definition is_some {A} (o : option A) : bool :=
  match o with Some _ => true | None => false end.

Record ValidationClaims := {
  vc_JWTID : list bytes;
  vc_Issuer : list bytes;
  vc_Subject : list bytes;
  vc_Audience : list bytes;
  vc_Expiration : Time;
  vc_ExpirationLeeway : Duration;
  vc_NotBefore : Time;
  vc_NotBeforeLeeway : Duration
}.

(** Reading a field through a pointer that may be nil. *)
Definition deref {A} (p : option A) : run A :=
  match p with
  | Some a => Val a
  | None => Panic NilDereference
  end.

Definition anyEquals (haystack : list bytes) (needle : bytes) : bool :=
  existsb (fun value => bytes_eqb value needle) haystack.

Definition VerifyIssuer (claims : Claims) (expIssuer : list bytes) : bool :=
  if bytes_eqb (Issuer claims) [] then true
  else anyEquals expIssuer (Issuer claims).

Definition VerifySubject (claims : Claims) (expSubject : list bytes)
  : bool :=
  if bytes_eqb (Subject claims) [] then true
  else anyEquals expSubject (Subject claims).

Definition VerifyAudience (claims : Claims) (expAudience : list bytes)
  : bool :=
  if bytes_eqb (Audience claims) [] then true
  else anyEquals expAudience (Audience claims).

Definition VerifyNotBefore (claims : Claims) (currentTime : Time)
  (leeway : Duration) : bool * option error :=
  if bytes_eqb (NotBefore claims) [] then (true, None)
  else
    match strconv_ParseInt (NotBefore claims) with
    | Err e => (false, Some e)
    | Ok timeInt =>
        let nbfClaim := time_Unix timeInt 0 in
        (time_After (time_Add currentTime leeway) nbfClaim, None)
    end.

Definition VerifyExpiration (claims : Claims) (currentTime : Time)
  (leeway : Duration) : bool * option error :=
  if bytes_eqb (Expiration claims) [] then (true, None)
  else
    match strconv_ParseInt (Expiration claims) with
    | Err e => (false, Some e)
    | Ok timeInt =>
        let expClaim := time_Unix timeInt 0 in
        (time_Before (time_Add currentTime (Duration_neg leeway)) expClaim,
         None)
    end.

(** [ValidateRegisteredClaims]: the fields of [validationClaims] are read
    before the test [validationClaims == nil]. *)
Definition ValidateRegisteredClaims (claims : Claims)
  (validationClaims : option ValidationClaims) : run (bool * option error) :=
  vc <- deref validationClaims ;;
  let '(nbfValid, err) :=
    VerifyNotBefore claims (vc_NotBefore vc) (vc_NotBeforeLeeway vc) in
  if negb nbfValid || is_some err then Val (false, err)
  else
    vc <- deref validationClaims ;;
    let '(expirationValid, err) :=
      VerifyExpiration claims (vc_Expiration vc) (vc_ExpirationLeeway vc) in
    if negb expirationValid || is_some err then Val (false, err)
    else
      match validationClaims with
      | None => Val (true, None)
      | Some vc =>
          if negb (VerifyIssuer claims (vc_Issuer vc)) then Val (false, None)
          else if negb (VerifySubject claims (vc_Subject vc))
          then Val (false, None)
          else if negb (VerifyAudience claims (vc_Audience vc))
          then Val (false, None)
          else Val (true, None)
      end.

(** ** The token record *)

Definition zero_Header : Header :=
  {| h_Algorithm := []; h_JWKSetURL := []; h_JWK := []; h_KeyID := [];
     h_Type := []; h_ContentType := [] |}.

Definition zero_Claims : Claims :=
  {| Issuer := []; Subject := []; Audience := []; Expiration := [];
     NotBefore := []; IssuedAt := []; JWTID := [] |}.

Record Token := {
  t_Alg : Algorithm;
  RegisteredHeader : Header;
  RegisteredClaims : Claims;
  RawToken : bytes;
  RawHeader : bytes;
  RawBody : bytes;
  RawSignature : bytes;
  DecodedHeader : bytes;
  DecodedBody : bytes;
  DecodedSignature : bytes;
  signatureValid : bool;
  claimsValid : bool
}.

Definition set_signature (t : Token) (raw decoded : bytes) : Token :=
  {| t_Alg := t_Alg t; RegisteredHeader := RegisteredHeader t;
     RegisteredClaims := RegisteredClaims t; RawToken := RawToken t;
     RawHeader := RawHeader t; RawBody := RawBody t;
     RawSignature := raw;
     DecodedHeader := DecodedHeader t; DecodedBody := DecodedBody t;
     DecodedSignature := decoded;
     signatureValid := signatureValid t; claimsValid := claimsValid t |}.

Definition set_RegisteredHeader (t : Token) (h : Header) : Token :=
  {| t_Alg := t_Alg t; RegisteredHeader := h;
     RegisteredClaims := RegisteredClaims t; RawToken := RawToken t;
     RawHeader := RawHeader t; RawBody := RawBody t;
     RawSignature := RawSignature t;
     DecodedHeader := DecodedHeader t; DecodedBody := DecodedBody t;
     DecodedSignature := DecodedSignature t;
     signatureValid := signatureValid t; claimsValid := claimsValid t |}.

Definition set_RegisteredClaims (t : Token) (c : Claims) : Token :=
  {| t_Alg := t_Alg t; RegisteredHeader := RegisteredHeader t;
     RegisteredClaims := c; RawToken := RawToken t;
     RawHeader := RawHeader t; RawBody := RawBody t;
     RawSignature := RawSignature t;
     DecodedHeader := DecodedHeader t; DecodedBody := DecodedBody t;
     DecodedSignature := DecodedSignature t;
     signatureValid := signatureValid t; claimsValid := claimsValid t |}.

Definition set_signatureValid (t : Token) (b : bool) : Token :=
  {| t_Alg := t_Alg t; RegisteredHeader := RegisteredHeader t;
     RegisteredClaims := RegisteredClaims t; RawToken := RawToken t;
     RawHeader := RawHeader t; RawBody := RawBody t;
     RawSignature := RawSignature t;
     DecodedHeader := DecodedHeader t; DecodedBody := DecodedBody t;
     DecodedSignature := DecodedSignature t;
     signatureValid := b; claimsValid := claimsValid t |}.

(** [appendWithDot]: the two arguments with a ['.'] between them. *)
Definition appendWithDot (first second : bytes) : bytes :=
  first ++ "."%byte :: second.

(** [GetRawTokenParts]: the guard on the number of parts is the source's,
    a conjunction; [parts[1]] is then read whatever that number is. *)
Definition GetRawTokenParts (rawToken : bytes) : run (result Token) :=
  let parts := strings_Split rawToken "."%byte in
  if (length parts <? 2)%nat && (3 <? length parts)%nat then
    Val (Err (errorString "Valid tokens MUST have at least one '.' character and MUST NOT have at more than two '.' characters"))
  else
    part0 <- index parts 0 ;;
    match Base64URLDecode part0 with
    | Err e => Val (Err e)
    | Ok decodedHeader =>
        part1 <- index parts 1 ;;
        match Base64URLDecode part1 with
        | Err e => Val (Err e)
        | Ok decodedBody =>
            let token :=
              {| t_Alg := []; RegisteredHeader := zero_Header;
                 RegisteredClaims := zero_Claims;
                 RawToken := rawToken;
                 RawHeader := part0; RawBody := part1; RawSignature := [];
                 DecodedHeader := decodedHeader;
                 DecodedBody := decodedBody; DecodedSignature := [];
                 signatureValid := false; claimsValid := false |} in
            if Nat.eqb (length parts) 3 then
              part2 <- index parts 2 ;;
              match Base64URLDecode part2 with
              | Err e => Val (Err e)
              | Ok decodedSignature =>
                  Val (Ok (set_signature token part2 decodedSignature))
              end
            else Val (Ok token)
        end
    end.

(** ** The orchestrator *)

Record JOSESignerVerifier := {
  algorithm : Algorithm;
  signer : option TokenSigner;
  verifier : option TokenVerifier
}.

(** What a caller can pass as the [key interface{}] of the constructor: a
    pointer to a key (possibly nil), a byte slice, or something else. *)
Inductive Key :=
| RSAPrivateKey (k : option rsa_PrivateKey)
| RSAPublicKey (k : option rsa_PublicKey)
| ECDSAPrivateKey (k : option ecdsa_PrivateKey)
| ECDSAPublicKey (k : option ecdsa_PublicKey)
| Ed25519PrivateKey (k : option ed25519_PrivateKey)
| Ed25519PublicKey (k : option ed25519_PublicKey)
| HMACKey (k : bytes)
| OtherKey.

Section Orchestrator.
Variable P : Platform.

Definition newFromEd25519Public (alg : Algorithm)
  (key : option ed25519_PublicKey) : result JOSESignerVerifier :=
  match InitEdDSAVerifier alg key with
  | Err e => Err e
  | Ok v =>
      Ok {| algorithm := alg; signer := None;
            verifier := Some (VerifierEdDSA v) |}
  end.

Definition newFromEd25519Private (alg : Algorithm)
  (key : option ed25519_PrivateKey) : run (result JOSESignerVerifier) :=
  k <- deref key ;;
  public <- ed25519_Public k ;;
  match newFromEd25519Public alg (Some public) with
  | Err e => Val (Err e)
  | Ok sv =>
      match InitEdDSASigner alg key with
      | Err e => Val (Err e)
      | Ok s =>
          Val (Ok {| algorithm := algorithm sv;
                     signer := Some (SignerEdDSA s);
                     verifier := verifier sv |})
      end
  end.

Definition newFromECDSAPublic (alg : Algorithm)
  (key : option ecdsa_PublicKey) : result JOSESignerVerifier :=
  match InitECDSAVerifier alg key with
  | Err e => Err e
  | Ok v =>
      Ok {| algorithm := alg; signer := None;
            verifier := Some (VerifierECDSA v) |}
  end.

Definition newFromECDSAPrivate (alg : Algorithm)
  (key : option ecdsa_PrivateKey) : run (result JOSESignerVerifier) :=
  k <- deref key ;;
  match newFromECDSAPublic alg (Some (ec_PublicKey k)) with
  | Err e => Val (Err e)
  | Ok sv =>
      match InitECDSASigner alg key with
      | Err e => Val (Err e)
      | Ok s =>
          Val (Ok {| algorithm := algorithm sv;
                     signer := Some (SignerECDSA s);
                     verifier := verifier sv |})
      end
  end.

Definition newFromRSAPublic (alg : Algorithm)
  (key : option rsa_PublicKey) : result JOSESignerVerifier :=
  match InitRSAVerifier alg key with
  | Err e => Err e
  | Ok v =>
      Ok {| algorithm := alg; signer := None;
            verifier := Some (VerifierRSA v) |}
  end.

Definition newFromRSAPrivate (alg : Algorithm)
  (key : option rsa_PrivateKey) : run (result JOSESignerVerifier) :=
  k <- deref key ;;
  match newFromRSAPublic alg (Some (rsa_Public k)) with
  | Err e => Val (Err e)
  | Ok sv =>
      match InitRSASigner alg key with
      | Err e => Val (Err e)
      | Ok s =>
          Val (Ok {| algorithm := algorithm sv;
                     signer := Some (SignerRSA s);
                     verifier := verifier sv |})
      end
  end.

Definition newFromHMACBytes (alg : Algorithm) (key : bytes)
  : result JOSESignerVerifier :=
  match InitHMACSignerVerifier alg key with
  | Err e => Err e
  | Ok sv =>
      Ok {| algorithm := alg; signer := Some (SignerHMAC sv);
            verifier := Some (VerifierHMAC sv) |}
  end.

Definition NewJOSESignerVerifier (alg : Algorithm) (key : Key)
  : run (result JOSESignerVerifier) :=
  match key with
  | RSAPrivateKey rsaKey => newFromRSAPrivate alg rsaKey
  | RSAPublicKey rsaKey => Val (newFromRSAPublic alg rsaKey)
  | ECDSAPrivateKey ecdsaKey => newFromECDSAPrivate alg ecdsaKey
  | ECDSAPublicKey ecdsaKey => Val (newFromECDSAPublic alg ecdsaKey)
  | Ed25519PrivateKey ed25519Key => newFromEd25519Private alg ed25519Key
  | Ed25519PublicKey ed25519Key =>
      Val (newFromEd25519Public alg ed25519Key)
  | HMACKey hmacKey => Val (newFromHMACBytes alg hmacKey)
  | OtherKey =>
      Val (Err (errorString
                  "Cannot create JOSESignerVerifier from key type"))
  end.

Definition NewInsecureJOSESignerVerifier (alg : Algorithm)
  : result JOSESignerVerifier :=
  if negb (bytes_eqb alg Alg.None) then
    Err (errorString "cannot initialize an insecure JOSESignerVerifier without the algorithm 'None'.")
  else Ok {| algorithm := alg; signer := None; verifier := None |}.

(** [GenerateToken]; the call of [log.Printf] is left out. *)
Definition GenerateToken (sv : JOSESignerVerifier)
  (header body : GoValue P) : run (result bytes) :=
  match verifier sv with
  | None =>
      Val (Err (errorString "JOSESignerVerifier not configured for signing - did you provide the correct key type?"))
  | Some _ =>
      match json_Marshal P header with
      | Err e => Val (Err e)
      | Ok joseHeader =>
          match json_Marshal P body with
          | Err e => Val (Err e)
          | Ok jwsPayload =>
              let headerAndClaims :=
                appendWithDot (Base64URLEncode joseHeader)
                              (Base64URLEncode jwsPayload) in
              if bytes_eqb (algorithm sv) Alg.None
              then Val (Ok headerAndClaims)
              else
                s <- deref (signer sv) ;;
                r <- Sign P s headerAndClaims ;;
                match r with
                | Err e => Val (Err e)
                | Ok jwSignature =>
                    Val (Ok (appendWithDot headerAndClaims
                               (Base64URLEncode jwSignature)))
                end
          end
      end
  end.

Definition GetHeader (token : Token) : result Header :=
  json_Unmarshal (json_decode_Header P) (DecodedHeader token).

(** [GetClaims] hands [token.RawBody] to the JSON decoder. *)
Definition GetClaims (token : Token) : result Claims :=
  json_Unmarshal (json_decode_Claims P) (RawBody token).

Definition VerifySignature (sv : JOSESignerVerifier) (rawToken : bytes)
  : run (option Token * bool * option error) :=
  r <- GetRawTokenParts rawToken ;;
  match r with
  | Err e => Val (None, false, Some e)
  | Ok token =>
      match GetHeader token with
      | Err e => Val (None, false, Some e)
      | Ok header =>
          let token := set_RegisteredHeader token header in
          v <- deref (verifier sv) ;;
          let '(signatureValid, err) :=
            Verify P v (appendWithDot (RawHeader token) (RawBody token))
                   (DecodedSignature token) in
          let token := set_signatureValid token signatureValid in
          Val (Some token, signatureValid, err)
      end
  end.

Definition VerifyToken (sv : JOSESignerVerifier) (rawToken : bytes)
  (validationCriteria : option ValidationClaims)
  : run (option Token * bool * option error) :=
  r <- VerifySignature sv rawToken ;;
  let '(token, signatureValid, err) := r in
  if is_some err || negb signatureValid
  then Val (None, false, err)
  else
    token <- deref token ;;
    match GetClaims token with
    | Err e => Val (Some token, false, Some e)
    | Ok claims =>
        let token := set_RegisteredClaims token claims in
        r <- ValidateRegisteredClaims claims validationCriteria ;;
        let '(claimsValid, err) := r in
        Val (Some token, signatureValid && claimsValid, err)
    end.
End Orchestrator.

(** ** A small platform, to run the definitions on examples

    Checksums stand for the digests and the signature primitives; the
    JSON codec handles the flat objects of unescaped strings that a
    [Header] or a [Claims] without special characters is written as. *)

Definition demo_sum (tag : N) (msg : bytes) : bytes :=
  let h := fold_left (fun a b => ((a * 31 + u8 b) mod 65521)%N) msg 7%N in
  [byte_of_N tag; byte_of_N (h / 256); byte_of_N h].

Definition demo_tag (h : HashFn) : N :=
  match h with SHA256 => 1 | SHA384 => 2 | SHA512 => 3 end.

Inductive demo_value :=
| GoHeader (h : Header)
| GoClaims (c : Claims)
| GoChan.   (* a value encoding/json cannot write *)

Definition demo_quote (s : bytes) : bytes := (x22 :: s) ++ [x22].

Definition demo_member (key : string) (v : bytes) : bytes :=
  demo_quote (str key) ++ ":"%byte :: demo_quote v.

Definition demo_omitempty (key : string) (v : bytes) : list bytes :=
  if bytes_eqb v [] then [] else [demo_member key v].

Fixpoint demo_join (l : list bytes) : bytes :=
  match l with
  | [] => []
  | [x] => x
  | x :: rest => x ++ ","%byte :: demo_join rest
  end.

Definition demo_Marshal (v : demo_value) : result bytes :=
  match v with
  | GoHeader h =>
      Ok (("{"%byte :: demo_join
             (demo_member "alg" (h_Algorithm h)
              :: demo_omitempty "jku" (h_JWKSetURL h)
              ++ demo_omitempty "jwk" (h_JWK h)
              ++ demo_omitempty "kid" (h_KeyID h)
              ++ demo_omitempty "typ" (h_Type h)
              ++ demo_omitempty "cty" (h_ContentType h))) ++ ["}"%byte])
  | GoClaims c =>
      Ok (("{"%byte :: demo_join
             (demo_omitempty "iss" (Issuer c)
              ++ demo_omitempty "sub" (Subject c)
              ++ demo_omitempty "aud" (Audience c)
              ++ demo_omitempty "exp" (Expiration c)
              ++ demo_omitempty "nbf" (NotBefore c)
              ++ demo_omitempty "iat" (IssuedAt c)
              ++ demo_omitempty "jti" (JWTID c))) ++ ["}"%byte])
  | GoChan => Err (PlatformError 1)
  end.

(** The text up to the next double quote, and what follows that quote. *)
Fixpoint demo_until_quote (s : bytes) : option (bytes * bytes) :=
  match s with
  | [] => None
  | c :: rest =>
      if Byte.eqb c x22 then Some ([], rest)
      else match demo_until_quote rest with
           | Some (v, rest') => Some (c :: v, rest')
           | None => None
           end
  end.

(** The members ["key":"value"] separated by commas, up to the closing
    brace that ends the input. *)
Fixpoint demo_members (fuel : nat) (s : bytes) : option (list (bytes * bytes)) :=
  match fuel with
  | O => None
  | S fuel' =>
      match s with
      | q :: s1 =>
          if negb (Byte.eqb q x22) then None
          else match demo_until_quote s1 with
               | Some (k, colon :: q2 :: s2) =>
                   if negb (Byte.eqb colon ":"%byte && Byte.eqb q2 x22)
                   then None
                   else match demo_until_quote s2 with
                        | Some (v, [close]) =>
                            if Byte.eqb close "}"%byte then Some [(k, v)]
                            else None
                        | Some (v, comma :: s3) =>
                            if negb (Byte.eqb comma ","%byte) then None
                            else match demo_members fuel' s3 with
                                 | Some kvs => Some ((k, v) :: kvs)
                                 | None => None
                                 end
                        | _ => None
                        end
               | _ => None
               end
      | [] => None
      end
  end.

Definition demo_object (data : bytes) : result (list (bytes * bytes)) :=
  match data with
  | [open; close] =>
      if Byte.eqb open "{"%byte && Byte.eqb close "}"%byte then Ok []
      else Err (SyntaxError "demo: not a flat object")
  | open :: rest =>
      if Byte.eqb open "{"%byte then
        match demo_members (length rest) rest with
        | Some kvs => Ok kvs
        | None => Err (SyntaxError "demo: not a flat object")
        end
      else Err (SyntaxError "demo: not a flat object")
  | [] => Err (SyntaxError "demo: not a flat object")
  end.

Definition demo_field (kvs : list (bytes * bytes)) (key : string) : bytes :=
  fold_left (fun acc kv => if bytes_eqb (fst kv) (str key) then snd kv
                           else acc) kvs [].

Definition demo_decode_Header (data : bytes) : result Header :=
  match demo_object data with
  | Err e => Err e
  | Ok kvs =>
      Ok {| h_Algorithm := demo_field kvs "alg";
            h_JWKSetURL := demo_field kvs "jku";
            h_JWK := demo_field kvs "jwk";
            h_KeyID := demo_field kvs "kid";
            h_Type := demo_field kvs "typ";
            h_ContentType := demo_field kvs "cty" |}
  end.

Definition demo_decode_Claims (data : bytes) : result Claims :=
  match demo_object data with
  | Err e => Err e
  | Ok kvs =>
      Ok {| Issuer := demo_field kvs "iss";
            Subject := demo_field kvs "sub";
            Audience := demo_field kvs "aud";
            Expiration := demo_field kvs "exp";
            NotBefore := demo_field kvs "nbf";
            IssuedAt := demo_field kvs "iat";
            JWTID := demo_field kvs "jti" |}
  end.

Definition demo : Platform :=
  {| hash_Sum := fun h msg => demo_sum (demo_tag h) msg;
     hmac_Sum := fun h key msg => demo_sum (demo_tag h) (key ++ msg);
     rsa_SignPKCS1v15 := fun k h digest =>
       Ok (demo_sum 4 (big_Bytes (rsa_N (rsa_Public k)) ++ digest));
     rsa_SignPSS := fun k h digest =>
       Ok (demo_sum 5 (big_Bytes (rsa_N (rsa_Public k)) ++ digest));
     rsa_VerifyPKCS1v15 := fun k h digest sig =>
       if bytes_eqb sig (demo_sum 4 (big_Bytes (rsa_N k) ++ digest))
       then None else Some (PlatformError 2);
     rsa_VerifyPSS := fun k h digest sig =>
       if bytes_eqb sig (demo_sum 5 (big_Bytes (rsa_N k) ++ digest))
       then None else Some (PlatformError 2);
     ecdsa_Sign := fun k digest =>
       Ok (1 + big_SetBytes digest, ec_D k)%Z;
     ecdsa_Verify := fun k digest r s =>
       (r =? 1 + big_SetBytes digest)%Z && (s =? ec_X k)%Z;
     ed25519_Sign := fun k msg => demo_sum 6 (skipn 32 k ++ msg);
     ed25519_Verify := fun k msg sig => bytes_eqb sig (demo_sum 6 (k ++ msg));
     GoValue := demo_value;
     json_Marshal := demo_Marshal;
     json_decode_Header := demo_decode_Header;
     json_decode_Claims := demo_decode_Claims |}.

Definition demo_header : Header :=
  {| h_Algorithm := str "HS256"; h_JWKSetURL := []; h_JWK := [];
     h_KeyID := []; h_Type := str "JWT"; h_ContentType := [] |}.

Definition demo_claims : Claims :=
  {| Issuer := str "joe"; Subject := []; Audience := [];
     Expiration := str "1300819380"; NotBefore := []; IssuedAt := [];
     JWTID := [] |}.

Definition demo_hmac_key : bytes := str "secret".

Definition demo_ec_key : ecdsa_PrivateKey :=
  {| ec_PublicKey := {| ec_Curve := P521; ec_X := 2 ^ 519; ec_Y := 5 |};
     ec_D := 2 ^ 519 |}.

Definition demo_rsa_key : rsa_PublicKey := {| rsa_N := 3233; rsa_E := 17 |}.

(** ** Vocabulary of the statements about the claims *)

(** The character of the decimal digit [d]. *)
Definition digit_char (d : nat) : byte :=
  nth d (str "0123456789") "0"%byte.

(** A numeral is a list of digits, the most significant first: its
    text and the number it denotes. *)
Definition numeral_text (ds : list nat) : bytes := map digit_char ds.

Definition numeral_value (ds : list nat) : Z :=
  fold_left (fun a d => (10 * a + Z.of_nat d)%Z) ds 0%Z.

(** [s] is the decimal writing of the integer [n]: an optional sign,
    ['+'] or ['-'], and one digit or more. *)
Definition signed_numeral (s : bytes) (n : Z) : Prop :=
  exists sign ds,
    s = sign ++ numeral_text ds
    /\ ds <> []
    /\ Forall (fun d => d < 10) ds
    /\ ((sign = [] \/ sign = str "+") /\ n = numeral_value ds
        \/ sign = str "-" /\ n = (- numeral_value ds)%Z).

(** A [Time] as the package makes them: the fields in the range of
    their types and less than a second of nanoseconds. *)
Definition Time_wf (t : Time) : Prop :=
  (0 <= wall t < 2 ^ 64)%Z /\ (- 2 ^ 63 <= ext t < 2 ^ 63)%Z
  /\ (wall t mod 2 ^ 30 < second)%Z.

(** The seconds from January 1 of year 1 that a [Time] stands for, read
    off its layout. *)
Definition wall_clock_seconds (t : Time) : Z :=
  (if 2 ^ 63 <=? wall t
   then wallToInternal + (wall t - 2 ^ 63) / 2 ^ 30
   else ext t)%Z.

(** The instant a [Time] stands for, in nanoseconds from the Unix
    epoch (January 1, 1970, 00:00 UTC), as an exact integer. *)
Definition instant (t : Time) : Z :=
  ((wall_clock_seconds t - 62135596800) * second + wall t mod 2 ^ 30)%Z.

(** A sum of seconds kept within int64 the way [addSec] keeps it. *)
Definition sat64 (x : Z) : Z :=
  (if x <? - 2 ^ 63 then - (2 ^ 63 - 1)
   else if 2 ^ 63 <=? x then 2 ^ 63 - 1 else x)%Z.


(** The text of the error [GetRawTokenParts] has for a wrong number of
    parts. *)
Definition part_count_error : error :=
  errorString "Valid tokens MUST have at least one '.' character and MUST NOT have at more than two '.' characters".

(** ** Vocabulary of the statements about the ECDSA engine *)

(** The number a little-endian byte string denotes. *)
Definition le_value (l : bytes) : N :=
  fold_right (fun b acc => (u8 b + 256 * acc)%N) 0%N l.

(** The number of bytes that hold [bits] bits. *)
Definition ceil8 (bits : nat) : nat := ((bits + 7) / 8)%nat.

(** The number a byte string denotes when it is read as a big-endian
    unsigned integer: the first byte weighs the most. *)
Fixpoint big_endian (l : bytes) : Z :=
  match l with
  | [] => 0%Z
  | b :: rest =>
      (Z.of_N (u8 b) * 256 ^ Z.of_nat (length rest) + big_endian rest)%Z
  end.

(** The hash an ECDSA algorithm goes with. *)
Definition ecdsa_hash (alg : Algorithm) : HashFn :=
  if bytes_eqb alg Alg.ES256 then SHA256
  else if bytes_eqb alg Alg.ES384 then SHA384
  else SHA512.

(** [x] written on exactly [width] bytes, big-endian, zeros in front. *)
Definition fixed_width (width : nat) (x : Z) : bytes :=
  repeat x00 (width - length (big_Bytes x)) ++ big_Bytes x.

(** ** Vocabulary of the statements about the orchestrator *)

(** The keys that make a facade that can only verify. *)
Definition is_public_key (key : Key) : bool :=
  match key with
  | RSAPublicKey _ | ECDSAPublicKey _ | Ed25519PublicKey _ => true
  | _ => false
  end.

(** [P] with another decoder for the claims. *)
Definition with_claims_decoder (P : Platform)
  (decode : bytes -> result Claims) : Platform :=
  {| hash_Sum := hash_Sum P;
     hmac_Sum := hmac_Sum P;
     rsa_SignPKCS1v15 := rsa_SignPKCS1v15 P;
     rsa_SignPSS := rsa_SignPSS P;
     rsa_VerifyPKCS1v15 := rsa_VerifyPKCS1v15 P;
     rsa_VerifyPSS := rsa_VerifyPSS P;
     ecdsa_Sign := ecdsa_Sign P;
     ecdsa_Verify := ecdsa_Verify P;
     ed25519_Sign := ed25519_Sign P;
     ed25519_Verify := ed25519_Verify P;
     GoValue := GoValue P;
     json_Marshal := json_Marshal P;
     json_decode_Header := json_decode_Header P;
     json_decode_Claims := decode |}.

Definition not_configured_error : error :=
  errorString "JOSESignerVerifier not configured for signing - did you provide the correct key type?".

(** The facade [NewInsecureJOSESignerVerifier(None)] returns. *)
Definition insecure_facade : JOSESignerVerifier :=
  {| algorithm := Alg.None; signer := None; verifier := None |}.

(** The facade [NewJOSESignerVerifier(HS256, "secret")] returns. *)
Definition demo_hmac_facade : JOSESignerVerifier :=
  {| algorithm := Alg.HS256;
     signer := Some (SignerHMAC {| hmac_algorithm := Alg.HS256;
                                   hmac_key := demo_hmac_key |});
     verifier := Some (VerifierHMAC {| hmac_algorithm := Alg.HS256;
                                       hmac_key := demo_hmac_key |}) |}.

(** The token [GetRawTokenParts] makes of three encoded segments. *)
Definition parsed_token (joseHeader jwsPayload jwSignature : bytes)
  : Token :=
  {| t_Alg := []; RegisteredHeader := zero_Header;
     RegisteredClaims := zero_Claims;
     RawToken :=
       appendWithDot (appendWithDot (Base64URLEncode joseHeader)
                                    (Base64URLEncode jwsPayload))
                     (Base64URLEncode jwSignature);
     RawHeader := Base64URLEncode joseHeader;
     RawBody := Base64URLEncode jwsPayload;
     RawSignature := Base64URLEncode jwSignature;
     DecodedHeader := joseHeader;
     DecodedBody := jwsPayload;
     DecodedSignature := jwSignature;
     signatureValid := false; claimsValid := false |}.

Definition begin_value_error : error :=
  SyntaxError "invalid character looking for beginning of value".

(** ** Vocabulary of the statements about the codec *)

(** [url c] is what [Base64URLEncode] makes of a character of the standard
    alphabet, [std c] what [Base64URLDecode] makes of it again. *)
Definition url (c : byte) : byte :=
  let c := if Byte.eqb c "+"%byte then "-"%byte else c in
  if Byte.eqb c "/"%byte then "_"%byte else c.

Definition std (c : byte) : byte :=
  let c := if Byte.eqb c "-"%byte then "+"%byte else c in
  if Byte.eqb c "_"%byte then "/"%byte else c.

Definition encodeURL : bytes :=
  str "ABCDEFGHIJKLMNOPQRSTUVWXYZabcdefghijklmnopqrstuvwxyz0123456789-_".

Definition in_alphabet (c : byte) : Prop := decodeMap c <> None.

(** ** testing_util.go *)

(** [mustBase64URLDecode]: [Base64URLDecode] with the error dropped. *)
Definition mustBase64URLDecode (arg : bytes) : bytes :=
  match Base64URLDecode arg with
  | Ok data => data
  | Err _ => []
  end.

(** [getBigIntFromBase64URLString] *)
Definition getBigIntFromBase64URLString (input : bytes) : Z :=
  big_SetBytes (mustBase64URLDecode input).

(** ** Vocabulary of the further statements *)

(** The primitives of a platform agree: what the signing primitive
    returns, the verifying primitive accepts for the matching public
    key. *)
Definition rsa_primitives_agree (P : Platform) : Prop :=
  forall key h digest sig,
    (rsa_SignPKCS1v15 P key h digest = Ok sig ->
     rsa_VerifyPKCS1v15 P (rsa_Public key) h digest sig = None)
    /\ (rsa_SignPSS P key h digest = Ok sig ->
        rsa_VerifyPSS P (rsa_Public key) h digest sig = None).

Definition ecdsa_primitives_agree (P : Platform) (key : ecdsa_PrivateKey)
  : Prop :=
  forall h msg r s,
    ecdsa_Sign P key (hash_Sum P h msg) = Ok (r, s) ->
    (0 <= r < 2 ^ Z.of_nat (Curve_BitSize (ec_Curve (ec_PublicKey key))))%Z
    /\ (0 <= s < 2 ^ Z.of_nat (Curve_BitSize (ec_Curve (ec_PublicKey key))))%Z
    /\ ecdsa_Verify P (ec_PublicKey key) (hash_Sum P h msg) r s = true.

Definition ed25519_primitives_agree (P : Platform)
  (key : ed25519_PrivateKey) : Prop :=
  forall pub msg,
    ed25519_Public key = Val pub ->
    ed25519_Verify P pub msg (ed25519_Sign P key msg) = true.

Definition hmac_algs : list Algorithm := [Alg.HS256; Alg.HS384; Alg.HS512].

Definition rsa_algs : list Algorithm :=
  [Alg.RS256; Alg.RS384; Alg.RS512; Alg.PS256; Alg.PS384; Alg.PS512].

Definition ecdsa_algs : list Algorithm := [Alg.ES256; Alg.ES384; Alg.ES512].

(** The hash an HMAC algorithm goes with. *)
Definition hmac_hash (alg : Algorithm) : HashFn :=
  if bytes_eqb alg Alg.HS256 then SHA256
  else if bytes_eqb alg Alg.HS384 then SHA384
  else SHA512.

(** The curve an ECDSA algorithm goes with. *)
Definition ecdsa_curve (alg : Algorithm) : Curve :=
  if bytes_eqb alg Alg.ES256 then P256
  else if bytes_eqb alg Alg.ES384 then P384
  else P521.

(** The algorithms a key of each shape can be used with. *)
Definition key_algs (key : Key) : list Algorithm :=
  match key with
  | RSAPrivateKey _ | RSAPublicKey _ => rsa_algs
  | ECDSAPrivateKey _ | ECDSAPublicKey _ => ecdsa_algs
  | Ed25519PrivateKey _ | Ed25519PublicKey _ => [Alg.EdDSA]
  | HMACKey _ => hmac_algs
  | OtherKey => []
  end.

Definition is_nil_private_key (key : Key) : bool :=
  match key with
  | RSAPrivateKey None | ECDSAPrivateKey None | Ed25519PrivateKey None =>
      true
  | _ => false
  end.

Definition set_jti_iat (c : Claims) (jti iat : bytes) : Claims :=
  {| Issuer := Issuer c; Subject := Subject c; Audience := Audience c;
     Expiration := Expiration c; NotBefore := NotBefore c;
     IssuedAt := iat; JWTID := jti |}.

Definition set_vc_JWTID (vc : ValidationClaims) (l : list bytes)
  : ValidationClaims :=
  {| vc_JWTID := l; vc_Issuer := vc_Issuer vc; vc_Subject := vc_Subject vc;
     vc_Audience := vc_Audience vc; vc_Expiration := vc_Expiration vc;
     vc_ExpirationLeeway := vc_ExpirationLeeway vc;
     vc_NotBefore := vc_NotBefore vc;
     vc_NotBeforeLeeway := vc_NotBeforeLeeway vc |}.

(** What the statement about generating and verifying asks of the
    platform, for each shape of key. *)
Definition primitives_agree_for (P : Platform) (key : Key) : Prop :=
  match key with
  | RSAPrivateKey _ => rsa_primitives_agree P
  | ECDSAPrivateKey (Some k) => ecdsa_primitives_agree P k
  | Ed25519PrivateKey (Some k) => ed25519_primitives_agree P k
  | HMACKey _ => forall h k m, hmac_Sum P h k m <> []
  | _ => True
  end.

(** The keys whose engine refuses an empty signature by itself. *)
Definition is_hmac_or_ecdsa_key (key : Key) : bool :=
  match key with
  | HMACKey _ | ECDSAPrivateKey _ | ECDSAPublicKey _ => true
  | _ => false
  end.

(** The small platform with a decoder that also reads the JSON text
    [null], which leaves a [Claims] as it is. *)
Definition demo_null : Platform :=
  with_claims_decoder demo
    (fun data => if bytes_eqb data (str "null") then Ok zero_Claims
                 else demo_decode_Claims data).

Definition demo_criteria : ValidationClaims :=
  {| vc_JWTID := []; vc_Issuer := [str "joe"]; vc_Subject := [];
     vc_Audience := [];
     vc_Expiration := time_Unix 1300819379 0; vc_ExpirationLeeway := 0%Z;
     vc_NotBefore := time_Unix 1300819379 0; vc_NotBeforeLeeway := 0%Z |}.

(** A token whose body segment is the four characters [null], signed
    with the key of the small platform. *)
Definition demo_null_token : bytes :=
  let hc := str "eyJhbGciOiJIUzI1NiIsInR5cCI6IkpXVCJ9.null" in
  appendWithDot hc
    (Base64URLEncode (hmac_Sum demo SHA256 demo_hmac_key hc)).

(** * Properties *)

(** ** Arithmetic of the six-bit regrouping *)

Lemma lor_disjoint_add (x y k : N) :
  (x mod 2 ^ k = 0)%N -> (y < 2 ^ k)%N -> N.lor x y = (x + y)%N.
Proof.
  intros Hx Hy.
  rewrite N.add_nocarry_lxor, N.lxor_lor; trivial;
    apply N.bits_inj; intro n; rewrite N.land_spec, N.bits_0;
    destruct (N.lt_ge_cases n k) as [Hn | Hn].
  1,3: replace (N.testbit x n) with (N.testbit (x mod 2 ^ k) n)
         by (apply N.mod_pow2_bits_low; assumption);
       rewrite Hx, N.bits_0; reflexivity.
  1,2: rewrite <- (N.mod_small y (2 ^ k)) by assumption;
       rewrite N.mod_pow2_bits_high by assumption; apply andb_false_r.
Qed.

Lemma u8_bound (b : byte) : (u8 b < 256)%N.
Proof. unfold u8. pose proof (Byte.to_N_bounded b). lia. Qed.

Lemma byte_of_N_u8 (b : byte) (n : N) :
  (n mod 256 = u8 b)%N -> byte_of_N n = b.
Proof.
  intro H. unfold byte_of_N. rewrite H. unfold u8.
  now rewrite Byte.of_to_N.
Qed.

Lemma land_63 (x : N) : N.land x 63 = (x mod 64)%N.
Proof. change 63%N with (N.ones 6). now rewrite N.land_ones. Qed.

Ltac pow2 :=
  change (2 ^ 18)%N with 262144%N in *; change (2 ^ 16)%N with 65536%N in *;
  change (2 ^ 12)%N with 4096%N in *; change (2 ^ 8)%N with 256%N in *;
  change (2 ^ 6)%N with 64%N in *.

(** The 24-bit group assembled by the encoder. *)
Lemma group3_add (a b c : N) :
  (a < 256)%N -> (b < 256)%N -> (c < 256)%N ->
  N.lor (N.lor (N.shiftl a 16) (N.shiftl b 8)) c
  = (a * 65536 + b * 256 + c)%N.
Proof.
  intros Ha Hb Hc. rewrite !N.shiftl_mul_pow2.
  rewrite (@lor_disjoint_add (a * 2 ^ 16) (b * 2 ^ 8) 16) by (pow2; lia).
  rewrite (@lor_disjoint_add _ c 8) by (pow2; lia).
  pow2; reflexivity.
Qed.

Lemma group2_add (a b : N) :
  (a < 256)%N -> (b < 256)%N ->
  N.lor (N.shiftl a 16) (N.shiftl b 8) = (a * 65536 + b * 256)%N.
Proof.
  intros Ha Hb.
  rewrite <- (N.lor_0_r (N.lor _ _)), group3_add by (trivial; lia). lia.
Qed.

(** The 24-bit group assembled by the decoder. *)
Lemma group4_add (a b c d : N) :
  (a < 64)%N -> (b < 64)%N -> (c < 64)%N -> (d < 64)%N ->
  N.lor (N.lor (N.lor (N.shiftl a 18) (N.shiftl b 12)) (N.shiftl c 6)) d
  = (a * 262144 + b * 4096 + c * 64 + d)%N.
Proof.
  intros Ha Hb Hc Hd. rewrite !N.shiftl_mul_pow2.
  rewrite (@lor_disjoint_add (a * 2 ^ 18) (b * 2 ^ 12) 18) by (pow2; lia).
  rewrite (@lor_disjoint_add _ (c * 2 ^ 6) 12) by (pow2; lia).
  rewrite (@lor_disjoint_add _ d 6) by (pow2; lia).
  pow2; reflexivity.
Qed.

Lemma quantum_bytes_full (b0 b1 b2 : byte) :
  let v := N.lor (N.lor (N.shiftl (u8 b0) 16) (N.shiftl (u8 b1) 8)) (u8 b2) in
  quantum_bytes
    [N.land (N.shiftr v 18) 63; N.land (N.shiftr v 12) 63;
     N.land (N.shiftr v 6) 63; N.land v 63]
  = [b0; b1; b2].
Proof.
  pose proof (u8_bound b0); pose proof (u8_bound b1);
    pose proof (u8_bound b2).
  intro v. unfold quantum_bytes; cbn [length Nat.sub firstn nth].
  subst v. rewrite group3_add by assumption.
  rewrite !land_63, !N.shiftr_div_pow2.
  rewrite group4_add by (pow2; lia).
  f_equal; [| f_equal; [| f_equal]]; apply byte_of_N_u8;
    try rewrite N.shiftr_div_pow2; pow2; lia.
Qed.

Lemma quantum_bytes_two (b0 b1 : byte) :
  let v := N.lor (N.shiftl (u8 b0) 16) (N.shiftl (u8 b1) 8) in
  quantum_bytes
    [N.land (N.shiftr v 18) 63; N.land (N.shiftr v 12) 63;
     N.land (N.shiftr v 6) 63]
  = [b0; b1].
Proof.
  pose proof (u8_bound b0); pose proof (u8_bound b1).
  intro v. unfold quantum_bytes; cbn [length Nat.sub firstn nth].
  subst v. rewrite group2_add by assumption.
  rewrite !land_63, !N.shiftr_div_pow2.
  rewrite group4_add by (pow2; lia).
  f_equal; [| f_equal]; apply byte_of_N_u8;
    try rewrite N.shiftr_div_pow2; pow2; lia.
Qed.

Lemma quantum_bytes_one (b0 : byte) :
  let v := N.shiftl (u8 b0) 16 in
  quantum_bytes [N.land (N.shiftr v 18) 63; N.land (N.shiftr v 12) 63]
  = [b0].
Proof.
  pose proof (u8_bound b0).
  intro v. unfold quantum_bytes; cbn [length Nat.sub firstn nth].
  subst v. rewrite (N.shiftl_mul_pow2 (u8 b0) 16).
  rewrite !land_63, !N.shiftr_div_pow2.
  rewrite group4_add by (pow2; lia).
  f_equal; apply byte_of_N_u8;
    try rewrite N.shiftr_div_pow2; pow2; lia.
Qed.

(** ** The base64 alphabet *)

Lemma below_64 (P : N -> bool) :
  forallb P (map N.of_nat (seq 0 64)) = true ->
  forall i, (i < 64)%N -> P i = true.
Proof.
  intros H i Hi. rewrite forallb_forall in H. apply H.
  apply in_map_iff. exists (N.to_nat i). split; [lia |].
  apply in_seq. lia.
Qed.

Lemma decodeMap_encode_at (i : N) :
  (i < 64)%N -> decodeMap (encode_at i) = Some i.
Proof.
  intro Hi.
  pose proof (@below_64
    (fun i => match decodeMap (encode_at i) with
              | Some j => N.eqb j i
              | None => false
              end) eq_refl i Hi) as H.
  cbv beta in H. destruct (decodeMap (encode_at i)); [| discriminate].
  apply N.eqb_eq in H. now subst.
Qed.

Lemma sextet_bound (x : N) : (N.land x 63 < 64)%N.
Proof. rewrite land_63. apply N.mod_lt. discriminate. Qed.

Lemma decodeMap_sextet (x : N) :
  decodeMap (encode_at (N.land x 63)) = Some (N.land x 63).
Proof. apply decodeMap_encode_at, sextet_bound. Qed.

Lemma alphabet_facts (c : byte) :
  in_alphabet c ->
  c <> padChar /\ std (url c) = c /\ In (url c) encodeURL
  /\ url c <> "="%byte /\ url c <> "+"%byte /\ url c <> "/"%byte
  /\ url c <> "."%byte.
Proof.
  unfold in_alphabet.
  destruct c; vm_compute; intro H; try (exfalso; apply H; reflexivity);
    (repeat split; try discriminate; tauto).
Qed.

Lemma in_alphabet_sextet (x : N) : in_alphabet (encode_at (N.land x 63)).
Proof. unfold in_alphabet. now rewrite decodeMap_sextet. Qed.

(** ** Standard base64: decoding undoes encoding *)

Lemma list_ind3 (A : Type) (P : list A -> Prop) :
  P [] -> (forall a, P [a]) -> (forall a b, P [a; b]) ->
  (forall a b c l, P l -> P (a :: b :: c :: l)) ->
  forall l, P l.
Proof.
  intros H0 H1 H2 H3 l.
  enough (P l /\ (forall a, P (a :: l)) /\ (forall a b, P (a :: b :: l)))
    by tauto.
  induction l as [| x l (IH0 & IH1 & IH2)]; auto.
Qed.

Lemma decode_step (c : byte) (v : N) rest si dbuf :
  decodeMap c = Some v -> length dbuf <> 3 ->
  base64_decode (c :: rest) si dbuf
  = base64_decode rest (S si) (dbuf ++ [v]).
Proof.
  intros Hc Hl. cbn [base64_decode]. rewrite Hc.
  apply Nat.eqb_neq in Hl. now rewrite Hl.
Qed.

Lemma decode_step_last (c : byte) (v : N) rest si dbuf :
  decodeMap c = Some v -> length dbuf = 3 ->
  base64_decode (c :: rest) si dbuf
  = match base64_decode rest (S si) [] with
    | Ok tl => Ok (quantum_bytes (dbuf ++ [v]) ++ tl)
    | Err e => Err e
    end.
Proof.
  intros Hc Hl. cbn [base64_decode]. rewrite Hc.
  apply Nat.eqb_eq in Hl. now rewrite Hl.
Qed.

Lemma decode_pad_one (si : nat) (d0 d1 d2 : N) :
  base64_decode [padChar] si [d0; d1; d2] = Ok (quantum_bytes [d0; d1; d2]).
Proof. reflexivity. Qed.

Lemma decode_pad_two (si : nat) (d0 d1 : N) :
  base64_decode [padChar; padChar] si [d0; d1]
  = Ok (quantum_bytes [d0; d1]).
Proof. reflexivity. Qed.

Lemma base64_decode_encode (b : bytes) :
  forall si, base64_decode (base64_EncodeToString b) si [] = Ok b.
Proof.
  induction b as [| b0 | b0 b1 | b0 b1 b2 rest IH] using list_ind3;
    intro si; cbn [base64_EncodeToString]; cbv zeta.
  - reflexivity.
  - rewrite !(@decode_step _ _ _ _ _ (decodeMap_sextet _)) by (cbn; lia).
    cbn [app]. rewrite decode_pad_two.
    exact (f_equal Ok (quantum_bytes_one b0)).
  - rewrite !(@decode_step _ _ _ _ _ (decodeMap_sextet _)) by (cbn; lia).
    cbn [app]. rewrite decode_pad_one.
    exact (f_equal Ok (quantum_bytes_two b0 b1)).
  - rewrite !(@decode_step _ _ _ _ _ (decodeMap_sextet _)) by (cbn; lia).
    rewrite (@decode_step_last _ _ _ _ _ (decodeMap_sextet _)) by reflexivity.
    rewrite IH. cbn [app].
    exact (f_equal (fun q => Ok (q ++ rest)) (quantum_bytes_full b0 b1 b2)).
Qed.

(** ** The base64url codec of token.go *)

Lemma strings_Split_hd_cons (c sep : byte) (s : bytes) :
  c <> sep ->
  hd [] (strings_Split (c :: s) sep) = c :: hd [] (strings_Split s sep).
Proof.
  intro Hc. cbn [strings_Split].
  destruct (Byte.eqb c sep) eqn:E.
  - apply Byte.byte_dec_bl in E. contradiction.
  - now destruct (strings_Split s sep).
Qed.

Lemma strings_Split_hd_sep (sep : byte) (s : bytes) :
  hd [] (strings_Split (sep :: s) sep) = [].
Proof.
  cbn [strings_Split].
  now rewrite (Byte.byte_dec_lb (eq_refl sep)).
Qed.

Lemma strings_Replace_url (s : bytes) :
  strings_Replace (strings_Replace s "+"%byte "-"%byte) "/"%byte "_"%byte
  = map url s.
Proof. unfold strings_Replace. now rewrite map_map. Qed.

Lemma strings_Replace_std (s : bytes) :
  strings_Replace (strings_Replace s "-"%byte "+"%byte) "_"%byte "/"%byte
  = map std s.
Proof. unfold strings_Replace. now rewrite map_map. Qed.

Lemma map_std_url (s : bytes) :
  Forall in_alphabet s -> map std (map url s) = s.
Proof.
  induction 1 as [| c s Hc _ IH]; cbn [map]; [reflexivity |].
  rewrite IH. f_equal. now apply alphabet_facts.
Qed.

Lemma mod4_skip (n : nat) : (S (S (S (S n))) mod 4 = n mod 4)%nat.
Proof.
  replace (S (S (S (S n)))) with (n + 1 * 4)%nat by lia.
  apply Nat.Div0.mod_add.
Qed.

(** What [strings.Split(s, "=")[0]] keeps of a standard encoding, and what
    the length of that prefix says about the padding cut off. *)
Lemma encoding_shape (b : bytes) :
  let s := base64_EncodeToString b in
  let body := hd [] (strings_Split s padChar) in
  Forall in_alphabet body
  /\ ((length body mod 4 = 0)%nat /\ s = body
      \/ (length body mod 4 = 2)%nat /\ s = body ++ str "=="
      \/ (length body mod 4 = 3)%nat /\ s = body ++ str "=").
Proof.
  induction b as [| b0 | b0 b1 | b0 b1 b2 rest IH] using list_ind3;
    cbn [base64_EncodeToString]; cbv zeta.
  - split; [constructor | left; split; reflexivity].
  - rewrite !strings_Split_hd_cons, strings_Split_hd_sep
      by (apply alphabet_facts, in_alphabet_sextet).
    split; [repeat constructor; apply in_alphabet_sextet |].
    right; left; split; reflexivity.
  - rewrite !strings_Split_hd_cons, strings_Split_hd_sep
      by (apply alphabet_facts, in_alphabet_sextet).
    split; [repeat constructor; apply in_alphabet_sextet |].
    right; right; split; reflexivity.
  - rewrite !strings_Split_hd_cons
      by (apply alphabet_facts, in_alphabet_sextet).
    cbv zeta in IH. destruct IH as [IHa IHs].
    split; [repeat (constructor; [apply in_alphabet_sextet |]); exact IHa |].
    cbn [length app].
    rewrite mod4_skip.
    destruct IHs as [[Hm Hs] | [[Hm Hs] | [Hm Hs]]];
      [left | right; left | right; right]; (split; [exact Hm |]);
      do 4 f_equal; exact Hs.
Qed.

Lemma Base64URLEncode_url (b : bytes) :
  Base64URLEncode b
  = map url (hd [] (strings_Split (base64_EncodeToString b) padChar)).
Proof. unfold Base64URLEncode. apply strings_Replace_url. Qed.

Lemma Base64URLDecode_Encode (b : bytes) :
  Base64URLDecode (Base64URLEncode b) = Ok b.
Proof.
  rewrite Base64URLEncode_url. unfold Base64URLDecode.
  rewrite strings_Replace_std.
  destruct (encoding_shape b) as [Ha Hs].
  rewrite map_std_url by exact Ha.
  unfold base64_DecodeString.
  destruct Hs as [[Hm Hs] | [[Hm Hs] | [Hm Hs]]]; rewrite Hm;
    rewrite <- Hs; apply base64_decode_encode.
Qed.

Lemma Base64URLEncode_alphabet (b : bytes) (c : byte) :
  In c (Base64URLEncode b) ->
  In c encodeURL /\ c <> "="%byte /\ c <> "+"%byte /\ c <> "/"%byte
  /\ c <> "."%byte.
Proof.
  rewrite Base64URLEncode_url. intro Hc.
  apply in_map_iff in Hc. destruct Hc as (c0 & <- & Hin).
  destruct (encoding_shape b) as [Ha _].
  rewrite Forall_forall in Ha. specialize (Ha c0 Hin).
  apply alphabet_facts in Ha. tauto.
Qed.

(** C10.  Base64url round trip: for every byte array [b], decoding the
    encoding of [b] succeeds and gives back [b]; the encoding contains no
    ['='], ['+'] or ['/'], consists of characters of the base64url alphabet
    only, and is the standard base64 encoding of [b] without its padding
    and with ['-'] for ['+'] and ['_'] for ['/']. *)
Theorem Base64URL_roundtrip (b : bytes) :
  Base64URLDecode (Base64URLEncode b) = Ok b
  /\ ~ In "="%byte (Base64URLEncode b)
  /\ ~ In "+"%byte (Base64URLEncode b)
  /\ ~ In "/"%byte (Base64URLEncode b)
  /\ Forall (fun c => In c encodeURL) (Base64URLEncode b)
  /\ exists pad,
       Forall (eq padChar) pad
       /\ base64_EncodeToString b = map std (Base64URLEncode b) ++ pad.
Proof.
  split; [apply Base64URLDecode_Encode |].
  repeat split.
  1-3: intro H; apply Base64URLEncode_alphabet in H; tauto.
  - apply Forall_forall. intros c H.
    now apply Base64URLEncode_alphabet in H.
  - rewrite Base64URLEncode_url.
    destruct (encoding_shape b) as [Ha Hs].
    rewrite map_std_url by exact Ha.
    destruct Hs as [[_ Hs] | [[_ Hs] | [_ Hs]]].
    + exists []. split; [constructor | now rewrite app_nil_r].
    + exists (str "=="). split; [repeat constructor | exact Hs].
    + exists (str "="). split; [repeat constructor | exact Hs].
Qed.

(** ** Splitting a raw token *)

Lemma strings_Split_nonempty (s : bytes) (sep : byte) :
  strings_Split s sep <> [].
Proof.
  destruct s as [| c s]; cbn [strings_Split]; [discriminate |].
  destruct (Byte.eqb c sep); [discriminate |].
  destruct (strings_Split s sep); discriminate.
Qed.

Lemma strings_Split_app_sep (a b : bytes) (sep : byte) :
  ~ In sep a ->
  strings_Split (a ++ sep :: b) sep = a :: strings_Split b sep.
Proof.
  induction a as [| c a IH]; intro Hn; cbn [app strings_Split].
  - now rewrite (Byte.byte_dec_lb (eq_refl sep)).
  - destruct (Byte.eqb c sep) eqn:E.
    + apply Byte.byte_dec_bl in E. subst c. exfalso. apply Hn. now left.
    + rewrite IH; [reflexivity |]. intro Hin. apply Hn. now right.
Qed.

Lemma strings_Split_no_sep (a : bytes) (sep : byte) :
  ~ In sep a -> strings_Split a sep = [a].
Proof.
  induction a as [| c a IH]; intro Hn; cbn [strings_Split];
    [reflexivity |].
  destruct (Byte.eqb c sep) eqn:E.
  - apply Byte.byte_dec_bl in E. subst c. exfalso. apply Hn. now left.
  - rewrite IH; [reflexivity |]. intro Hin. apply Hn. now right.
Qed.

Lemma Base64URLEncode_no_dot (b : bytes) :
  ~ In "."%byte (Base64URLEncode b).
Proof. intro H. apply Base64URLEncode_alphabet in H. tauto. Qed.

(** The guard of [GetRawTokenParts] never fires. *)
Lemma part_count_guard_dead (n : nat) :
  ((n <? 2)%nat && (3 <? n)%nat) = false.
Proof.
  destruct (Nat.ltb_spec n 2), (Nat.ltb_spec 3 n); trivial. lia.
Qed.

Lemma Base64URLDecode_no_part_count_error (s : bytes) :
  Base64URLDecode s <> Err part_count_error.
Proof.
  assert (Hdec : forall src si dbuf,
             base64_decode src si dbuf <> Err part_count_error).
  { induction src as [| c rest IH]; intros si dbuf; cbn [base64_decode].
    - destruct dbuf; discriminate.
    - destruct (decodeMap c).
      + destruct (Nat.eqb (length dbuf) 3); [| apply IH].
        specialize (IH (S si) []).
        destruct (base64_decode rest (S si) []); [discriminate |].
        congruence.
      + destruct (is_newline c); [apply IH |].
        destruct (Byte.eqb c padChar); [| discriminate].
        unfold decode_padding.
        destruct (length dbuf) as [| [| j]]; try discriminate.
        destruct (Nat.eqb (S (S j)) 2).
        * destruct (skip_newlines rest) as [r n].
          destruct r as [| c' r']; [discriminate |].
          destruct (Byte.eqb c' padChar); [| discriminate].
          destruct (skip_newlines r') as [r'' n'].
          destruct r''; discriminate.
        * destruct (skip_newlines rest) as [r n].
          destruct r; discriminate. }
  unfold Base64URLDecode, base64_DecodeString.
  destruct (length _ mod 4)%nat as [| [| [| [| k]]]];
    try apply Hdec; discriminate.
Qed.

Lemma GetRawTokenParts_no_dot (raw decoded : bytes) :
  ~ In "."%byte raw ->
  Base64URLDecode raw = Ok decoded ->
  GetRawTokenParts raw = Panic (IndexOutOfRange 1 1).
Proof.
  intros Hdot Hdec. unfold GetRawTokenParts.
  rewrite strings_Split_no_sep by exact Hdot.
  cbn [length Nat.ltb Nat.leb andb index nth_error run_bind].
  now rewrite Hdec.
Qed.

Lemma GetRawTokenParts_many_parts (raw p0 p1 p2 p3 : bytes)
  (ps : list bytes) (decodedHeader decodedBody : bytes) :
  strings_Split raw "."%byte = p0 :: p1 :: p2 :: p3 :: ps ->
  Base64URLDecode p0 = Ok decodedHeader ->
  Base64URLDecode p1 = Ok decodedBody ->
  exists token,
    GetRawTokenParts raw = Val (Ok token)
    /\ RawHeader token = p0 /\ RawBody token = p1
    /\ RawSignature token = [] /\ DecodedSignature token = [].
Proof.
  intros Hsplit H0 H1. unfold GetRawTokenParts.
  rewrite Hsplit, part_count_guard_dead.
  cbn [index nth_error run_bind]. rewrite H0, H1.
  cbn [length Nat.eqb]. eexists. split; [reflexivity |].
  repeat split.
Qed.

(** C3.  What [GetRawTokenParts] does with a wrong number of parts.  It
    never reports the part-count error.  A raw token without any dot
    that decodes as base64url makes it panic on [parts[1]] (so "e30"),
    and a raw token with three dots or more whose first two parts decode
    is accepted as an unsigned token, the parts from the third on ignored
    (so "e30.e30.YQ.YQ"). *)
Theorem GetRawTokenParts_part_count_unchecked :
  (forall raw, GetRawTokenParts raw <> Val (Err part_count_error))
  /\ (forall raw decoded,
        ~ In "."%byte raw ->
        Base64URLDecode raw = Ok decoded ->
        GetRawTokenParts raw = Panic (IndexOutOfRange 1 1))
  /\ (forall raw p0 p1 p2 p3 ps decodedHeader decodedBody,
        strings_Split raw "."%byte = p0 :: p1 :: p2 :: p3 :: ps ->
        Base64URLDecode p0 = Ok decodedHeader ->
        Base64URLDecode p1 = Ok decodedBody ->
        exists token,
          GetRawTokenParts raw = Val (Ok token)
          /\ RawHeader token = p0 /\ RawBody token = p1
          /\ RawSignature token = [] /\ DecodedSignature token = [])
  /\ length (strings_Split (str "e30") "."%byte) = 1
  /\ GetRawTokenParts (str "e30") = Panic (IndexOutOfRange 1 1)
  /\ length (strings_Split (str "e30.e30.YQ.YQ") "."%byte) = 4
  /\ exists token,
       GetRawTokenParts (str "e30.e30.YQ.YQ") = Val (Ok token)
       /\ RawToken token = str "e30.e30.YQ.YQ"
       /\ DecodedHeader token = str "{}"
       /\ DecodedBody token = str "{}"
       /\ RawSignature token = []
       /\ DecodedSignature token = [].
Proof.
  split; [| split; [exact GetRawTokenParts_no_dot |];
            split; [exact GetRawTokenParts_many_parts |];
            repeat split; try reflexivity].
  - intro raw. unfold GetRawTokenParts.
    rewrite part_count_guard_dead.
    pose proof (strings_Split_nonempty raw "."%byte) as Hne.
    destruct (strings_Split raw "."%byte) as [| p0 ps]; [contradiction |].
    cbn [index nth_error run_bind].
    pose proof (Base64URLDecode_no_part_count_error p0) as H0.
    destruct (Base64URLDecode p0) as [dh |]; [| congruence].
    destruct ps as [| p1 ps]; [discriminate |].
    cbn [index nth_error run_bind].
    pose proof (Base64URLDecode_no_part_count_error p1) as H1.
    destruct (Base64URLDecode p1) as [db |]; [| congruence].
    destruct (Nat.eqb (length (p0 :: p1 :: ps)) 3); [| discriminate].
    destruct ps as [| p2 ps]; [discriminate |].
    cbn [index nth_error run_bind].
    pose proof (Base64URLDecode_no_part_count_error p2) as H2.
    destruct (Base64URLDecode p2); [discriminate | congruence].
  - eexists. split; [vm_compute; reflexivity |].
    repeat split.
Qed.

(** ** [strconv.ParseInt]: what a successful parse returns *)

Lemma parseUint_loop_spec (s : bytes) :
  forall n v,
    parseUint_loop s n = Ok v ->
    forallb is_digit s = true
    /\ v = fold_left (fun n c => (n * 10 + digit_value c)%Z) s n
    /\ (s <> [] -> v <= maxUint64)%Z.
Proof.
  induction s as [| c rest IH]; intros n v H; cbn [parseUint_loop] in H.
  - inversion H. repeat split. congruence.
  - destruct (is_digit c) eqn:Hd; [| discriminate].
    destruct (n >=? maxUint64 / 10 + 1)%Z; [discriminate |].
    destruct (n * 10 + digit_value c >? maxUint64)%Z eqn:Hov;
      [discriminate |].
    destruct (IH _ _ H) as (Hall & Hv & Hmax).
    cbn [forallb fold_left]. rewrite Hd, Hall. repeat split; trivial.
    intros _. destruct rest as [| c' rest'].
    + cbn in Hv. subst v. lia.
    + apply Hmax. discriminate.
Qed.

Unset Implicit Arguments.

Lemma digit_char_digit (d : nat) :
  d < 10 ->
  is_digit (digit_char d) = true
  /\ digit_value (digit_char d) = Z.of_nat d
  /\ Byte.eqb (digit_char d) "+"%byte = false
  /\ Byte.eqb (digit_char d) "-"%byte = false.
Proof.
  intro H. do 10 (destruct d as [| d]; [repeat split |]). lia.
Qed.

Lemma is_digit_digit_char (c : byte) :
  is_digit c = true -> exists d, d < 10 /\ c = digit_char d.
Proof.
  intro H. destruct c; vm_compute in H; try discriminate H.
  all: first
    [ exists 0; split; [lia | reflexivity]
    | exists 1; split; [lia | reflexivity]
    | exists 2; split; [lia | reflexivity]
    | exists 3; split; [lia | reflexivity]
    | exists 4; split; [lia | reflexivity]
    | exists 5; split; [lia | reflexivity]
    | exists 6; split; [lia | reflexivity]
    | exists 7; split; [lia | reflexivity]
    | exists 8; split; [lia | reflexivity]
    | exists 9; split; [lia | reflexivity] ].
Qed.

Lemma digits_numeral (l : bytes) :
  forallb is_digit l = true ->
  exists ds,
    l = numeral_text ds
    /\ Forall (fun d => d < 10) ds
    /\ forall n,
         fold_left (fun n c => (n * 10 + digit_value c)%Z) l n
         = fold_left (fun a d => (10 * a + Z.of_nat d)%Z) ds n.
Proof.
  induction l as [| c l IH]; cbn [forallb]; intro H.
  - exists []. repeat split. constructor.
  - apply andb_true_iff in H. destruct H as [Hc Hl].
    destruct (IH Hl) as (ds & -> & Hds & Hv).
    destruct (is_digit_digit_char c Hc) as (d & Hd & ->).
    exists (d :: ds). repeat split; [now constructor |].
    intro n. cbn [fold_left map numeral_text].
    destruct (digit_char_digit d Hd) as (_ & -> & _).
    rewrite Hv. f_equal. lia.
Qed.

Lemma numeral_fold_le (ds : list nat) :
  forall n,
    (0 <= n)%Z ->
    (n <= fold_left (fun a d => (10 * a + Z.of_nat d)%Z) ds n)%Z.
Proof.
  induction ds as [| d ds IH]; intros n Hn; cbn [fold_left]; [lia |].
  specialize (IH (10 * n + Z.of_nat d)%Z). lia.
Qed.

Lemma parseUint_loop_numeral (ds : list nat) :
  Forall (fun d => d < 10) ds ->
  forall n,
    (0 <= n)%Z ->
    (fold_left (fun a d => (10 * a + Z.of_nat d)%Z) ds n <= maxUint64)%Z ->
    parseUint_loop (numeral_text ds) n
    = Ok (fold_left (fun a d => (10 * a + Z.of_nat d)%Z) ds n).
Proof.
  induction 1 as [| d ds Hd Hds IH]; intros n Hn Hmax;
    cbn [numeral_text map parseUint_loop fold_left] in *; [reflexivity |].
  destruct (digit_char_digit d Hd) as (-> & -> & _).
  pose proof (numeral_fold_le ds (10 * n + Z.of_nat d) ltac:(lia)) as Hle.
  unfold maxUint64 in *.
  change (2 ^ 64 - 1)%Z with 18446744073709551615%Z in *.
  destruct (Z.geb_spec n (18446744073709551615 / 10 + 1)); [lia |].
  destruct (Z.gtb_spec (n * 10 + Z.of_nat d) 18446744073709551615); [lia |].
  replace (n * 10 + Z.of_nat d)%Z with (10 * n + Z.of_nat d)%Z by lia.
  apply IH; lia.
Qed.

(** [strconv.ParseInt(s, 10, 64)] returns [n] exactly when [s] is a
    decimal writing of [n] and [n] is in the range of int64. *)
Lemma strconv_ParseInt_numeral (s : bytes) (n : Z) :
  strconv_ParseInt s = Ok n
  <-> signed_numeral s n /\ (- 2 ^ 63 <= n < 2 ^ 63)%Z.
Proof.
  split.
  - unfold strconv_ParseInt. destruct s as [| c rest]; [discriminate |].
    cbv zeta.
    set (digits := if Byte.eqb c "+"%byte || Byte.eqb c "-"%byte
                   then rest else c :: rest).
    unfold strconv_ParseUint.
    destruct digits as [| d ds] eqn:Hdig; [discriminate |].
    destruct (parseUint_loop (d :: ds) 0) as [un | e] eqn:Hloop.
    2: { destruct e; try discriminate. destruct kind; discriminate. }
    apply parseUint_loop_spec in Hloop. destruct Hloop as (Hall & Hun & _).
    destruct (digits_numeral (d :: ds) Hall) as (nds & Htext & Hnds & Hval).
    rewrite Hval in Hun. fold (numeral_value nds) in Hun.
    assert (Hne : nds <> []) by (intros ->; discriminate Htext).
    assert (Hnn : (0 <= un)%Z).
    { subst un. apply (numeral_fold_le nds 0). lia. }
    intro H. subst digits.
    destruct (Byte.eqb c "-"%byte) eqn:Hminus.
    + apply Byte.byte_dec_bl in Hminus. subst c. cbn in Hdig. subst rest.
      cbn [negb andb] in H.
      destruct (un >? 2 ^ 63)%Z eqn:Hcut; [discriminate |].
      rewrite Z.gtb_ltb in Hcut; apply Z.ltb_ge in Hcut.
      change (2 ^ 63)%Z with 9223372036854775808%Z in *.
      inversion H; subst n. split; [| lia].
      exists (str "-"), nds. rewrite Htext.
      split; [reflexivity |]. split; [exact Hne |]. split; [exact Hnds |].
      right. split; [reflexivity | congruence].
    + rewrite orb_false_r in Hdig. cbn [negb andb] in H.
      destruct (un >=? 2 ^ 63)%Z eqn:Hcut; [discriminate |].
      rewrite Z.geb_leb in Hcut; apply Z.leb_gt in Hcut.
      change (2 ^ 63)%Z with 9223372036854775808%Z in *.
      inversion H; subst n. split; [| lia].
      destruct (Byte.eqb c "+"%byte) eqn:Hplus.
      * apply Byte.byte_dec_bl in Hplus. subst c rest.
        exists (str "+"), nds. rewrite Htext.
        split; [reflexivity |]. split; [exact Hne |]. split; [exact Hnds |].
        left. split; [now right | exact Hun].
      * exists [], nds. rewrite <- Htext.
        split; [exact Hdig |]. split; [exact Hne |]. split; [exact Hnds |].
        left. split; [now left | exact Hun].
  - intros [(sign & ds & -> & Hne & Hds & Hsign) Hrange].
    destruct ds as [| d ds]; [congruence |].
    pose proof (Forall_inv Hds) as Hd.
    destruct (digit_char_digit d Hd) as (_ & _ & Hplus & Hminus).
    pose proof (numeral_fold_le (d :: ds) 0 ltac:(lia)) as Hnn.
    fold (numeral_value (d :: ds)) in Hnn.
    assert (Hloop : (numeral_value (d :: ds) <= maxUint64)%Z ->
                    strconv_ParseUint (numeral_text (d :: ds))
                    = Ok (numeral_value (d :: ds))).
    { intro Hmax. unfold strconv_ParseUint.
      change (numeral_text (d :: ds))
        with (digit_char d :: numeral_text ds) at 1.
      cbv iota. now apply parseUint_loop_numeral; [| lia |]. }
    unfold maxUint64 in Hloop.
    change (2 ^ 64 - 1)%Z with 18446744073709551615%Z in Hloop.
    change (2 ^ 63)%Z with 9223372036854775808%Z in *.
    destruct Hsign as [[[-> | ->] ->] | [-> ->]].
    + cbn [app]. change (numeral_text (d :: ds))
        with (digit_char d :: numeral_text ds) at 1.
      unfold strconv_ParseInt. rewrite Hplus, Hminus. cbn [orb].
      change (digit_char d :: numeral_text ds) with (numeral_text (d :: ds)).
      rewrite Hloop by lia. cbn [negb andb].
      destruct (Z.geb_spec (numeral_value (d :: ds)) (2 ^ 63));
        [change (2 ^ 63)%Z with 9223372036854775808%Z in *; lia |
         reflexivity].
    + change (str "+" ++ numeral_text (d :: ds))
        with ("+"%byte :: numeral_text (d :: ds)).
      unfold strconv_ParseInt.
      change (Byte.eqb "+"%byte "+"%byte) with true.
      change (Byte.eqb "+"%byte "-"%byte) with false. cbn [orb].
      rewrite Hloop by lia. cbn [negb andb].
      destruct (Z.geb_spec (numeral_value (d :: ds)) (2 ^ 63));
        [change (2 ^ 63)%Z with 9223372036854775808%Z in *; lia |
         reflexivity].
    + change (str "-" ++ numeral_text (d :: ds))
        with ("-"%byte :: numeral_text (d :: ds)).
      unfold strconv_ParseInt.
      change (Byte.eqb "-"%byte "+"%byte) with false.
      change (Byte.eqb "-"%byte "-"%byte) with true. cbn [orb].
      rewrite Hloop by lia. cbn [negb andb].
      destruct (Z.gtb_spec (numeral_value (d :: ds)) (2 ^ 63));
        [change (2 ^ 63)%Z with 9223372036854775808%Z in *; lia |
         reflexivity].
Qed.

(** ** Go's times: the fields of a [Time] as numbers *)

Lemma wrap64_small (x : Z) :
  (- 2 ^ 63 <= x < 2 ^ 63)%Z -> wrap64 x = x.
Proof.
  intro H. unfold wrap64.
  change (2 ^ 63)%Z with 9223372036854775808%Z in *.
  change (2 ^ 64)%Z with 18446744073709551616%Z. lia.
Qed.

Ltac time_consts :=
  change (2 ^ 64)%Z with 18446744073709551616%Z in *;
  change (2 ^ 63)%Z with 9223372036854775808%Z in *;
  change (2 ^ 33)%Z with 8589934592%Z in *;
  change (2 ^ 32)%Z with 4294967296%Z in *;
  change (2 ^ 31)%Z with 2147483648%Z in *;
  change (2 ^ 30)%Z with 1073741824%Z in *.

Lemma land_nsecMask (w : Z) : Z.land w nsecMask = (w mod 2 ^ 30)%Z.
Proof. change nsecMask with (Z.ones 30). now apply Z.land_ones. Qed.

Lemma land_hasMonotonic (w : Z) :
  (0 <= w < 2 ^ 64)%Z ->
  (Z.land w hasMonotonic =? 0)%Z = (w <? 2 ^ 63)%Z.
Proof.
  intro Hw. change hasMonotonic with (2 ^ 63)%Z.
  assert (E : Z.land w (2 ^ 63)
              = if Z.testbit w 63 then (2 ^ 63)%Z else 0%Z).
  { apply Z.bits_inj'. intros n Hn. rewrite Z.land_spec, Z.pow2_bits_eqb by lia.
    destruct (Z.eqb_spec 63 n) as [<- | Hne].
    - destruct (Z.testbit w 63); [now rewrite Z.pow2_bits_eqb by lia |
                                  now rewrite Z.bits_0].
    - rewrite andb_false_r.
      destruct (Z.testbit w 63); [rewrite Z.pow2_bits_eqb by lia |
                                  rewrite Z.bits_0]; trivial.
      symmetry. now apply Z.eqb_neq. }
  rewrite E.
  destruct (Z.testbit w 63) eqn:Hb.
  - apply Z.testbit_true in Hb; [| lia]. time_consts.
    destruct (Z.ltb_spec w 9223372036854775808); [lia | reflexivity].
  - assert (Hn : ~ ((w / 2 ^ 63) mod 2 = 1)%Z).
    { intro H. apply Z.testbit_true in H; [congruence | lia]. }
    time_consts.
    destruct (Z.ltb_spec w 9223372036854775808); [reflexivity | lia].
Qed.

Lemma lor_disjoint_addZ (x y k : Z) :
  (0 <= k)%Z -> (x mod 2 ^ k = 0)%Z -> (0 <= y < 2 ^ k)%Z ->
  Z.lor x y = (x + y)%Z.
Proof.
  intros Hk Hx Hy.
  assert (Hland : Z.land x y = 0%Z).
  { apply Z.bits_inj'. intros n Hn. rewrite Z.land_spec, Z.bits_0.
    destruct (Z.lt_ge_cases n k) as [Hlt | Hge].
    - replace (Z.testbit x n) with (Z.testbit (x mod 2 ^ k) n)
        by (apply Z.mod_pow2_bits_low; assumption).
      now rewrite Hx, Z.bits_0.
    - rewrite <- (Z.mod_small y (2 ^ k)) by assumption.
      rewrite Z.mod_pow2_bits_high by lia. apply andb_false_r. }
  now rewrite Z.add_nocarry_lxor, Z.lxor_lor.
Qed.

Lemma time_hasMonotonic_spec (t : Time) :
  (0 <= wall t < 2 ^ 64)%Z ->
  time_hasMonotonic t = (2 ^ 63 <=? wall t)%Z.
Proof.
  intro Hw. unfold time_hasMonotonic. rewrite land_hasMonotonic by assumption.
  destruct (Z.ltb_spec (wall t) (2 ^ 63)), (Z.leb_spec (2 ^ 63) (wall t));
    trivial; lia.
Qed.

Lemma time_nsec_spec (t : Time) :
  time_nsec t = (wall t mod 2 ^ 30)%Z.
Proof.
  unfold time_nsec, wrap32. rewrite land_nsecMask. time_consts. lia.
Qed.

Lemma time_wallSeconds_spec (t : Time) :
  (0 <= wall t < 2 ^ 64)%Z ->
  time_wallSeconds t = ((wall t mod 2 ^ 63) / 2 ^ 30)%Z.
Proof.
  intro Hw. unfold time_wallSeconds, wrapu64, nsecShift.
  rewrite Z.shiftl_mul_pow2, Z.shiftr_div_pow2 by lia.
  change (2 ^ (30 + 1))%Z with 2147483648%Z. change (2 ^ 1)%Z with 2%Z.
  time_consts. lia.
Qed.

Lemma time_sec_spec (t : Time) :
  (0 <= wall t < 2 ^ 64)%Z ->
  time_sec t = wall_clock_seconds t.
Proof.
  intro Hw. unfold time_sec, wall_clock_seconds.
  rewrite time_hasMonotonic_spec by assumption.
  destruct (Z.leb_spec (2 ^ 63) (wall t)); [| reflexivity].
  rewrite time_wallSeconds_spec by assumption.
  unfold wrap64, wallToInternal, secondsPerDay.
  change ((1884 * 365 + 1884 / 4 - 1884 / 100 + 1884 / 400) * 86400)%Z
    with 59453308800%Z.
  time_consts. lia.
Qed.

Lemma wall_clock_seconds_wall (w e e' : Z) :
  (2 ^ 63 <= w)%Z ->
  wall_clock_seconds {| wall := w; ext := e |}
  = wall_clock_seconds {| wall := w; ext := e' |}.
Proof.
  intro H. unfold wall_clock_seconds. cbn [wall ext].
  destruct (Z.leb_spec (2 ^ 63) w); [reflexivity | lia].
Qed.

Lemma time_addSec_ext_spec (t : Time) (d : Z) :
  (- 2 ^ 63 <= ext t < 2 ^ 63)%Z -> (- 2 ^ 63 <= d < 2 ^ 63)%Z ->
  time_addSec_ext t d = {| wall := wall t; ext := sat64 (ext t + d) |}.
Proof.
  intros He Hd. unfold time_addSec_ext, sat64.
  change (Z.shiftl 1 63) with (2 ^ 63)%Z.
  set (sum := wrap64 (ext t + d)).
  assert (Hsum : (sum = ext t + d \/ sum = ext t + d - 2 ^ 64
                  \/ sum = ext t + d + 2 ^ 64)%Z
                 /\ (- 2 ^ 63 <= sum < 2 ^ 63)%Z).
  { subst sum. unfold wrap64. time_consts. lia. }
  clearbody sum.
  destruct (Z.ltb_spec (ext t + d) (- 2 ^ 63));
    [| destruct (Z.leb_spec (2 ^ 63) (ext t + d))];
    destruct (Z.gtb_spec sum (ext t)), (Z.gtb_spec d 0);
    cbn [Bool.eqb]; try reflexivity; time_consts; try (f_equal; lia); lia.
Qed.

Lemma time_stripMono_spec (t : Time) :
  (0 <= wall t < 2 ^ 64)%Z ->
  let t' := time_stripMono t in
  (0 <= wall t' < 2 ^ 64)%Z
  /\ (wall t' mod 2 ^ 30 = wall t mod 2 ^ 30)%Z
  /\ wall_clock_seconds t' = wall_clock_seconds t
  /\ (2 ^ 63 <= wall t -> wall t' < 2 ^ 63 /\ ext t' = wall_clock_seconds t)%Z
  /\ (wall t < 2 ^ 63 -> t' = t)%Z.
Proof.
  intros Hw. unfold time_stripMono.
  rewrite time_hasMonotonic_spec, time_sec_spec, land_nsecMask by assumption.
  destruct (Z.leb_spec (2 ^ 63) (wall t)) as [Hm | Hm]; cbn zeta.
  - cbn [wall ext]. repeat split; try (time_consts; lia).
    unfold wall_clock_seconds at 1. cbn [wall ext].
    destruct (Z.leb_spec (2 ^ 63) (wall t mod 2 ^ 30)); [| reflexivity].
    time_consts; lia.
  - repeat split; try lia.
Qed.

Lemma wall_set_seconds (r dsec : Z) :
  (0 <= r < 2 ^ 30)%Z -> (0 <= dsec < 2 ^ 33)%Z ->
  Z.lor (Z.lor r (wrapu64 (Z.shiftl (wrapu64 dsec) nsecShift))) hasMonotonic
  = (2 ^ 63 + dsec * 2 ^ 30 + r)%Z.
Proof.
  intros Hr Hd. unfold wrapu64, nsecShift. change hasMonotonic with (2 ^ 63)%Z.
  rewrite Z.shiftl_mul_pow2 by lia.
  rewrite (Z.mod_small dsec) by (time_consts; lia).
  rewrite (Z.mod_small (dsec * 2 ^ 30)) by (time_consts; lia).
  rewrite (Z.lor_comm r), (lor_disjoint_addZ (dsec * 2 ^ 30) r 30);
    [| lia | apply Z.mod_mul; time_consts; lia | assumption].
  rewrite Z.lor_comm, (lor_disjoint_addZ (2 ^ 63) _ 63);
    [| lia | reflexivity | time_consts; lia].
  lia.
Qed.

Lemma wall_set_nsec (w r : Z) :
  (0 <= w < 2 ^ 64)%Z -> (0 <= r < 2 ^ 30)%Z ->
  Z.lor (Z.ldiff w nsecMask) (wrapu64 r) = (w / 2 ^ 30 * 2 ^ 30 + r)%Z.
Proof.
  intros Hw Hr. change nsecMask with (Z.ones 30).
  rewrite Z.ldiff_ones_r, Z.shiftr_div_pow2, Z.shiftl_mul_pow2 by lia.
  unfold wrapu64. rewrite (Z.mod_small r) by (time_consts; lia).
  apply (lor_disjoint_addZ _ _ 30); [lia | | assumption].
  apply Z.mod_mul. time_consts; lia.
Qed.

Lemma time_addSec_spec (t : Time) (d : Z) :
  (0 <= wall t < 2 ^ 64)%Z -> (- 2 ^ 63 <= ext t < 2 ^ 63)%Z ->
  (- 2 ^ 34 <= d <= 2 ^ 34)%Z ->
  let t' := time_addSec t d in
  (0 <= wall t' < 2 ^ 64)%Z
  /\ (wall t' mod 2 ^ 30 = wall t mod 2 ^ 30)%Z
  /\ wall_clock_seconds t' = sat64 (wall_clock_seconds t + d).
Proof.
  intros Hw He Hd. unfold time_addSec.
  rewrite time_hasMonotonic_spec by assumption.
  change (2 ^ 34)%Z with 17179869184%Z in Hd.
  destruct (Z.leb_spec (2 ^ 63) (wall t)) as [Hm | Hm]; cbn zeta.
  - rewrite time_wallSeconds_spec by assumption.
    set (f := ((wall t mod 2 ^ 63) / 2 ^ 30)%Z).
    assert (Hf : (0 <= f < 2 ^ 33)%Z) by (subst f; time_consts; lia).
    assert (Hwcs : wall_clock_seconds t = (wallToInternal + f)%Z).
    { unfold wall_clock_seconds.
      destruct (Z.leb_spec (2 ^ 63) (wall t)); [| lia].
      subst f. f_equal. time_consts. lia. }
    assert (Hwi : wallToInternal = 59453308800%Z) by reflexivity.
    assert (Hsat : sat64 (wall_clock_seconds t + d)
                   = (wallToInternal + f + d)%Z).
    { rewrite Hwcs. unfold sat64.
      destruct (Z.ltb_spec (wallToInternal + f + d) (- 2 ^ 63));
        [time_consts; lia |].
      destruct (Z.leb_spec (2 ^ 63) (wallToInternal + f + d));
        [time_consts; lia | reflexivity]. }
    rewrite (wrap64_small f) by (time_consts; lia).
    rewrite (wrap64_small (f + d)) by (time_consts; lia).
    change (Z.shiftl 1 33) with (2 ^ 33)%Z.
    destruct (Z.leb_spec 0 (f + d)) as [H0 | H0];
      [destruct (Z.leb_spec (f + d) (2 ^ 33 - 1)) as [H1 | H1] |];
      cbn [andb].
    + cbn [wall ext]. rewrite land_nsecMask.
      rewrite wall_set_seconds by (time_consts; lia).
      rewrite Hsat. unfold wall_clock_seconds. cbn [wall ext].
      destruct (Z.leb_spec (2 ^ 63)
                  (2 ^ 63 + (f + d) * 2 ^ 30 + wall t mod 2 ^ 30));
        [| time_consts; lia].
      repeat split; time_consts; lia.
    + destruct (time_stripMono_spec t Hw) as (Hw' & Hn' & _ & Hs' & _).
      destruct (Hs' Hm) as [Hlt Hext].
      rewrite time_addSec_ext_spec by (rewrite ?Hext, ?Hwcs; time_consts; lia).
      cbn [wall ext]. rewrite Hext.
      unfold wall_clock_seconds at 1. cbn [wall ext].
      destruct (Z.leb_spec (2 ^ 63) (wall (time_stripMono t))); [lia |].
      repeat split; trivial; lia.
    + destruct (time_stripMono_spec t Hw) as (Hw' & Hn' & _ & Hs' & _).
      destruct (Hs' Hm) as [Hlt Hext].
      rewrite time_addSec_ext_spec by (rewrite ?Hext, ?Hwcs; time_consts; lia).
      cbn [wall ext]. rewrite Hext.
      unfold wall_clock_seconds at 1. cbn [wall ext].
      destruct (Z.leb_spec (2 ^ 63) (wall (time_stripMono t))); [lia |].
      repeat split; trivial; lia.
  - rewrite time_addSec_ext_spec by (time_consts; lia).
    cbn [wall ext]. unfold wall_clock_seconds. cbn [wall ext].
    destruct (Z.leb_spec (2 ^ 63) (wall t)); [lia |].
    repeat split; lia.
Qed.

Lemma time_Add_normalise (a d : Z) :
  (0 <= a < second)%Z -> (- 2 ^ 63 <= d < 2 ^ 63)%Z ->
  let dsec := Z.quot d 1000000000 in
  let nsec := wrap32 (a + wrap32 (Z.rem d 1000000000)) in
  (if (nsec >=? 1000000000)%Z
   then (wrap64 (dsec + 1), wrap32 (nsec - 1000000000))
   else if (nsec <? 0)%Z
   then (wrap64 (dsec - 1), wrap32 (nsec + 1000000000))
   else (dsec, nsec))
  = (((a + d) / second)%Z, ((a + d) mod second)%Z).
Proof.
  intros Ha Hd dsec nsec. unfold second in *.
  assert (Hq : (d = 1000000000 * dsec + Z.rem d 1000000000)%Z)
    by apply Z.quot_rem'.
  assert (Hr : (- 1000000000 < Z.rem d 1000000000 < 1000000000)%Z).
  { pose proof (Z.rem_bound_abs d 1000000000 ltac:(lia)). lia. }
  assert (Hs : (dsec <= 0 <= Z.rem d 1000000000
                \/ Z.rem d 1000000000 <= 0 <= dsec
                \/ 0 <= dsec /\ 0 <= Z.rem d 1000000000
                \/ dsec <= 0 /\ Z.rem d 1000000000 <= 0)%Z) by lia.
  set (r := Z.rem d 1000000000) in *.
  assert (Hn : nsec = (a + r)%Z).
  { subst nsec. unfold wrap32. time_consts. clearbody r dsec. lia. }
  assert (Hdsec : (- 9223372037 <= dsec <= 9223372037)%Z).
  { time_consts. clearbody r dsec. lia. }
  rewrite Hn. clearbody r dsec. clear nsec Hn.
  unfold wrap64, wrap32. time_consts.
  destruct (Z.geb_spec (a + r) 1000000000);
    [| destruct (Z.ltb_spec (a + r) 0)]; f_equal; lia.
Qed.

Lemma time_Add_spec (t : Time) (d : Duration) :
  Time_wf t -> (- 2 ^ 63 <= d < 2 ^ 63)%Z ->
  let t' := time_Add t d in
  (0 <= wall t' < 2 ^ 64)%Z
  /\ (wall t' mod 2 ^ 30 = (wall t mod 2 ^ 30 + d) mod second)%Z
  /\ wall_clock_seconds t'
     = sat64 (wall_clock_seconds t + (wall t mod 2 ^ 30 + d) / second).
Proof.
  intros (Hw & He & Hns) Hd. unfold time_Add. rewrite time_nsec_spec.
  set (a := (wall t mod 2 ^ 30)%Z) in *.
  assert (Ha : (0 <= a < second)%Z) by (subst a; time_consts; lia).
  pose proof (time_Add_normalise a d Ha Hd) as Hn. cbv zeta in Hn.
  rewrite Hn. clear Hn.
  set (D := ((a + d) / second)%Z). set (r := ((a + d) mod second)%Z).
  assert (Hr : (0 <= r < 2 ^ 30)%Z)
    by (subst r; unfold second; time_consts; lia).
  assert (HD : (- 2 ^ 34 <= D <= 2 ^ 34)%Z).
  { subst D. unfold second in *. change (2 ^ 34)%Z with 17179869184%Z.
    time_consts. lia. }
  rewrite wall_set_nsec by assumption.
  set (t1 := {| wall := (wall t / 2 ^ 30 * 2 ^ 30 + r)%Z; ext := ext t |}).
  assert (Hw1 : (0 <= wall t1 < 2 ^ 64)%Z)
    by (subst t1; cbn [wall]; time_consts; lia).
  assert (Hn1 : (wall t1 mod 2 ^ 30 = r)%Z)
    by (subst t1; cbn [wall]; time_consts; lia).
  assert (Hs1 : wall_clock_seconds t1 = wall_clock_seconds t).
  { unfold wall_clock_seconds. subst t1. cbn [wall ext].
    destruct (Z.leb_spec (2 ^ 63) (wall t)),
             (Z.leb_spec (2 ^ 63) (wall t / 2 ^ 30 * 2 ^ 30 + r));
      trivial; time_consts; try lia.
    all: try (f_equal; lia). }
  destruct (time_addSec_spec t1 D Hw1 He HD) as (Hw2 & Hn2 & Hs2).
  set (t2 := time_addSec t1 D) in *. clearbody t2.
  rewrite Hn1 in Hn2. rewrite Hs1 in Hs2.
  rewrite time_hasMonotonic_spec by assumption.
  destruct (Z.leb_spec (2 ^ 63) (wall t2)) as [Hm | Hm]; cbn zeta.
  - match goal with
    | |- context [if ?c then _ else _] => destruct c
    end.
    + destruct (time_stripMono_spec t2 Hw2) as (Hw3 & Hn3 & Hs3 & _).
      rewrite Hn3, Hs3. auto.
    + cbn [wall]. rewrite (wall_clock_seconds_wall _ _ (ext t2)) by assumption.
      destruct t2 as [w2 e2]. cbn [wall ext] in *. auto.
  - auto.
Qed.

Lemma time_Unix_spec (sec : Z) :
  (- 2 ^ 63 <= sec + 62135596800 < 2 ^ 63)%Z ->
  time_Unix sec 0 = {| wall := 0; ext := (sec + 62135596800)%Z |}.
Proof.
  intro H. unfold time_Unix. cbn [Z.ltb Z.geb Z.compare orb].
  unfold time_unixTime. rewrite wrap64_small by exact H. reflexivity.
Qed.

(** Comparing with a time made by [time.Unix]. *)
Lemma time_Before_Unix (t : Time) (us : Z) :
  (0 <= wall t < 2 ^ 64)%Z ->
  time_Before t {| wall := 0; ext := us |}
  = (wall_clock_seconds t <? us)%Z.
Proof.
  intro Hw. unfold time_Before. cbn [wall ext].
  rewrite Z.land_0_r, Z.land_0_l. cbn [Z.eqb negb].
  rewrite time_sec_spec by assumption.
  rewrite !time_nsec_spec. cbn [wall]. rewrite Z.mod_0_l by (time_consts; lia).
  unfold time_sec, time_hasMonotonic. cbn [wall ext Z.land Z.eqb negb].
  destruct (Z.ltb_spec (wall t mod 2 ^ 30) 0); [time_consts; lia |].
  now rewrite andb_false_r, orb_false_r.
Qed.

Lemma time_After_Unix (t : Time) (us : Z) :
  (0 <= wall t < 2 ^ 64)%Z ->
  time_After t {| wall := 0; ext := us |}
  = ((wall_clock_seconds t >? us)%Z
     || (wall_clock_seconds t =? us)%Z && (wall t mod 2 ^ 30 >? 0)%Z).
Proof.
  intro Hw. unfold time_After. cbn [wall ext].
  rewrite Z.land_0_r, Z.land_0_l. cbn [Z.eqb negb].
  rewrite time_sec_spec by assumption.
  rewrite !time_nsec_spec. cbn [wall]. rewrite Z.mod_0_l by (time_consts; lia).
  unfold time_sec, time_hasMonotonic. cbn [wall ext Z.land Z.eqb negb].
  reflexivity.
Qed.

(** ** The claims validator *)

Lemma whole_seconds (t n : Z) :
  (t <? n * second)%Z = (t / second <? n)%Z.
Proof.
  unfold second.
  destruct (Z.ltb_spec t (n * 1000000000)),
           (Z.ltb_spec (t / 1000000000) n); trivial; lia.
Qed.

Lemma instant_Add (t : Time) (d : Duration) :
  Time_wf t -> (- 2 ^ 63 <= d < 2 ^ 63)%Z ->
  let S := (wall_clock_seconds t + (wall t mod 2 ^ 30 + d) / second)%Z in
  let r := ((wall t mod 2 ^ 30 + d) mod second)%Z in
  (instant t + d = (S - 62135596800) * second + r)%Z
  /\ (0 <= r < second)%Z.
Proof.
  intros (Hw & He & Hns) Hd S r. subst S r. unfold instant, second in *.
  time_consts. lia.
Qed.

Lemma time_Before_Add_Unix (t : Time) (d : Duration) (n : Z) :
  Time_wf t -> (- 2 ^ 63 <= d < 2 ^ 63)%Z ->
  (- 2 ^ 63 <= n < 2 ^ 63 - 62135596800)%Z ->
  time_Before (time_Add t d) (time_Unix n 0)
  = (instant t + d <? n * second)%Z.
Proof.
  intros Hwf Hd Hn.
  destruct (time_Add_spec t d Hwf Hd) as (Hw' & Hn' & Hs').
  destruct (instant_Add t d Hwf Hd) as (Hi & Hr).
  rewrite time_Unix_spec by (time_consts; lia).
  rewrite time_Before_Unix by assumption. rewrite Hs', Hi.
  set (S := (wall_clock_seconds t + (wall t mod 2 ^ 30 + d) / second)%Z)
    in *.
  set (r := ((wall t mod 2 ^ 30 + d) mod second)%Z) in *.
  clearbody S r. unfold sat64, second in *.
  destruct (Z.ltb_spec S (- 2 ^ 63));
    [| destruct (Z.leb_spec (2 ^ 63) S)];
    match goal with
    | |- (?a <? ?b)%Z = (?c <? ?e)%Z =>
        destruct (Z.ltb_spec a b), (Z.ltb_spec c e)
    end; trivial; time_consts; lia.
Qed.

Lemma time_After_Add_Unix (t : Time) (d : Duration) (n : Z) :
  Time_wf t -> (- 2 ^ 63 <= d < 2 ^ 63)%Z ->
  (- 2 ^ 63 <= n < 2 ^ 63 - 62135596800 - 1)%Z ->
  time_After (time_Add t d) (time_Unix n 0)
  = (n * second <? instant t + d)%Z.
Proof.
  intros Hwf Hd Hn.
  destruct (time_Add_spec t d Hwf Hd) as (Hw' & Hn' & Hs').
  destruct (instant_Add t d Hwf Hd) as (Hi & Hr).
  rewrite time_Unix_spec by (time_consts; lia).
  rewrite time_After_Unix by assumption. rewrite Hs', Hn', Hi.
  set (S := (wall_clock_seconds t + (wall t mod 2 ^ 30 + d) / second)%Z)
    in *.
  set (r := ((wall t mod 2 ^ 30 + d) mod second)%Z) in *.
  clearbody S r. unfold sat64, second in *.
  destruct (Z.ltb_spec S (- 2 ^ 63));
    [| destruct (Z.leb_spec (2 ^ 63) S)];
    match goal with
    | |- ((?a >? ?b)%Z || (?a =? ?b)%Z && (?r >? 0)%Z)%bool = (?c <? ?e)%Z =>
        destruct (Z.gtb_spec a b), (Z.eqb_spec a b), (Z.gtb_spec r 0),
                 (Z.ltb_spec c e)
    end; cbn [orb andb]; trivial; time_consts; lia.
Qed.

Lemma time_Unix_wrap (sec : Z) :
  (2 ^ 63 - 62135596800 <= sec < 2 ^ 63)%Z ->
  time_Unix sec 0
  = {| wall := 0; ext := (sec + 62135596800 - 2 ^ 64)%Z |}.
Proof.
  intro H. unfold time_Unix. cbn [Z.ltb Z.geb Z.compare orb].
  unfold time_unixTime. f_equal. unfold wrap64.
  change unixToInternal with 62135596800%Z. time_consts. lia.
Qed.

Lemma time_Add_not_far_past (t : Time) (d : Duration) :
  Time_wf t -> (- 2 ^ 63 <= d < 2 ^ 63)%Z ->
  (- 62135596800 * second <= instant t)%Z ->
  (0 <= wall (time_Add t d) < 2 ^ 64)%Z
  /\ (- 2 ^ 34 <= wall_clock_seconds (time_Add t d))%Z.
Proof.
  intros Hwf Hd Hi.
  destruct (time_Add_spec t d Hwf Hd) as (Hw' & _ & Hs').
  split; [exact Hw' |]. rewrite Hs'.
  destruct Hwf as (Hw & He & Hns).
  assert (H0 : (0 <= wall_clock_seconds t)%Z).
  { unfold instant, second in *. time_consts. lia. }
  assert (HD : (- 2 ^ 34 <= (wall t mod 2 ^ 30 + d) / second)%Z).
  { unfold second in *. change (2 ^ 34)%Z with 17179869184%Z.
    time_consts. lia. }
  set (D := ((wall t mod 2 ^ 30 + d) / second)%Z) in *. clearbody D.
  unfold sat64. change (2 ^ 34)%Z with 17179869184%Z in *.
  destruct (Z.ltb_spec (wall_clock_seconds t + D) (- 2 ^ 63));
    [time_consts; lia |].
  destruct (Z.leb_spec (2 ^ 63) (wall_clock_seconds t + D));
    time_consts; lia.
Qed.

(** C7.  The expiration rule.  Without [exp] the check passes.  Otherwise
    [exp] is read as a signed decimal number of seconds: a string that is
    not the decimal writing of an integer in the range of int64 gives
    [false] and an error; the writing of [n] gives [true] exactly when
    the instant of [currentTime], less the leeway, is before the instant
    [n] seconds after the epoch, which is the same as comparing the whole
    seconds of that difference with [n].  This is for an [n] that
    [time.Unix] can hold, below [2 ^ 63 - 62135596800], and a leeway that
    can be negated.  From that bound on the seconds of [time.Unix] wrap
    to the far past, and the result is [false] for every [currentTime]
    from year 1 on. *)
Theorem VerifyExpiration_rule (claims : Claims) (currentTime : Time)
  (leeway : Duration) :
  Time_wf currentTime ->
  (- 2 ^ 63 < leeway < 2 ^ 63)%Z ->
  (Expiration claims = [] ->
   VerifyExpiration claims currentTime leeway = (true, None))
  /\ (Expiration claims <> [] ->
      (forall n, signed_numeral (Expiration claims) n ->
                 ~ (- 2 ^ 63 <= n < 2 ^ 63)%Z) ->
      exists e, VerifyExpiration claims currentTime leeway = (false, Some e))
  /\ (forall n,
        signed_numeral (Expiration claims) n ->
        (- 2 ^ 63 <= n < 2 ^ 63 - 62135596800)%Z ->
        VerifyExpiration claims currentTime leeway
        = ((instant currentTime - leeway <? n * second)%Z, None)
        /\ (instant currentTime - leeway <? n * second)%Z
           = ((instant currentTime - leeway) / second <? n)%Z)
  /\ (forall n,
        signed_numeral (Expiration claims) n ->
        (2 ^ 63 - 62135596800 <= n < 2 ^ 63)%Z ->
        (- 62135596800 * second <= instant currentTime)%Z ->
        VerifyExpiration claims currentTime leeway = (false, None)).
Proof.
  intros Hwf Hl. unfold VerifyExpiration, bytes_eqb.
  split; [intro H; rewrite H; reflexivity |].
  split; [| split].
  - intros Hne Hnot.
    destruct (list_eq_dec Byte.byte_eq_dec (Expiration claims) []);
      [contradiction |].
    destruct (strconv_ParseInt (Expiration claims)) as [v | e] eqn:Hp.
    + apply strconv_ParseInt_numeral in Hp. destruct Hp as [Hnum Hr].
      now destruct (Hnot v Hnum).
    + now exists e.
  - intros n Hnum Hn.
    assert (Hp : strconv_ParseInt (Expiration claims) = Ok n).
    { apply strconv_ParseInt_numeral. split; [exact Hnum |].
      time_consts. lia. }
    destruct (list_eq_dec Byte.byte_eq_dec (Expiration claims) [])
      as [E | _].
    { rewrite E in Hp. discriminate Hp. }
    rewrite Hp. split; [| apply whole_seconds].
    unfold Duration_neg. rewrite wrap64_small by lia.
    rewrite time_Before_Add_Unix by (trivial; lia).
    do 2 f_equal.
  - intros n Hnum Hn Hyear.
    assert (Hp : strconv_ParseInt (Expiration claims) = Ok n).
    { apply strconv_ParseInt_numeral. split; [exact Hnum |].
      time_consts. lia. }
    destruct (list_eq_dec Byte.byte_eq_dec (Expiration claims) [])
      as [E | _].
    { rewrite E in Hp. discriminate Hp. }
    rewrite Hp. f_equal.
    unfold Duration_neg. rewrite wrap64_small by lia.
    destruct (time_Add_not_far_past currentTime (- leeway)%Z Hwf
                ltac:(lia) Hyear) as (Hw' & Hs').
    rewrite time_Unix_wrap by exact Hn.
    rewrite time_Before_Unix by exact Hw'.
    change (2 ^ 34)%Z with 17179869184%Z in Hs'.
    apply Z.ltb_ge. time_consts. lia.
Qed.

Lemma VerifyExpiration_rule_witness :
  Time_wf (time_Unix 1300819384 0)
  /\ (- 2 ^ 63 < 5 * second < 2 ^ 63)%Z
  /\ VerifyExpiration
       {| Issuer := str "joe"; Subject := []; Audience := [];
          Expiration := str "1300819380"; NotBefore := []; IssuedAt := [];
          JWTID := [] |}
       (time_Unix 1300819384 0) (5 * second)%Z
     = (true, None).
Proof.
  assert (Hw : Time_wf (time_Unix 1300819384 0))
    by (vm_compute; intuition discriminate).
  assert (Hl : (- 2 ^ 63 < 5 * second < 2 ^ 63)%Z)
    by (vm_compute; split; reflexivity).
  split; [exact Hw |]. split; [exact Hl |].
  destruct (VerifyExpiration_rule
    {| Issuer := str "joe"; Subject := []; Audience := [];
       Expiration := str "1300819380"; NotBefore := []; IssuedAt := [];
       JWTID := [] |}
    (time_Unix 1300819384 0) (5 * second)%Z Hw Hl) as (_ & _ & H & _).
  assert (Hnum : signed_numeral (str "1300819380") 1300819380).
  { exists [], [1; 3; 0; 0; 8; 1; 9; 3; 8; 0]. split; [reflexivity |].
    split; [discriminate |]. split; [repeat constructor |].
    left. split; [now left | reflexivity]. }
  destruct (H 1300819380%Z Hnum ltac:(vm_compute; intuition discriminate))
    as (E & _).
  rewrite E. reflexivity.
Defined.

(** C7, where the rule fails.  [time.Unix] counts the seconds from year
    1 in int64: for [exp] from [2 ^ 63 - 62135596800] on the count wraps
    to a negative number, and a token that expires at the largest int64
    second is refused at the epoch, long before that instant.  And the
    negation of the smallest [Duration] is that [Duration] itself: with
    it as leeway, a token that expired at the epoch is accepted at the
    epoch, although the epoch less the leeway is 292 years later. *)
Lemma VerifyExpiration_far_future_counterexample :
  (signed_numeral (str "9223372036854775807") 9223372036854775807
   /\ (instant (time_Unix 0 0) - 0 <? 9223372036854775807 * second)%Z
      = true
   /\ VerifyExpiration
        {| Issuer := []; Subject := []; Audience := [];
           Expiration := str "9223372036854775807"; NotBefore := [];
           IssuedAt := []; JWTID := [] |}
        (time_Unix 0 0) 0%Z
      = (false, None))
  /\ (signed_numeral (str "0") 0
      /\ (instant (time_Unix 0 0) - - 2 ^ 63 <? 0 * second)%Z = false
      /\ VerifyExpiration
           {| Issuer := []; Subject := []; Audience := [];
              Expiration := str "0"; NotBefore := [];
              IssuedAt := []; JWTID := [] |}
           (time_Unix 0 0) (- 2 ^ 63)%Z
         = (true, None)).
Proof.
  split; (split; [| split; vm_compute; reflexivity]).
  - exists [], [9; 2; 2; 3; 3; 7; 2; 0; 3; 6; 8; 5; 4; 7; 7; 5; 8; 0; 7].
    split; [reflexivity |]. split; [discriminate |].
    split; [repeat constructor |]. left. split; [now left | reflexivity].
  - exists [], [0]. split; [reflexivity |]. split; [discriminate |].
    split; [repeat constructor |]. left. split; [now left | reflexivity].
Qed.

Set Implicit Arguments.

(** C5.  [ValidateRegisteredClaims] with a nil [validationClaims] panics
    on its first line, whatever the claims: the fields [NotBefore] and
    [NotBeforeLeeway] are read through the nil pointer before the test for
    nil.  With a zero-valued [ValidationClaims] the reference instant is
    the zero [Time], not a clock: a claims set that expired one second
    after the epoch is then accepted. *)
Theorem ValidateRegisteredClaims_nil_panics :
  (forall claims,
     ValidateRegisteredClaims claims None = Panic NilDereference)
  /\ ValidateRegisteredClaims
       {| Issuer := []; Subject := []; Audience := [];
          Expiration := str "1"; NotBefore := []; IssuedAt := [];
          JWTID := [] |}
       (Some {| vc_JWTID := []; vc_Issuer := []; vc_Subject := [];
                vc_Audience := [];
                vc_Expiration := time_zero; vc_ExpirationLeeway := 0%Z;
                vc_NotBefore := time_zero; vc_NotBeforeLeeway := 0%Z |})
     = Val (true, None).
Proof. split; [intro claims |]; reflexivity. Qed.

(** ** Big integers and their bytes *)

Lemma u8_byte_of_N (n : N) : u8 (byte_of_N n) = (n mod 256)%N.
Proof.
  unfold byte_of_N, u8.
  destruct (Byte.of_N (n mod 256)) as [b |] eqn:E.
  - now apply Byte.to_of_N.
  - pose proof (Byte.to_of_N_option_map (n mod 256)) as H.
    rewrite E in H. cbn in H.
    assert (n mod 256 <= 255)%N by lia.
    destruct (N.leb_spec (n mod 256) 255); [discriminate | lia].
Qed.

Lemma le_bytes_value (fuel : nat) :
  forall n, (n < 256 ^ N.of_nat fuel)%N -> le_value (le_bytes fuel n) = n.
Proof.
  induction fuel as [| fuel IH]; intros n Hn.
  - cbn in Hn. cbn. lia.
  - cbn [le_bytes]. destruct (N.eqb_spec n 0) as [-> | Hnz]; [reflexivity |].
    cbn [le_value fold_right]. fold (le_value (le_bytes fuel (n / 256))).
    rewrite u8_byte_of_N, IH.
    + lia.
    + rewrite Nat2N.inj_succ, N.pow_succ_r' in Hn. lia.
Qed.

Lemma le_bytes_length (fuel : nat) :
  forall n k, (n < 256 ^ N.of_nat k)%N -> length (le_bytes fuel n) <= k.
Proof.
  induction fuel as [| fuel IH]; intros n k Hn; cbn [le_bytes length];
    [lia |].
  destruct (N.eqb_spec n 0) as [-> | Hnz]; cbn [length]; [lia |].
  destruct k as [| k]; [cbn in Hn; lia |].
  apply le_n_S, IH.
  rewrite Nat2N.inj_succ, N.pow_succ_r' in Hn. lia.
Qed.

Lemma size_fuel (n : N) : (n < 256 ^ N.of_nat (N.to_nat (N.size n)))%N.
Proof.
  rewrite N2Nat.id.
  apply N.lt_le_trans with (2 ^ N.size n)%N; [apply N.size_gt |].
  apply N.pow_le_mono_l. lia.
Qed.

Lemma big_SetBytes_rev (l : bytes) :
  big_SetBytes (rev l) = Z.of_N (le_value l).
Proof.
  unfold big_SetBytes, le_value. f_equal.
  rewrite <- fold_left_rev_right, rev_involutive.
  induction l as [| b l IH]; cbn [fold_right]; [reflexivity |].
  rewrite IH. lia.
Qed.

Lemma big_SetBytes_zeros (k : nat) (l : bytes) :
  big_SetBytes (repeat x00 k ++ l) = big_SetBytes l.
Proof.
  unfold big_SetBytes. f_equal. rewrite fold_left_app. f_equal.
  induction k as [| k IH]; cbn [repeat fold_left]; [reflexivity |].
  exact IH.
Qed.

Lemma big_SetBytes_Bytes (x : Z) : big_SetBytes (big_Bytes x) = Z.abs x.
Proof.
  unfold big_Bytes. rewrite big_SetBytes_rev, le_bytes_value.
  - lia.
  - apply size_fuel.
Qed.

Lemma big_Bytes_length (x : Z) (w : nat) :
  (Z.abs x < 2 ^ (8 * Z.of_nat w))%Z -> length (big_Bytes x) <= w.
Proof.
  intro H. unfold big_Bytes. rewrite length_rev.
  apply le_bytes_length.
  change 256%N with (2 ^ 8)%N. rewrite <- N.pow_mul_r.
  apply N2Z.inj_lt. rewrite N2Z.inj_pow, Z2N.id by lia.
  replace (Z.of_N (8 * N.of_nat w)) with (8 * Z.of_nat w)%Z by lia.
  exact H.
Qed.

Lemma fixed_width_length (w : nat) (x : Z) :
  length (big_Bytes x) <= w -> length (fixed_width w x) = w.
Proof.
  intro H. unfold fixed_width. rewrite length_app, repeat_length. lia.
Qed.

Lemma fixed_width_value (w : nat) (x : Z) :
  big_SetBytes (fixed_width w x) = Z.abs x.
Proof.
  unfold fixed_width. now rewrite big_SetBytes_zeros, big_SetBytes_Bytes.
Qed.

Lemma pad_left_fixed_width (w : nat) (x : Z) :
  length (big_Bytes x) <= w ->
  pad_left w (big_Bytes x) = Val (fixed_width w x).
Proof.
  intro H. unfold pad_left, fixed_width.
  destruct (Z.ltb_spec (Z.of_nat w - Z.of_nat (length (big_Bytes x))) 0);
    [lia |].
  do 3 f_equal. lia.
Qed.

Lemma pad_left_inv (w : nat) (src out : bytes) :
  pad_left w src = Val out ->
  length src <= w /\ out = repeat x00 (w - length src) ++ src.
Proof.
  unfold pad_left.
  destruct (Z.ltb_spec (Z.of_nat w - Z.of_nat (length src)) 0);
    [discriminate |].
  intro E. inversion E. split; [lia |]. do 2 f_equal. lia.
Qed.

(** ** The ECDSA engine *)

Lemma bytes_eqb_eq (a b : bytes) : bytes_eqb a b = true <-> a = b.
Proof.
  unfold bytes_eqb. destruct (list_eq_dec Byte.byte_eq_dec a b);
    split; congruence.
Qed.

Lemma bytes_eqb_refl (a : bytes) : bytes_eqb a a = true.
Proof. now apply bytes_eqb_eq. Qed.

Lemma bytes_eqb_neq (a b : bytes) : bytes_eqb a b = false <-> a <> b.
Proof.
  unfold bytes_eqb. destruct (list_eq_dec Byte.byte_eq_dec a b);
    split; congruence.
Qed.

(** The keys [InitECDSASigner] accepts. *)
Lemma InitECDSASigner_inv (alg : Algorithm) (key : ecdsa_PrivateKey)
  (sv : ECDSASigner) :
  InitECDSASigner alg (Some key) = Ok sv ->
  sv = {| ecs_algorithm := alg; ecs_prvKey := key |}
  /\ (alg = Alg.ES256 /\ ec_Curve (ec_PublicKey key) = P256
      \/ alg = Alg.ES384 /\ ec_Curve (ec_PublicKey key) = P384
      \/ alg = Alg.ES512 /\ ec_Curve (ec_PublicKey key) = P521).
Proof.
  unfold InitECDSASigner, validateKeyMatchesAlgorithm,
    getExpectedKeyParameters.
  destruct (bytes_eqb [] alg); [discriminate |].
  destruct (bytes_eqb alg Alg.ES256) eqn:E256;
    [| destruct (bytes_eqb alg Alg.ES384) eqn:E384;
       [| destruct (bytes_eqb alg Alg.ES512) eqn:E512; [| discriminate]]];
    destruct (ec_Curve (ec_PublicKey key)) eqn:Ec;
    cbn; try discriminate; intro H; inversion H;
    (split; [reflexivity |]).
  - left. now apply bytes_eqb_eq in E256.
  - right; left. now apply bytes_eqb_eq in E384.
  - right; right. now apply bytes_eqb_eq in E512.
Qed.

(** C8.  The signature of the ECDSA signer.  The signer accepts ES256 with
    a P-256 key, ES384 with P-384 and ES512 with P-521; the width [w] of a
    coordinate is then 32, 48 and 66, the number of bytes that hold the
    bits of the curve.  When the primitive returns [(r, s)] below
    [2 ^ BitSize], [Sign] returns [r] and [s] written big-endian on [w]
    bytes each, zeros in front, one after the other; and whenever [Sign]
    returns a signature it is of that form for the [(r, s)] of the
    primitive, [2 * w] bytes long (132 for ES512), its halves reading back
    as [r] and [s]. *)
Theorem ECDSA_Sign_fixed_width (P : Platform) (alg : Algorithm)
  (key : ecdsa_PrivateKey) (sv : ECDSASigner) (plaintext : bytes) :
  InitECDSASigner alg (Some key) = Ok sv ->
  let curve := ec_Curve (ec_PublicKey key) in
  let w := getSignatureLength curve in
  (alg = Alg.ES256 /\ curve = P256 /\ w = 32
   \/ alg = Alg.ES384 /\ curve = P384 /\ w = 48
   \/ alg = Alg.ES512 /\ curve = P521 /\ w = 66)
  /\ w = ceil8 (Curve_BitSize curve)
  /\ exists hash,
       GetHash P alg plaintext = Ok hash
       /\ (forall r s,
             ecdsa_Sign P key hash = Ok (r, s) ->
             (Z.abs r < 2 ^ Z.of_nat (Curve_BitSize curve))%Z ->
             (Z.abs s < 2 ^ Z.of_nat (Curve_BitSize curve))%Z ->
             ECDSA_Sign P sv plaintext
             = Val (Ok (fixed_width w r ++ fixed_width w s)))
       /\ (forall sig,
             ECDSA_Sign P sv plaintext = Val (Ok sig) ->
             exists r s,
               ecdsa_Sign P key hash = Ok (r, s)
               /\ sig = fixed_width w r ++ fixed_width w s
               /\ length (fixed_width w r) = w
               /\ length (fixed_width w s) = w
               /\ length sig = 2 * w
               /\ big_SetBytes (firstn w sig) = Z.abs r
               /\ big_SetBytes (skipn w sig) = Z.abs s).
Proof.
  intros Hinit curve w.
  apply InitECDSASigner_inv in Hinit. destruct Hinit as [-> Hcases].
  assert (Htable :
    alg = Alg.ES256 /\ curve = P256 /\ w = 32
    \/ alg = Alg.ES384 /\ curve = P384 /\ w = 48
    \/ alg = Alg.ES512 /\ curve = P521 /\ w = 66).
  { subst w curve.
    destruct Hcases as [[-> ->] | [[-> ->] | [-> ->]]]; cbn; tauto. }
  split; [exact Htable |].
  split.
  { destruct Htable as [(_ & -> & ->) | [(_ & -> & ->) | (_ & -> & ->)]];
      reflexivity. }
  assert (Hbits : (Z.of_nat (Curve_BitSize curve) <= 8 * Z.of_nat w)%Z).
  { destruct Htable as [(_ & -> & ->) | [(_ & -> & ->) | (_ & -> & ->)]];
      cbn; lia. }
  assert (Hhash : exists hash, GetHash P alg plaintext = Ok hash).
  { destruct Htable as [(-> & _) | [(-> & _) | (-> & _)]];
      eexists; reflexivity. }
  destruct Hhash as [hash Hhash]. exists hash. split; [exact Hhash |].
  unfold ECDSA_Sign, padAndJoin. cbn [ecs_algorithm ecs_prvKey].
  rewrite Hhash. fold curve. fold w.
  split.
  - intros r s Hprim Hr Hs. rewrite Hprim.
    assert (Hlr : length (big_Bytes r) <= w).
    { apply big_Bytes_length. eapply Z.lt_le_trans; [exact Hr |].
      apply Z.pow_le_mono_r; lia. }
    assert (Hls : length (big_Bytes s) <= w).
    { apply big_Bytes_length. eapply Z.lt_le_trans; [exact Hs |].
      apply Z.pow_le_mono_r; lia. }
    now rewrite !pad_left_fixed_width by assumption.
  - intros sig Hsig.
    destruct (ecdsa_Sign P key hash) as [[r s] |]; [| discriminate].
    exists r, s. split; [reflexivity |].
    destruct (pad_left w (big_Bytes r)) as [pr |] eqn:Er; [| discriminate].
    destruct (pad_left w (big_Bytes s)) as [ps |] eqn:Es; [| discriminate].
    cbn [run_bind] in Hsig. inversion Hsig; subst sig.
    apply pad_left_inv in Er, Es. destruct Er as [Hlr ->], Es as [Hls ->].
    fold (fixed_width w r). fold (fixed_width w s).
    pose proof (fixed_width_length r Hlr) as Lr.
    pose proof (fixed_width_length s Hls) as Ls.
    repeat split; trivial.
    + rewrite length_app. lia.
    + rewrite firstn_app, <- Lr at 1.
      rewrite firstn_all, Lr, Nat.sub_diag, firstn_O, app_nil_r.
      apply fixed_width_value.
    + rewrite skipn_app, Lr, Nat.sub_diag, skipn_O.
      rewrite <- Lr at 1. rewrite skipn_all. apply fixed_width_value.
Qed.

Lemma ECDSA_Sign_fixed_width_witness :
  InitECDSASigner Alg.ES512 (Some demo_ec_key)
  = Ok {| ecs_algorithm := Alg.ES512; ecs_prvKey := demo_ec_key |}
  /\ exists sig,
       ECDSA_Sign demo
         {| ecs_algorithm := Alg.ES512; ecs_prvKey := demo_ec_key |}
         (str "abc") = Val (Ok sig)
       /\ length sig = 132.
Proof.
  assert (Hi : InitECDSASigner Alg.ES512 (Some demo_ec_key)
               = Ok {| ecs_algorithm := Alg.ES512;
                       ecs_prvKey := demo_ec_key |}) by reflexivity.
  split; [exact Hi |].
  destruct (@ECDSA_Sign_fixed_width demo _ _ _ (str "abc") Hi)
    as (_ & _ & hash & _ & _ & Hall).
  assert (E : exists sig,
             ECDSA_Sign demo
               {| ecs_algorithm := Alg.ES512; ecs_prvKey := demo_ec_key |}
               (str "abc") = Val (Ok sig))
    by (eexists; vm_compute; reflexivity).
  destruct E as [sig E]. exists sig. split; [exact E |].
  destruct (Hall sig E) as (r & s & _ & _ & _ & _ & Hlen & _).
  exact Hlen.
Defined.

Lemma big_SetBytes_big_endian (b : byte) (rest : bytes) :
  big_SetBytes (b :: rest)
  = (Z.of_N (u8 b) * 256 ^ Z.of_nat (length rest) + big_SetBytes rest)%Z.
Proof.
  unfold big_SetBytes. cbn [fold_left].
  assert (G : forall l a,
             fold_left (fun acc b => (acc * 256 + u8 b)%N) l a
             = (a * 256 ^ N.of_nat (length l)
                + fold_left (fun acc b => (acc * 256 + u8 b)%N) l 0)%N).
  { induction l as [| x l IH]; intro a; cbn [fold_left length].
    - cbn. lia.
    - rewrite IH, (IH (0 * 256 + u8 x)%N).
      rewrite Nat2N.inj_succ, N.pow_succ_r'. lia. }
  rewrite G, N2Z.inj_add, N2Z.inj_mul, N2Z.inj_pow.
  do 3 f_equal; lia.
Qed.

Lemma InitECDSAVerifier_inv (alg : Algorithm) (key : ecdsa_PublicKey)
  (v : ECDSAVerifier) :
  InitECDSAVerifier alg (Some key) = Ok v ->
  v = {| ecv_algorithm := alg; ecv_pubKey := key |}
  /\ (alg = Alg.ES256 \/ alg = Alg.ES384 \/ alg = Alg.ES512).
Proof.
  unfold InitECDSAVerifier, alg_in. cbn [existsb].
  destruct (bytes_eqb [] alg); [discriminate |].
  destruct (bytes_eqb alg Alg.ES256) eqn:E256;
    [| destruct (bytes_eqb alg Alg.ES384) eqn:E384;
       [| destruct (bytes_eqb alg Alg.ES512) eqn:E512; [| discriminate]]];
    cbn; intro H; inversion H; (split; [reflexivity |]).
  - left. now apply bytes_eqb_eq in E256.
  - right; left. now apply bytes_eqb_eq in E384.
  - right; right. now apply bytes_eqb_eq in E512.
Qed.

Lemma big_SetBytes_value (l : bytes) : big_SetBytes l = big_endian l.
Proof.
  induction l as [| b rest IH]; [reflexivity |].
  rewrite big_SetBytes_big_endian, IH. reflexivity.
Qed.

(** C9.  The length check of the ECDSA verifier.  The width [w] of a
    coordinate is 32, 48 and 66 for a key on P-256, P-384 and P-521.  A
    signature whose length is not [2 * w] gives [false] and the length
    error, which names both lengths; the result is the same on every
    platform, so the verification primitive has no part in it.  A
    signature of length [2 * w] is cut in two halves of [w] bytes, each
    read as a big-endian unsigned integer, and the result is that of the
    primitive on the key, the digest of the plaintext under the hash of
    the algorithm, and these two numbers. *)
Theorem ECDSA_Verify_length_check (P : Platform) (alg : Algorithm)
  (key : ecdsa_PublicKey) (v : ECDSAVerifier) (plaintext signature : bytes) :
  InitECDSAVerifier alg (Some key) = Ok v ->
  let w := getSignatureLength (ec_Curve key) in
  (ec_Curve key = P256 -> w = 32)
  /\ (ec_Curve key = P384 -> w = 48)
  /\ (ec_Curve key = P521 -> w = 66)
  /\ (length signature <> w * 2 ->
      ECDSA_Verify P v plaintext signature
      = (false, Some (SignatureLengthError (w * 2) (length signature))))
  /\ (length signature = w * 2 ->
      firstn w signature ++ skipn w signature = signature
      /\ length (firstn w signature) = w
      /\ length (skipn w signature) = w
      /\ ECDSA_Verify P v plaintext signature
         = (ecdsa_Verify P key (hash_Sum P (ecdsa_hash alg) plaintext)
              (big_endian (firstn w signature))
              (big_endian (skipn w signature)),
            None)).
Proof.
  intros Hinit w.
  apply InitECDSAVerifier_inv in Hinit. destruct Hinit as [-> Halg].
  split; [intro E; subst w; rewrite E; reflexivity |].
  split; [intro E; subst w; rewrite E; reflexivity |].
  split; [intro E; subst w; rewrite E; reflexivity |].
  assert (Hhash : GetHash P alg plaintext
                  = Ok (hash_Sum P (ecdsa_hash alg) plaintext)).
  { destruct Halg as [-> | [-> | ->]]; reflexivity. }
  unfold ECDSA_Verify. cbn [ecv_algorithm ecv_pubKey]. rewrite Hhash.
  fold w. split.
  - intro Hlen. apply Nat.eqb_neq in Hlen. now rewrite Hlen.
  - intro Hlen.
    split; [apply firstn_skipn |].
    split; [rewrite length_firstn; lia |].
    split; [rewrite length_skipn; lia |].
    apply Nat.eqb_eq in Hlen. rewrite Hlen. cbn [negb].
    now rewrite !big_SetBytes_value.
Qed.

Lemma ECDSA_Verify_length_check_witness :
  InitECDSAVerifier Alg.ES256
    (Some {| ec_Curve := P256; ec_X := 7; ec_Y := 9 |})
  = Ok {| ecv_algorithm := Alg.ES256;
          ecv_pubKey := {| ec_Curve := P256; ec_X := 7; ec_Y := 9 |} |}
  /\ ECDSA_Verify demo
       {| ecv_algorithm := Alg.ES256;
          ecv_pubKey := {| ec_Curve := P256; ec_X := 7; ec_Y := 9 |} |}
       (str "abc") (repeat x01 63)
     = (false, Some (SignatureLengthError 64 63))
  /\ ECDSA_Verify demo
       {| ecv_algorithm := Alg.ES256;
          ecv_pubKey := {| ec_Curve := P256; ec_X := 7; ec_Y := 9 |} |}
       (str "abc")
       (fixed_width 32 (1 + big_endian (hash_Sum demo SHA256 (str "abc")))
        ++ fixed_width 32 7)
     = (true, None)
  /\ ECDSA_Verify demo
       {| ecv_algorithm := Alg.ES256;
          ecv_pubKey := {| ec_Curve := P256; ec_X := 7; ec_Y := 9 |} |}
       (str "abc")
       (fixed_width 32 7
        ++ fixed_width 32 (1 + big_endian (hash_Sum demo SHA256 (str "abc"))))
     = (false, None).
Proof.
  assert (Hi : InitECDSAVerifier Alg.ES256
                 (Some {| ec_Curve := P256; ec_X := 7; ec_Y := 9 |})
               = Ok {| ecv_algorithm := Alg.ES256;
                       ecv_pubKey :=
                         {| ec_Curve := P256; ec_X := 7; ec_Y := 9 |} |})
    by reflexivity.
  split; [exact Hi |]. split; [| split].
  - destruct (@ECDSA_Verify_length_check demo _ _ _ (str "abc")
                (repeat x01 63) Hi) as (_ & _ & _ & Hbad & _).
    apply Hbad. cbn. discriminate.
  - destruct (@ECDSA_Verify_length_check demo _ _ _ (str "abc")
                (fixed_width 32
                   (1 + big_endian (hash_Sum demo SHA256 (str "abc")))
                 ++ fixed_width 32 7) Hi) as (_ & _ & _ & _ & Hgood).
    destruct (Hgood ltac:(vm_compute; reflexivity)) as (_ & _ & _ & E).
    rewrite E. vm_compute. reflexivity.
  - destruct (@ECDSA_Verify_length_check demo _ _ _ (str "abc")
                (fixed_width 32 7
                 ++ fixed_width 32
                      (1 + big_endian (hash_Sum demo SHA256 (str "abc"))))
                Hi) as (_ & _ & _ & _ & Hgood).
    destruct (Hgood ltac:(vm_compute; reflexivity)) as (_ & _ & _ & E).
    rewrite E. vm_compute. reflexivity.
Defined.

(** ** The orchestrator: generating a token *)

Lemma public_key_facade (alg : Algorithm) (key : Key)
  (sv : JOSESignerVerifier) :
  is_public_key key = true ->
  NewJOSESignerVerifier alg key = Val (Ok sv) ->
  verifier sv <> None /\ signer sv = None /\ algorithm sv <> Alg.None.
Proof.
  intros Hpub Hnew.
  assert (Hnone : alg <> Alg.None).
  { intros ->. destruct key as [| k | | k | | k | |]; try discriminate;
      destruct k; cbn in Hnew; discriminate. }
  destruct key as [| k | | k | | k | |]; try discriminate;
    cbn [NewJOSESignerVerifier] in Hnew;
    unfold newFromRSAPublic, newFromECDSAPublic, newFromEd25519Public
      in Hnew.
  - destruct (InitRSAVerifier alg k); inversion Hnew; cbn.
    repeat split; [discriminate | assumption].
  - destruct (InitECDSAVerifier alg k); inversion Hnew; cbn.
    repeat split; [discriminate | assumption].
  - destruct (InitEdDSAVerifier alg k); inversion Hnew; cbn.
    repeat split; [discriminate | assumption].
Qed.

(** C6.  [GenerateToken] on a facade that can only verify.  A facade made
    from a public key has a verifier, no signer, and an algorithm other
    than None; for such a facade, and for a header and a body that the
    JSON encoder accepts, the guard of [GenerateToken] lets the call
    through, the configuration error is not returned, and the call of
    [sv.signer.Sign] panics on the nil signer. *)
Theorem GenerateToken_verify_only_panics (P : Platform) (alg : Algorithm)
  (key : Key) (sv : JOSESignerVerifier) (header body : GoValue P)
  (joseHeader jwsPayload : bytes) :
  is_public_key key = true ->
  NewJOSESignerVerifier alg key = Val (Ok sv) ->
  json_Marshal P header = Ok joseHeader ->
  json_Marshal P body = Ok jwsPayload ->
  verifier sv <> None
  /\ signer sv = None
  /\ algorithm sv <> Alg.None
  /\ GenerateToken P sv header body = Panic NilDereference
  /\ GenerateToken P sv header body <> Val (Err not_configured_error).
Proof.
  intros Hpub Hnew Hh Hb.
  destruct (@public_key_facade alg key sv Hpub Hnew) as (Hv & Hs & Ha).
  repeat split; trivial.
  - unfold GenerateToken.
    destruct (verifier sv); [| contradiction].
    rewrite Hh, Hb. apply bytes_eqb_neq in Ha. rewrite Ha, Hs.
    reflexivity.
  - unfold GenerateToken.
    destruct (verifier sv); [| contradiction].
    rewrite Hh, Hb. apply bytes_eqb_neq in Ha. rewrite Ha, Hs.
    discriminate.
Qed.

Lemma GenerateToken_verify_only_panics_witness :
  is_public_key (RSAPublicKey (Some demo_rsa_key)) = true
  /\ GenerateToken demo
       {| algorithm := Alg.RS256; signer := None;
          verifier := Some (VerifierRSA
                              {| rsav_algorithm := Alg.RS256;
                                 rsav_hash := SHA256;
                                 rsav_pubKey := demo_rsa_key |}) |}
       (GoHeader demo_header) (GoClaims demo_claims)
     = Panic NilDereference.
Proof.
  split; [reflexivity |].
  destruct (@GenerateToken_verify_only_panics demo Alg.RS256
              (RSAPublicKey (Some demo_rsa_key)) _
              (GoHeader demo_header) (GoClaims demo_claims) _ _
              eq_refl eq_refl eq_refl eq_refl) as (_ & _ & _ & H & _).
  exact H.
Defined.

(** ** The orchestrator: verifying a token *)

Lemma VerifySignature_claims_decoder (P : Platform)
  (decode : bytes -> result Claims) (sv : JOSESignerVerifier)
  (rawToken : bytes) :
  VerifySignature (with_claims_decoder P decode) sv rawToken
  = VerifySignature P sv rawToken.
Proof. reflexivity. Qed.

(** C2, as the code has it.  When the signature check of a raw token
    returns [false] or an error, [VerifyToken] returns no token (nil),
    [false], and the error of the signature check or nil.  The result is
    the same whatever the decoder of the claims and whatever the
    validation criteria, nil included: the claims are neither parsed nor
    validated, and the only error that can come back is the one of the
    signature check. *)
Theorem VerifyToken_signature_failure (P : Platform)
  (decode : bytes -> result Claims) (sv : JOSESignerVerifier)
  (rawToken : bytes) (validationCriteria : option ValidationClaims)
  (token : option Token) (signatureValid : bool) (err : option error) :
  VerifySignature P sv rawToken = Val (token, signatureValid, err) ->
  signatureValid = false \/ err <> None ->
  VerifyToken (with_claims_decoder P decode) sv rawToken validationCriteria
  = Val (None, false, err).
Proof.
  intros Hsig Hfail. unfold VerifyToken.
  rewrite VerifySignature_claims_decoder, Hsig. cbn [run_bind].
  destruct Hfail as [-> | Herr].
  - now rewrite orb_true_r.
  - destruct err; [reflexivity | contradiction].
Qed.

Lemma VerifyToken_signature_failure_witness :
  (exists token,
     VerifySignature demo demo_hmac_facade
       (str "eyJhbGciOiJIUzI1NiIsInR5cCI6IkpXVCJ9.eyJpc3MiOiJqb2UiLCJleHAiOiIxMzAwODE5MzgwIn0.AAAA")
     = Val (Some token, false, None))
  /\ VerifyToken (with_claims_decoder demo demo_decode_Claims)
       demo_hmac_facade
       (str "eyJhbGciOiJIUzI1NiIsInR5cCI6IkpXVCJ9.eyJpc3MiOiJqb2UiLCJleHAiOiIxMzAwODE5MzgwIn0.AAAA")
       None
     = Val (None, false, None).
Proof.
  assert (E : exists token,
     VerifySignature demo demo_hmac_facade
       (str "eyJhbGciOiJIUzI1NiIsInR5cCI6IkpXVCJ9.eyJpc3MiOiJqb2UiLCJleHAiOiIxMzAwODE5MzgwIn0.AAAA")
     = Val (Some token, false, None))
    by (eexists; vm_compute; reflexivity).
  split; [exact E |].
  destruct E as [token E].
  exact (@VerifyToken_signature_failure demo demo_decode_Claims
           demo_hmac_facade _ None _ _ _ E (or_introl eq_refl)).
Defined.

(** C2, as the claim has it, fails: on a token whose signature does not
    match, [VerifySignature] returns the token populated so far, and
    [VerifyToken] returns nil in its place. *)
Lemma VerifyToken_drops_token_counterexample :
  NewJOSESignerVerifier Alg.HS256 (HMACKey demo_hmac_key)
  = Val (Ok demo_hmac_facade)
  /\ exists token_so_far,
       VerifySignature demo demo_hmac_facade
         (str "eyJhbGciOiJIUzI1NiIsInR5cCI6IkpXVCJ9.eyJpc3MiOiJqb2UiLCJleHAiOiIxMzAwODE5MzgwIn0.AAAA")
       = Val (Some token_so_far, false, None)
       /\ VerifyToken demo demo_hmac_facade
            (str "eyJhbGciOiJIUzI1NiIsInR5cCI6IkpXVCJ9.eyJpc3MiOiJqb2UiLCJleHAiOiIxMzAwODE5MzgwIn0.AAAA")
            None
          = Val (None, false, None)
       /\ VerifyToken demo demo_hmac_facade
            (str "eyJhbGciOiJIUzI1NiIsInR5cCI6IkpXVCJ9.eyJpc3MiOiJqb2UiLCJleHAiOiIxMzAwODE5MzgwIn0.AAAA")
            None
          <> Val (Some token_so_far, false, None).
Proof.
  split; [reflexivity |].
  eexists. split; [vm_compute; reflexivity |].
  split; [vm_compute; reflexivity |].
  vm_compute. discriminate.
Qed.

(** ** Generating a token and verifying it again *)

Lemma GetRawTokenParts_three (joseHeader jwsPayload jwSignature : bytes) :
  GetRawTokenParts
    (appendWithDot (appendWithDot (Base64URLEncode joseHeader)
                                  (Base64URLEncode jwsPayload))
                   (Base64URLEncode jwSignature))
  = Val (Ok (parsed_token joseHeader jwsPayload jwSignature)).
Proof.
  unfold GetRawTokenParts, appendWithDot.
  rewrite <- app_assoc. cbn [app].
  rewrite strings_Split_app_sep by apply Base64URLEncode_no_dot.
  rewrite strings_Split_app_sep by apply Base64URLEncode_no_dot.
  rewrite strings_Split_no_sep by apply Base64URLEncode_no_dot.
  cbn [length Nat.ltb Nat.leb andb index nth_error run_bind Nat.eqb].
  rewrite !Base64URLDecode_Encode.
  unfold parsed_token, set_signature, appendWithDot. cbn.
  rewrite <- app_assoc. reflexivity.
Qed.

(** The first character of an encoding depends on the first byte only. *)
Lemma Base64URLEncode_head (c : byte) (rest : bytes) :
  exists tl,
    Base64URLEncode (c :: rest) = url (encode_at (u8 c / 4)) :: tl.
Proof.
  pose proof (u8_bound c) as Hc.
  rewrite Base64URLEncode_url.
  destruct rest as [| b1 [| b2 rest]]; cbn [base64_EncodeToString];
    cbv zeta;
    rewrite strings_Split_hd_cons
      by (apply alphabet_facts, in_alphabet_sextet);
    cbn [map]; eexists; f_equal; f_equal; f_equal;
    rewrite land_63, N.shiftr_div_pow2.
  - rewrite N.shiftl_mul_pow2. pow2. lia.
  - pose proof (u8_bound b1). rewrite group2_add by assumption.
    pow2. lia.
  - pose proof (u8_bound b1). pose proof (u8_bound b2).
    rewrite group3_add by assumption. pow2. lia.
Qed.

(** A JSON text put through base64url no longer starts like one. *)
Lemma encoded_value_start (c : byte) :
  json_begins_value c = true ->
  json_is_space (url (encode_at (u8 c / 4))) = false
  /\ json_begins_value (url (encode_at (u8 c / 4))) = false.
Proof. destruct c; vm_compute; intro H; (discriminate || split; reflexivity). Qed.

Lemma json_Unmarshal_encoded (T : Type) (decode : bytes -> result T)
  (c : byte) (rest : bytes) :
  json_begins_value c = true ->
  json_Unmarshal decode (Base64URLEncode (c :: rest))
  = Err begin_value_error.
Proof.
  intro Hc. destruct (Base64URLEncode_head c rest) as [tl ->].
  destruct (encoded_value_start c Hc) as [Hs Hv].
  unfold json_Unmarshal. cbn [json_scan_start]. now rewrite Hs, Hv.
Qed.

Lemma HMAC_facade (P : Platform) (alg : Algorithm) (key : bytes) :
  alg_in alg [Alg.HS256; Alg.HS384; Alg.HS512] = true ->
  key <> [] ->
  let e := {| hmac_algorithm := alg; hmac_key := key |} in
  NewJOSESignerVerifier alg (HMACKey key)
  = Val (Ok {| algorithm := alg; signer := Some (SignerHMAC e);
               verifier := Some (VerifierHMAC e) |})
  /\ bytes_eqb alg Alg.None = false
  /\ exists h, HMAC_initHash P e = Ok (hmac_Sum P h key).
Proof.
  intros Halg Hkey e. subst e.
  unfold NewJOSESignerVerifier, newFromHMACBytes, InitHMACSignerVerifier,
    HMAC_initHash.
  cbn [hmac_algorithm hmac_key].
  destruct key as [| k key]; [contradiction |]. cbn [length Nat.eqb].
  rewrite Halg. cbn [negb].
  unfold alg_in in Halg. cbn [existsb] in Halg.
  destruct (bytes_eqb alg Alg.HS256) eqn:E1.
  { apply bytes_eqb_eq in E1. subst alg.
    repeat split; try reflexivity. now exists SHA256. }
  destruct (bytes_eqb alg Alg.HS384) eqn:E2.
  { apply bytes_eqb_eq in E2. subst alg.
    repeat split; try reflexivity. now exists SHA384. }
  destruct (bytes_eqb alg Alg.HS512) eqn:E3; [| discriminate].
  apply bytes_eqb_eq in E3. subst alg.
  repeat split; try reflexivity. now exists SHA512.
Qed.

(** Whatever the engine: once the signature is accepted, a body segment
    that encodes a JSON text stops [VerifyToken] at [GetClaims]. *)
Lemma VerifyToken_encoded_body (P : Platform) (sv : JOSESignerVerifier)
  (rawToken : bytes) (validationCriteria : option ValidationClaims)
  (token : Token) (c : byte) (rest : bytes) :
  VerifySignature P sv rawToken = Val (Some token, true, None) ->
  RawBody token = Base64URLEncode (c :: rest) ->
  json_begins_value c = true ->
  VerifyToken P sv rawToken validationCriteria
  = Val (Some token, false, Some begin_value_error).
Proof.
  intros Hver Hbody Hc. unfold VerifyToken.
  rewrite Hver. cbn [run_bind is_some orb negb deref].
  unfold GetClaims. rewrite Hbody, json_Unmarshal_encoded by exact Hc.
  reflexivity.
Qed.

(** C1.  Generating a token with an HMAC key and verifying it with the
    same facade.  For a header and a body that the JSON encoder accepts,
    a body whose JSON text begins as every JSON text does, and a header
    that the JSON decoder reads back: [GenerateToken] returns a token,
    [VerifySignature] accepts it ([true], no error), with the body it
    carries decoded in [DecodedBody]; and [VerifyToken] returns [false]
    with the syntax error of the JSON scanner, and no claims, because
    [GetClaims] decodes [RawBody], the segment still in base64url. *)
Theorem GenerateToken_VerifyToken_HMAC (P : Platform) (alg : Algorithm)
  (key : bytes) (header body : GoValue P) (joseHeader jwsPayload : bytes)
  (hdr : Header) (validationCriteria : option ValidationClaims)
  (c : byte) (rest : bytes) :
  alg_in alg [Alg.HS256; Alg.HS384; Alg.HS512] = true ->
  key <> [] ->
  (forall h k m, hmac_Sum P h k m <> []) ->
  json_Marshal P header = Ok joseHeader ->
  json_Marshal P body = Ok jwsPayload ->
  jwsPayload = c :: rest ->
  json_begins_value c = true ->
  json_Unmarshal (json_decode_Header P) joseHeader = Ok hdr ->
  exists sv rawToken token,
    NewJOSESignerVerifier alg (HMACKey key) = Val (Ok sv)
    /\ GenerateToken P sv header body = Val (Ok rawToken)
    /\ VerifySignature P sv rawToken = Val (Some token, true, None)
    /\ RegisteredHeader token = hdr
    /\ DecodedBody token = jwsPayload
    /\ RawBody token = Base64URLEncode jwsPayload
    /\ RegisteredClaims token = zero_Claims
    /\ VerifyToken P sv rawToken validationCriteria
       = Val (Some token, false, Some begin_value_error).
Proof.
  intros Halg Hkey Hmac Hh Hb Hjb Hc Hhdr.
  destruct (HMAC_facade P alg Halg Hkey) as (Hnew & Hnone & h & Hinit).
  set (e := {| hmac_algorithm := alg; hmac_key := key |}) in *.
  set (hc := appendWithDot (Base64URLEncode joseHeader)
                           (Base64URLEncode jwsPayload)).
  set (sig := hmac_Sum P h key hc).
  assert (Hhc : Nat.eqb (length hc) 0 = false).
  { subst hc. unfold appendWithDot. rewrite length_app. cbn [length].
    apply Nat.eqb_neq. lia. }
  assert (Hsiglen : Nat.eqb (length sig) 0 = false).
  { apply Nat.eqb_neq. intro H0. apply (Hmac h key hc).
    now apply length_zero_iff_nil. }
  assert (Hsign : HMAC_Sign P e hc = Ok sig).
  { unfold HMAC_Sign. now rewrite Hhc, Hinit. }
  assert (Hgen :
    GenerateToken P
      {| algorithm := alg; signer := Some (SignerHMAC e);
         verifier := Some (VerifierHMAC e) |} header body
    = Val (Ok (appendWithDot hc (Base64URLEncode sig)))).
  { unfold GenerateToken. cbn [verifier algorithm signer].
    rewrite Hh, Hb, Hnone. fold hc. cbn [deref run_bind Sign].
    now rewrite Hsign. }
  assert (Hver :
    VerifySignature P
      {| algorithm := alg; signer := Some (SignerHMAC e);
         verifier := Some (VerifierHMAC e) |}
      (appendWithDot hc (Base64URLEncode sig))
    = Val (Some (set_signatureValid
                   (set_RegisteredHeader
                      (parsed_token joseHeader jwsPayload sig) hdr) true),
           true, None)).
  { unfold VerifySignature. subst hc. rewrite GetRawTokenParts_three.
    cbn [run_bind]. unfold GetHeader.
    cbn [parsed_token DecodedHeader]. rewrite Hhdr.
    cbn [verifier deref run_bind Verify set_RegisteredHeader RawHeader
         RawBody DecodedSignature].
    unfold HMAC_Verify.
    change (RawHeader (parsed_token joseHeader jwsPayload sig))
      with (Base64URLEncode joseHeader).
    change (RawBody (parsed_token joseHeader jwsPayload sig))
      with (Base64URLEncode jwsPayload).
    change (DecodedSignature (parsed_token joseHeader jwsPayload sig))
      with sig.
    rewrite Hhc, Hsiglen, Hsign.
    unfold subtle_ConstantTimeCompare. rewrite bytes_eqb_refl.
    reflexivity. }
  eexists _, _, _.
  split; [exact Hnew |]. split; [exact Hgen |]. split; [exact Hver |].
  repeat split.
  apply (@VerifyToken_encoded_body _ _ _ validationCriteria _ c rest Hver).
  - now rewrite Hjb.
  - exact Hc.
Qed.

Lemma GenerateToken_VerifyToken_HMAC_witness :
  (forall h k m, hmac_Sum demo h k m <> [])
  /\ json_begins_value "{"%byte = true
  /\ GenerateToken demo demo_hmac_facade
       (GoHeader demo_header) (GoClaims demo_claims)
     = Val (Ok (str "eyJhbGciOiJIUzI1NiIsInR5cCI6IkpXVCJ9.eyJpc3MiOiJqb2UiLCJleHAiOiIxMzAwODE5MzgwIn0.ATXC"))
  /\ exists token,
       VerifyToken demo demo_hmac_facade
         (str "eyJhbGciOiJIUzI1NiIsInR5cCI6IkpXVCJ9.eyJpc3MiOiJqb2UiLCJleHAiOiIxMzAwODE5MzgwIn0.ATXC")
         None
       = Val (Some token, false, Some begin_value_error).
Proof.
  assert (Hmac : forall h k m, hmac_Sum demo h k m <> [])
    by (intros h k m; discriminate).
  split; [exact Hmac |]. split; [reflexivity |].
  destruct (@GenerateToken_VerifyToken_HMAC demo Alg.HS256 demo_hmac_key
              (GoHeader demo_header) (GoClaims demo_claims) _ _
              demo_header None "{"%byte _
              eq_refl ltac:(discriminate) Hmac eq_refl eq_refl eq_refl
              eq_refl eq_refl)
    as (sv & raw & token & Hnew & Hgen & _ & _ & _ & _ & _ & Hvt).
  assert (Hsv : sv = demo_hmac_facade) by (inversion Hnew; reflexivity).
  subst sv.
  assert (Hraw : raw = str "eyJhbGciOiJIUzI1NiIsInR5cCI6IkpXVCJ9.eyJpc3MiOiJqb2UiLCJleHAiOiIxMzAwODE5MzgwIn0.ATXC")
    by (vm_compute in Hgen; inversion Hgen; reflexivity).
  subst raw.
  split; [exact Hgen |]. exists token. exact Hvt.
Defined.

(** * Further properties *)

Unset Implicit Arguments.

(** ** The base64url codec *)

(** X1.  The encoding of [n] bytes has [ceil (4 n / 3)] characters. *)
Theorem Base64URLEncode_length (b : bytes) :
  length (Base64URLEncode b) = ((4 * length b + 2) / 3)%nat.
Proof.
  rewrite Base64URLEncode_url, length_map.
  induction b as [| b0 | b0 b1 | b0 b1 b2 rest IH] using list_ind3;
    cbn [base64_EncodeToString]; cbv zeta.
  - reflexivity.
  - rewrite !strings_Split_hd_cons, strings_Split_hd_sep
      by (apply alphabet_facts, in_alphabet_sextet).
    reflexivity.
  - rewrite !strings_Split_hd_cons, strings_Split_hd_sep
      by (apply alphabet_facts, in_alphabet_sextet).
    reflexivity.
  - rewrite !strings_Split_hd_cons
      by (apply alphabet_facts, in_alphabet_sextet).
    cbn [length]. rewrite IH.
    replace (4 * S (S (S (length rest))) + 2)%nat
      with ((4 * length rest + 2) + 4 * 3)%nat by lia.
    rewrite Nat.div_add by discriminate. lia.
Qed.

(** X2.  Two byte arrays with the same encoding are the same. *)
Theorem Base64URLEncode_injective (a b : bytes) :
  Base64URLEncode a = Base64URLEncode b -> a = b.
Proof.
  intro H.
  pose proof (Base64URLDecode_Encode a) as Ha.
  rewrite H, Base64URLDecode_Encode in Ha. congruence.
Qed.

Lemma Base64URLEncode_injective_witness :
  Base64URLEncode (str "ab") = Base64URLEncode (str "ab")
  /\ str "ab" = str "ab".
Proof.
  split; [reflexivity |].
  exact (@Base64URLEncode_injective (str "ab") (str "ab") eq_refl).
Defined.

Lemma std_idempotent (c : byte) : std (std c) = std c.
Proof. destruct c; reflexivity. Qed.

(** X3.  The decoder reads the standard alphabet as well: ['+'] and ['/']
    in the input stand for ['-'] and ['_']. *)
Theorem Base64URLDecode_accepts_std (arg : bytes) :
  Base64URLDecode (map std arg) = Base64URLDecode arg.
Proof.
  unfold Base64URLDecode. rewrite !strings_Replace_std, map_map.
  now rewrite (map_ext _ _ std_idempotent).
Qed.

Lemma skip_newlines_In (c : byte) (src : bytes) :
  is_newline c = false -> In c src -> In c (fst (skip_newlines src)).
Proof.
  intros Hc. induction src as [| x rest IH]; intro Hin; [contradiction |].
  cbn [skip_newlines]. destruct (is_newline x) eqn:Hx.
  - destruct Hin as [-> | Hin]; [congruence |].
    specialize (IH Hin). destruct (skip_newlines rest). exact IH.
  - exact Hin.
Qed.

Lemma decode_padding_illegal (c : byte) (rest : bytes) (si : nat)
  (dbuf : list N) :
  is_newline c = false -> c <> padChar -> In c rest ->
  exists e, decode_padding rest si dbuf = Err e.
Proof.
  intros Hnl Hpad Hin. unfold decode_padding.
  destruct (length dbuf) as [| [| j]]; try (eexists; reflexivity).
  destruct (Nat.eqb (S (S j)) 2).
  - pose proof (@skip_newlines_In c rest Hnl Hin) as H1.
    destruct (skip_newlines rest) as [r n]. cbn [fst] in H1.
    destruct r as [| x r']; [contradiction |].
    destruct (Byte.eqb x padChar) eqn:Hx; [| eexists; reflexivity].
    apply Byte.byte_dec_bl in Hx. subst x.
    destruct H1 as [H1 | H1]; [congruence |].
    pose proof (@skip_newlines_In c r' Hnl H1) as H2.
    destruct (skip_newlines r') as [r'' n']. cbn [fst] in H2.
    destruct r''; [contradiction | eexists; reflexivity].
  - pose proof (@skip_newlines_In c rest Hnl Hin) as H1.
    destruct (skip_newlines rest) as [r n]. cbn [fst] in H1.
    destruct r; [contradiction | eexists; reflexivity].
Qed.

Lemma base64_decode_illegal (c : byte) (src : bytes) :
  decodeMap c = None -> is_newline c = false -> c <> padChar ->
  In c src ->
  forall si dbuf, exists e, base64_decode src si dbuf = Err e.
Proof.
  intros Hmap Hnl Hpad.
  induction src as [| x rest IH]; intros Hin si dbuf; [contradiction |].
  cbn [base64_decode].
  destruct (decodeMap x) as [v |] eqn:Hx.
  - assert (Hrest : In c rest) by (destruct Hin as [-> | H]; congruence).
    destruct (Nat.eqb (length dbuf) 3).
    + destruct (IH Hrest (S si) []) as [e ->]. now exists e.
    + apply IH, Hrest.
  - destruct (is_newline x) eqn:Hxn.
    + apply IH. destruct Hin as [-> | H]; congruence.
    + destruct (Byte.eqb x padChar) eqn:Hxp; [| eexists; reflexivity].
      apply Byte.byte_dec_bl in Hxp. subst x.
      apply (@decode_padding_illegal c); trivial.
      destruct Hin as [H | H]; congruence.
Qed.

(** X4.  A character that is in neither alphabet and is not ['='], a
    carriage return or a line feed makes the decoder fail, wherever it
    stands in the input. *)
Theorem Base64URLDecode_illegal_character (arg : bytes) (c : byte) :
  In c arg ->
  decodeMap (std c) = None -> is_newline c = false -> c <> padChar ->
  exists e, Base64URLDecode arg = Err e.
Proof.
  intros Hin Hmap Hnl Hpad.
  assert (Hstd : std c = c) by (destruct c; try reflexivity; discriminate).
  rewrite Hstd in Hmap.
  unfold Base64URLDecode. rewrite strings_Replace_std.
  assert (Hin' : In c (map std arg)).
  { rewrite <- Hstd. now apply in_map. }
  unfold base64_DecodeString.
  destruct (length (map std arg) mod 4)%nat as [| [| [| [| k]]]];
    try (eexists; reflexivity);
    apply (@base64_decode_illegal c); trivial; apply in_or_app; now left.
Qed.

Lemma Base64URLDecode_illegal_character_witness :
  In "*"%byte (str "VG*hl")
  /\ exists e, Base64URLDecode (str "VG*hl") = Err e.
Proof.
  split; [right; right; now left |].
  apply (@Base64URLDecode_illegal_character (str "VG*hl") "*"%byte).
  - right; right; now left.
  - reflexivity.
  - reflexivity.
  - discriminate.
Defined.

(** X5.  The test helper that reads a big integer from base64url gives
    back the magnitude of an integer written with [Bytes] and
    [Base64URLEncode]. *)
Theorem getBigIntFromBase64URLString_Bytes (x : Z) :
  getBigIntFromBase64URLString (Base64URLEncode (big_Bytes x)) = Z.abs x.
Proof.
  unfold getBigIntFromBase64URLString, mustBase64URLDecode.
  rewrite Base64URLDecode_Encode. apply big_SetBytes_Bytes.
Qed.

(** ** The engines *)

Lemma alg_in_In (alg : Algorithm) (l : list Algorithm) :
  alg_in alg l = true <-> In alg l.
Proof.
  unfold alg_in. rewrite existsb_exists. split.
  - intros (x & Hx & E). apply bytes_eqb_eq in E. now subst.
  - intro H. exists alg. split; [exact H | apply bytes_eqb_refl].
Qed.

Lemma alg_in_not_In (alg : Algorithm) (l : list Algorithm) :
  alg_in alg l = false <-> ~ In alg l.
Proof.
  rewrite <- alg_in_In. destruct (alg_in alg l); split; congruence.
Qed.

Lemma empty_alg_eqb (alg : Algorithm) (l : list Algorithm) :
  In alg l -> ~ In [] l -> bytes_eqb [] alg = false.
Proof.
  intros H H0. apply bytes_eqb_neq. intro E. apply H0. now rewrite E.
Qed.

(** X6.  [InitHMACSignerVerifier] succeeds exactly for a key that is not
    empty and one of HS256, HS384 and HS512, and the engine then holds
    that algorithm and that key. *)
Theorem InitHMACSignerVerifier_spec (alg : Algorithm) (key : bytes)
  (sv : HMACSignerVerifier) :
  InitHMACSignerVerifier alg key = Ok sv
  <-> key <> [] /\ In alg hmac_algs
      /\ sv = {| hmac_algorithm := alg; hmac_key := key |}.
Proof.
  unfold InitHMACSignerVerifier. fold hmac_algs. split.
  - destruct key as [| k key]; [discriminate |]. cbn [length Nat.eqb].
    destruct (bytes_eqb [] alg); [discriminate |].
    destruct (alg_in alg hmac_algs) eqn:E; [| discriminate].
    cbn [negb]. intro H. inversion H. apply alg_in_In in E.
    repeat split; [discriminate | exact E].
  - intros (Hk & Ha & ->). destruct key as [| k key]; [contradiction |].
    cbn [length Nat.eqb].
    rewrite (empty_alg_eqb _ _ Ha)
      by (cbn; intros [H | [H | [H | []]]]; discriminate).
    apply alg_in_In in Ha. now rewrite Ha.
Qed.

Lemma HMAC_initHash_initialized (P : Platform) (alg : Algorithm)
  (key : bytes) :
  In alg hmac_algs ->
  HMAC_initHash P {| hmac_algorithm := alg; hmac_key := key |}
  = Ok (hmac_Sum P (hmac_hash alg) key).
Proof.
  intros [<- | [<- | [<- | []]]]; reflexivity.
Qed.

Lemma length_eqb_0 (A : Type) (l : list A) :
  Nat.eqb (length l) 0 = true <-> l = [].
Proof.
  rewrite Nat.eqb_eq. apply length_zero_iff_nil.
Qed.

Lemma length_eqb_0_false (A : Type) (l : list A) :
  Nat.eqb (length l) 0 = false <-> l <> [].
Proof.
  rewrite <- length_eqb_0. destruct (Nat.eqb (length l) 0);
    split; congruence.
Qed.

Lemma HMAC_Sign_initialized (P : Platform) (alg : Algorithm)
  (key plaintext : bytes) :
  In alg hmac_algs -> plaintext <> [] ->
  HMAC_Sign P {| hmac_algorithm := alg; hmac_key := key |} plaintext
  = Ok (hmac_Sum P (hmac_hash alg) key plaintext).
Proof.
  intros Ha Hp. unfold HMAC_Sign.
  apply length_eqb_0_false in Hp. rewrite Hp.
  now rewrite HMAC_initHash_initialized.
Qed.

Lemma HMAC_Verify_Sign (P : Platform) (alg : Algorithm)
  (key plaintext sig : bytes) :
  In alg hmac_algs -> plaintext <> [] -> sig <> [] ->
  HMAC_Sign P {| hmac_algorithm := alg; hmac_key := key |} plaintext
  = Ok sig ->
  HMAC_Verify P {| hmac_algorithm := alg; hmac_key := key |} plaintext sig
  = (true, None).
Proof.
  intros Ha Hp Hs Hsign. unfold HMAC_Verify.
  apply length_eqb_0_false in Hp, Hs. rewrite Hp, Hs, Hsign.
  unfold subtle_ConstantTimeCompare. now rewrite bytes_eqb_refl.
Qed.

(** X7.  An HMAC engine built by [InitHMACSignerVerifier].  [Sign] fails
    on an empty payload only and otherwise returns the MAC of the payload
    under the key, with the hash of the algorithm.  [Verify] reports an
    error exactly when the plaintext or the signature is empty, and
    returns [true] exactly when neither is empty and the signature is
    that MAC; a signature that does not match gives [false] and no
    error. *)
Theorem HMAC_engine_spec (P : Platform) (alg : Algorithm) (key : bytes)
  (sv : HMACSignerVerifier) (plaintext signature : bytes) :
  InitHMACSignerVerifier alg key = Ok sv ->
  let mac := hmac_Sum P (hmac_hash alg) key plaintext in
  (plaintext = [] ->
   HMAC_Sign P sv plaintext = Err (errorString "Payload cannot be empty"))
  /\ (plaintext <> [] -> HMAC_Sign P sv plaintext = Ok mac)
  /\ (HMAC_Verify P sv plaintext signature = (true, None)
      <-> plaintext <> [] /\ signature <> [] /\ signature = mac)
  /\ (snd (HMAC_Verify P sv plaintext signature) <> None
      <-> plaintext = [] \/ signature = [])
  /\ (plaintext <> [] -> signature <> [] -> signature <> mac ->
      HMAC_Verify P sv plaintext signature = (false, None)).
Proof.
  intros Hinit mac. apply InitHMACSignerVerifier_spec in Hinit.
  destruct Hinit as (_ & Ha & ->).
  split; [intros ->; reflexivity |].
  split; [intro Hp; now apply HMAC_Sign_initialized |].
  unfold HMAC_Verify.
  destruct plaintext as [| p0 pt].
  { cbn. repeat split; try tauto; try discriminate; intuition congruence. }
  cbn [length Nat.eqb].
  destruct signature as [| s0 sg].
  { cbn. repeat split; try tauto; try discriminate; intuition congruence. }
  cbn [length Nat.eqb].
  rewrite HMAC_Sign_initialized by (trivial; discriminate).
  fold mac. unfold subtle_ConstantTimeCompare.
  destruct (bytes_eqb (s0 :: sg) mac) eqn:E.
  - apply bytes_eqb_eq in E. cbn.
    repeat split; try discriminate; try tauto; intuition congruence.
  - apply bytes_eqb_neq in E. cbn.
    repeat split; try discriminate; try tauto; intuition congruence.
Qed.

Lemma HMAC_engine_spec_witness :
  InitHMACSignerVerifier Alg.HS256 demo_hmac_key
  = Ok {| hmac_algorithm := Alg.HS256; hmac_key := demo_hmac_key |}
  /\ HMAC_Verify demo
       {| hmac_algorithm := Alg.HS256; hmac_key := demo_hmac_key |}
       (str "abc") (str "xyz")
     = (false, None).
Proof.
  split; [reflexivity |].
  destruct (@HMAC_engine_spec demo Alg.HS256 demo_hmac_key _
              (str "abc") (str "xyz") eq_refl) as (_ & _ & _ & _ & H).
  apply H; discriminate.
Defined.

Lemma getHashAlgorithm_spec (P : Platform) (alg : Algorithm) (h : HashFn)
  (plaintext : bytes) :
  getHashAlgorithm alg = Ok h ->
  In alg rsa_algs /\ GetHash P alg plaintext = Ok (hash_Sum P h plaintext).
Proof.
  unfold getHashAlgorithm, GetHash, alg_in. cbn [existsb].
  destruct (bytes_eqb alg Alg.RS256) eqn:E1;
    [apply bytes_eqb_eq in E1; subst alg; intro H; inversion H;
     split; [cbn; tauto | reflexivity] |].
  destruct (bytes_eqb alg Alg.PS256) eqn:E2;
    [apply bytes_eqb_eq in E2; subst alg; intro H; inversion H;
     split; [cbn; tauto | reflexivity] |].
  destruct (bytes_eqb alg Alg.RS384) eqn:E3;
    [apply bytes_eqb_eq in E3; subst alg; intro H; inversion H;
     split; [cbn; tauto | reflexivity] |].
  destruct (bytes_eqb alg Alg.PS384) eqn:E4;
    [apply bytes_eqb_eq in E4; subst alg; intro H; inversion H;
     split; [cbn; tauto | reflexivity] |].
  destruct (bytes_eqb alg Alg.RS512) eqn:E5;
    [apply bytes_eqb_eq in E5; subst alg; intro H; inversion H;
     split; [cbn; tauto | reflexivity] |].
  destruct (bytes_eqb alg Alg.PS512) eqn:E6;
    [apply bytes_eqb_eq in E6; subst alg; intro H; inversion H;
     split; [cbn; tauto | reflexivity] |].
  discriminate.
Qed.

Lemma getHashAlgorithm_total (alg : Algorithm) :
  In alg rsa_algs -> exists h, getHashAlgorithm alg = Ok h.
Proof.
  intros [<- | [<- | [<- | [<- | [<- | [<- | []]]]]]];
    eexists; reflexivity.
Qed.

Lemma rsa_algs_no_empty : ~ In [] rsa_algs.
Proof. cbn. intros [H | [H | [H | [H | [H | [H | []]]]]]]; discriminate. Qed.

(** X8.  The two RSA constructors accept the same algorithms, RS256,
    RS384, RS512, PS256, PS384 and PS512, although only the signer's lists
    them; both refuse a nil key; and the hash they store is the one
    [GetHash] computes the digest with. *)
Theorem InitRSA_spec (P : Platform) (alg : Algorithm) :
  (forall key,
     (exists s, InitRSASigner alg (Some key) = Ok s) <-> In alg rsa_algs)
  /\ (forall key,
        (exists v, InitRSAVerifier alg (Some key) = Ok v)
        <-> In alg rsa_algs)
  /\ (exists e, InitRSASigner alg None = Err e)
  /\ (exists e, InitRSAVerifier alg None = Err e)
  /\ (forall key s plaintext,
        InitRSASigner alg (Some key) = Ok s ->
        rsas_algorithm s = alg /\ rsas_prvKey s = key
        /\ GetHash P alg plaintext
           = Ok (hash_Sum P (rsas_hash s) plaintext))
  /\ (forall key v plaintext,
        InitRSAVerifier alg (Some key) = Ok v ->
        rsav_algorithm v = alg /\ rsav_pubKey v = key
        /\ GetHash P alg plaintext
           = Ok (hash_Sum P (rsav_hash v) plaintext)).
Proof.
  unfold InitRSASigner, InitRSAVerifier. fold rsa_algs.
  repeat split; try (eexists; reflexivity).
  - intros [s H]. destruct (bytes_eqb [] alg); [discriminate |].
    destruct (alg_in alg rsa_algs) eqn:E; [| discriminate].
    now apply alg_in_In in E.
  - intro Ha. rewrite (empty_alg_eqb _ _ Ha rsa_algs_no_empty).
    destruct (getHashAlgorithm_total _ Ha) as [h Hh].
    apply alg_in_In in Ha. rewrite Ha, Hh. eexists; reflexivity.
  - intros [v H]. destruct (bytes_eqb [] alg); [discriminate |].
    destruct (getHashAlgorithm alg) as [h |] eqn:Hh; [| discriminate].
    now apply (getHashAlgorithm_spec P _ _ []) in Hh.
  - intro Ha. rewrite (empty_alg_eqb _ _ Ha rsa_algs_no_empty).
    destruct (getHashAlgorithm_total _ Ha) as [h ->].
    eexists; reflexivity.
  - destruct (bytes_eqb [] alg); [discriminate |].
    destruct (negb (alg_in alg rsa_algs)); [discriminate |].
    destruct (getHashAlgorithm alg); [| discriminate].
    inversion H; reflexivity.
  - destruct (bytes_eqb [] alg); [discriminate |].
    destruct (negb (alg_in alg rsa_algs)); [discriminate |].
    destruct (getHashAlgorithm alg); [| discriminate].
    inversion H; reflexivity.
  - destruct (bytes_eqb [] alg); [discriminate |].
    destruct (negb (alg_in alg rsa_algs)); [discriminate |].
    destruct (getHashAlgorithm alg) as [h |] eqn:Hh; [| discriminate].
    inversion H; cbn. now apply getHashAlgorithm_spec.
  - destruct (bytes_eqb [] alg); [discriminate |].
    destruct (getHashAlgorithm alg); [| discriminate].
    inversion H; reflexivity.
  - destruct (bytes_eqb [] alg); [discriminate |].
    destruct (getHashAlgorithm alg); [| discriminate].
    inversion H; reflexivity.
  - destruct (bytes_eqb [] alg); [discriminate |].
    destruct (getHashAlgorithm alg) as [h |] eqn:Hh; [| discriminate].
    inversion H; cbn. now apply getHashAlgorithm_spec.
Qed.

Lemma InitRSASigner_inv (alg : Algorithm) (key : rsa_PrivateKey)
  (s : RSASigner) :
  InitRSASigner alg (Some key) = Ok s ->
  exists h,
    getHashAlgorithm alg = Ok h
    /\ s = {| rsas_algorithm := alg; rsas_hash := h; rsas_prvKey := key |}.
Proof.
  unfold InitRSASigner.
  destruct (bytes_eqb [] alg); [discriminate |].
  destruct (negb _); [discriminate |].
  destruct (getHashAlgorithm alg) as [h |]; [| discriminate].
  intro H. inversion H. now exists h.
Qed.

Lemma InitRSAVerifier_inv (alg : Algorithm) (key : rsa_PublicKey)
  (v : RSAVerifier) :
  InitRSAVerifier alg (Some key) = Ok v ->
  exists h,
    getHashAlgorithm alg = Ok h
    /\ v = {| rsav_algorithm := alg; rsav_hash := h; rsav_pubKey := key |}.
Proof.
  unfold InitRSAVerifier.
  destruct (bytes_eqb [] alg); [discriminate |].
  destruct (getHashAlgorithm alg) as [h |]; [| discriminate].
  intro H. inversion H. now exists h.
Qed.

Lemma rsa_alg_family (alg : Algorithm) :
  In alg rsa_algs ->
  alg_in alg [Alg.RS256; Alg.RS384; Alg.RS512] = true
  \/ alg_in alg [Alg.RS256; Alg.RS384; Alg.RS512] = false
     /\ alg_in alg [Alg.PS256; Alg.PS384; Alg.PS512] = true.
Proof.
  intros [<- | [<- | [<- | [<- | [<- | [<- | []]]]]]];
    (left; reflexivity) || (right; split; reflexivity).
Qed.

Lemma RSA_Verify_Sign (P : Platform) (alg : Algorithm)
  (key : rsa_PrivateKey) (s : RSASigner) (v : RSAVerifier)
  (plaintext sig : bytes) :
  rsa_primitives_agree P ->
  InitRSASigner alg (Some key) = Ok s ->
  InitRSAVerifier alg (Some (rsa_Public key)) = Ok v ->
  RSA_Sign P s plaintext = Ok sig ->
  RSA_Verify P v plaintext sig = (true, None).
Proof.
  intros Hagree Hs Hv Hsign.
  apply InitRSASigner_inv in Hs. destruct Hs as (h & Hh & ->).
  apply InitRSAVerifier_inv in Hv. destruct Hv as (h' & Hh' & ->).
  assert (h' = h) by congruence. subst h'.
  destruct (getHashAlgorithm_spec P _ _ plaintext Hh) as [Ha Hhash].
  unfold RSA_Sign in Hsign. unfold RSA_Verify.
  cbn [rsas_algorithm rsas_hash rsas_prvKey rsav_algorithm rsav_hash
       rsav_pubKey] in *.
  rewrite Hhash in *.
  destruct (Hagree key h (hash_Sum P h plaintext) sig) as [H15 Hpss].
  destruct (rsa_alg_family _ Ha) as [E | [E1 E2]].
  - rewrite E in *.
    destruct (rsa_SignPKCS1v15 P key h (hash_Sum P h plaintext));
      [| discriminate].
    inversion Hsign; subst. now rewrite H15.
  - rewrite E1, E2 in *.
    destruct (rsa_SignPSS P key h (hash_Sum P h plaintext));
      [| discriminate].
    inversion Hsign; subst. now rewrite Hpss.
Qed.

(** X9.  The RSA engines.  [Verify] has two outcomes only: [true] without
    an error, or [false] with the error of the primitive wrapped; it
    never returns [false] without an error.  [Sign] returns the
    primitive's signature or its error wrapped, never the error of
    [GetHash].  On a platform whose primitives agree, a signature that
    [Sign] returns is accepted by the verifier made from the public half
    of the key with the same algorithm. *)
Theorem RSA_engine_spec (P : Platform) (alg : Algorithm)
  (key : rsa_PrivateKey) (s : RSASigner) (v : RSAVerifier)
  (plaintext signature : bytes) :
  InitRSASigner alg (Some key) = Ok s ->
  InitRSAVerifier alg (Some (rsa_Public key)) = Ok v ->
  (RSA_Verify P v plaintext signature = (true, None)
   \/ exists e,
        RSA_Verify P v plaintext signature
        = (false, Some (wrapError "Error from verification" e)))
  /\ ((exists sig, RSA_Sign P s plaintext = Ok sig)
      \/ exists e,
           RSA_Sign P s plaintext = Err (wrapError "error from signing" e))
  /\ (rsa_primitives_agree P ->
      forall sig,
        RSA_Sign P s plaintext = Ok sig ->
        RSA_Verify P v plaintext sig = (true, None)).
Proof.
  intros Hs Hv.
  split; [| split].
  - apply InitRSAVerifier_inv in Hv. destruct Hv as (h & Hh & ->).
    destruct (getHashAlgorithm_spec P _ _ plaintext Hh) as [Ha Hhash].
    unfold RSA_Verify. cbn [rsav_algorithm rsav_hash rsav_pubKey].
    rewrite Hhash.
    destruct (if alg_in alg [Alg.RS256; Alg.RS384; Alg.RS512]
              then _ else _) as [e |];
      [right; now exists e | now left].
  - apply InitRSASigner_inv in Hs. destruct Hs as (h & Hh & ->).
    destruct (getHashAlgorithm_spec P _ _ plaintext Hh) as [Ha Hhash].
    unfold RSA_Sign. cbn [rsas_algorithm rsas_hash rsas_prvKey].
    rewrite Hhash.
    destruct (if alg_in alg [Alg.RS256; Alg.RS384; Alg.RS512]
              then _ else _) as [sig | e];
      [left; now exists sig | right; now exists e].
  - intros Hagree sig.
    now apply (RSA_Verify_Sign P alg key s v plaintext sig).
Qed.

Lemma RSA_engine_spec_witness :
  InitRSASigner Alg.PS384
    (Some {| rsa_Public := demo_rsa_key; rsa_D := 2753 |})
  = Ok {| rsas_algorithm := Alg.PS384; rsas_hash := SHA384;
          rsas_prvKey := {| rsa_Public := demo_rsa_key; rsa_D := 2753 |} |}
  /\ rsa_primitives_agree demo
  /\ exists sig,
       RSA_Sign demo
         {| rsas_algorithm := Alg.PS384; rsas_hash := SHA384;
            rsas_prvKey :=
              {| rsa_Public := demo_rsa_key; rsa_D := 2753 |} |}
         (str "abc") = Ok sig
       /\ RSA_Verify demo
            {| rsav_algorithm := Alg.PS384; rsav_hash := SHA384;
               rsav_pubKey := demo_rsa_key |}
            (str "abc") sig = (true, None).
Proof.
  assert (Hagree : rsa_primitives_agree demo).
  { intros key h digest sig. cbn. split; intro H; inversion H;
      now rewrite bytes_eqb_refl. }
  split; [reflexivity |]. split; [exact Hagree |].
  destruct (RSA_engine_spec demo Alg.PS384
              {| rsa_Public := demo_rsa_key; rsa_D := 2753 |} _ _
              (str "abc") [] eq_refl eq_refl) as (_ & _ & H).
  eexists. split; [reflexivity |].
  apply (H Hagree). reflexivity.
Defined.

Lemma ecdsa_algs_no_empty : ~ In [] ecdsa_algs.
Proof. cbn. intros [H | [H | [H | []]]]; discriminate. Qed.

(** X10.  The two ECDSA constructors.  The signer is made exactly for
    ES256 with a key on P-256, ES384 with P-384 and ES512 with P-521.  The
    verifier is made for any of the three algorithms with a key on any
    curve: the curve of a public key is not compared with the algorithm,
    and the signature length the verifier asks for follows the key. *)
Theorem InitECDSA_spec (alg : Algorithm) :
  (forall key s,
     InitECDSASigner alg (Some key) = Ok s
     <-> In alg ecdsa_algs
         /\ ec_Curve (ec_PublicKey key) = ecdsa_curve alg
         /\ s = {| ecs_algorithm := alg; ecs_prvKey := key |})
  /\ (forall key v,
        InitECDSAVerifier alg (Some key) = Ok v
        <-> In alg ecdsa_algs
            /\ v = {| ecv_algorithm := alg; ecv_pubKey := key |})
  /\ (exists e, InitECDSASigner alg None = Err e)
  /\ (exists e, InitECDSAVerifier alg None = Err e).
Proof.
  repeat split; try (eexists; reflexivity).
  - apply InitECDSASigner_inv in H.
    destruct H as [_ [[-> _] | [[-> _] | [-> _]]]]; cbn; tauto.
  - apply InitECDSASigner_inv in H.
    destruct H as [_ [[-> ->] | [[-> ->] | [-> ->]]]]; reflexivity.
  - now apply InitECDSASigner_inv in H.
  - intros (Ha & Hc & ->). unfold InitECDSASigner.
    rewrite (empty_alg_eqb _ _ Ha ecdsa_algs_no_empty).
    unfold validateKeyMatchesAlgorithm. rewrite Hc.
    destruct Ha as [<- | [<- | [<- | []]]]; reflexivity.
  - apply InitECDSAVerifier_inv in H.
    destruct H as [_ [-> | [-> | ->]]]; cbn; tauto.
  - now apply InitECDSAVerifier_inv in H.
  - intros (Ha & ->). unfold InitECDSAVerifier.
    rewrite (empty_alg_eqb _ _ Ha ecdsa_algs_no_empty).
    fold ecdsa_algs. apply alg_in_In in Ha. now rewrite Ha.
Qed.

Lemma ECDSA_Verify_Sign (P : Platform) (alg : Algorithm)
  (key : ecdsa_PrivateKey) (s : ECDSASigner) (v : ECDSAVerifier)
  (plaintext : bytes) :
  ecdsa_primitives_agree P key ->
  InitECDSASigner alg (Some key) = Ok s ->
  InitECDSAVerifier alg (Some (ec_PublicKey key)) = Ok v ->
  (exists e, ECDSA_Sign P s plaintext = Val (Err e))
  \/ exists sig,
       ECDSA_Sign P s plaintext = Val (Ok sig)
       /\ length sig
          = getSignatureLength (ec_Curve (ec_PublicKey key)) * 2
       /\ ECDSA_Verify P v plaintext sig = (true, None).
Proof.
  intros Hagree Hs Hv.
  apply InitECDSASigner_inv in Hs. destruct Hs as [-> Hcases].
  apply InitECDSAVerifier_inv in Hv. destruct Hv as [-> _].
  set (curve := ec_Curve (ec_PublicKey key)) in *.
  set (w := getSignatureLength curve).
  assert (Hhash : exists h,
             GetHash P alg plaintext = Ok (hash_Sum P h plaintext)).
  { destruct Hcases as [[-> _] | [[-> _] | [-> _]]];
      eexists; reflexivity. }
  assert (Hbits : (Z.of_nat (Curve_BitSize curve) <= 8 * Z.of_nat w)%Z).
  { subst w. destruct Hcases as [[_ ->] | [[_ ->] | [_ ->]]]; cbn; lia. }
  destruct Hhash as [h Hhash]. set (hash := hash_Sum P h plaintext) in *.
  unfold ECDSA_Sign, ECDSA_Verify, padAndJoin.
  cbn [ecs_algorithm ecs_prvKey ecv_algorithm ecv_pubKey].
  rewrite Hhash. fold curve. fold w.
  destruct (ecdsa_Sign P key hash) as [[r sg] | e] eqn:Hprim;
    [| left; now exists e].
  right. destruct (Hagree h plaintext r sg Hprim) as (Hr & Hsg & Hok).
  fold hash in Hok.
  fold curve in Hr, Hsg.
  assert (Hlr : length (big_Bytes r) <= w).
  { apply big_Bytes_length. rewrite Z.abs_eq by lia.
    eapply Z.lt_le_trans; [apply Hr |]. apply Z.pow_le_mono_r; lia. }
  assert (Hls : length (big_Bytes sg) <= w).
  { apply big_Bytes_length. rewrite Z.abs_eq by lia.
    eapply Z.lt_le_trans; [apply Hsg |]. apply Z.pow_le_mono_r; lia. }
  rewrite !pad_left_fixed_width by assumption. cbn [run_bind].
  pose proof (@fixed_width_length w r Hlr) as Lr.
  pose proof (@fixed_width_length w sg Hls) as Ls.
  exists (fixed_width w r ++ fixed_width w sg).
  split; [reflexivity |].
  assert (Hlen : length (fixed_width w r ++ fixed_width w sg) = w * 2)
    by (rewrite length_app; lia).
  split; [exact Hlen |].
  rewrite Hlen, Nat.eqb_refl. cbn [negb].
  assert (E1 : firstn w (fixed_width w r ++ fixed_width w sg)
               = fixed_width w r).
  { rewrite firstn_app, Lr, Nat.sub_diag, firstn_O, app_nil_r.
    rewrite <- Lr at 1. apply firstn_all. }
  assert (E2 : skipn w (fixed_width w r ++ fixed_width w sg)
               = fixed_width w sg).
  { rewrite skipn_app, Lr, Nat.sub_diag, skipn_O.
    rewrite <- Lr at 1. now rewrite skipn_all. }
  rewrite E1, E2, !fixed_width_value, !Z.abs_eq by lia.
  now rewrite Hok.
Qed.

(** X11.  Signing with the ECDSA signer and verifying with the verifier
    made from the public half of the key and the same algorithm, on a
    platform whose primitive, for that key, returns [r] and [s] below
    [2 ^ BitSize] and accepts them: [Sign] does not panic, and what it returns, the
    primitive's error apart, is a signature of twice the coordinate
    width that [Verify] accepts. *)
Theorem ECDSA_sign_then_verify (P : Platform) (alg : Algorithm)
  (key : ecdsa_PrivateKey) (s : ECDSASigner) (v : ECDSAVerifier)
  (plaintext : bytes) :
  ecdsa_primitives_agree P key ->
  InitECDSASigner alg (Some key) = Ok s ->
  InitECDSAVerifier alg (Some (ec_PublicKey key)) = Ok v ->
  (forall p, ECDSA_Sign P s plaintext <> Panic p)
  /\ (forall sig,
        ECDSA_Sign P s plaintext = Val (Ok sig) ->
        length sig = getSignatureLength (ec_Curve (ec_PublicKey key)) * 2
        /\ ECDSA_Verify P v plaintext sig = (true, None)).
Proof.
  intros Hagree Hs Hv.
  destruct (ECDSA_Verify_Sign P alg key s v plaintext Hagree Hs Hv)
    as [[e He] | (sig & Hsig & Hlen & Hok)].
  - split; [intros p; congruence | intros sig H; congruence].
  - split; [intros p; congruence |].
    intros sig' H. rewrite Hsig in H. inversion H; subst sig'. tauto.
Qed.

Lemma demo_sum_bound (tag : N) (msg : bytes) :
  (0 <= big_SetBytes (demo_sum tag msg) < 2 ^ 24)%Z.
Proof.
  unfold demo_sum, big_SetBytes. cbn [fold_left].
  set (h := fold_left _ msg 7%N).
  pose proof (u8_bound (byte_of_N tag)).
  pose proof (u8_bound (byte_of_N (h / 256))).
  pose proof (u8_bound (byte_of_N h)).
  change (2 ^ 24)%Z with 16777216%Z. lia.
Qed.

Lemma demo_ecdsa_agree : ecdsa_primitives_agree demo demo_ec_key.
Proof.
  intros h msg r s H.
  cbv [demo ecdsa_Sign ecdsa_Verify hash_Sum] in *.
  assert (Hr : r = (1 + big_SetBytes (demo_sum (demo_tag h) msg))%Z)
    by congruence.
  assert (Hs : s = ec_D demo_ec_key) by congruence.
  clear H. subst r s.
  pose proof (demo_sum_bound (demo_tag h) msg) as Hb.
  cbv [demo_ec_key ec_PublicKey ec_Curve ec_X ec_D Curve_BitSize].
  change (Z.of_nat 521) with 521%Z.
  assert ((2 ^ 24 < 2 ^ 521)%Z) by (apply Z.pow_lt_mono_r; lia).
  assert ((2 ^ 519 < 2 ^ 521)%Z) by (apply Z.pow_lt_mono_r; lia).
  assert ((0 < 2 ^ 519)%Z) by (apply Z.pow_pos_nonneg; lia).
  split; [lia |]. split; [lia |].
  apply andb_true_intro. split; apply Z.eqb_eq; reflexivity.
Qed.

Lemma ECDSA_sign_then_verify_witness :
  ecdsa_primitives_agree demo demo_ec_key
  /\ exists sig,
       ECDSA_Sign demo
         {| ecs_algorithm := Alg.ES512; ecs_prvKey := demo_ec_key |}
         (str "abc") = Val (Ok sig)
       /\ ECDSA_Verify demo
            {| ecv_algorithm := Alg.ES512;
               ecv_pubKey := ec_PublicKey demo_ec_key |}
            (str "abc") sig = (true, None).
Proof.
  split; [exact demo_ecdsa_agree |].
  destruct (ECDSA_sign_then_verify demo Alg.ES512 demo_ec_key _ _
              (str "abc") demo_ecdsa_agree eq_refl eq_refl) as [_ H].
  assert (E : exists sig,
             ECDSA_Sign demo
               {| ecs_algorithm := Alg.ES512; ecs_prvKey := demo_ec_key |}
               (str "abc") = Val (Ok sig))
    by (eexists; vm_compute; reflexivity).
  destruct E as [sig E]. exists sig. split; [exact E |].
  now apply H.
Defined.

(** X12.  The two EdDSA constructors differ: the signer is made for any
    algorithm that is not the empty string, the verifier for EdDSA only;
    both refuse a nil key.  The signer signs the plaintext itself, and on
    a platform whose primitives agree for the private key, the verifier
    made from the public key that [Public] returns for it accepts what
    the signer returns. *)
Theorem EdDSA_engine_spec (P : Platform) (alg : Algorithm) :
  (forall key s,
     InitEdDSASigner alg (Some key) = Ok s
     <-> alg <> [] /\ s = {| eds_algorithm := alg; eds_prvKey := key |})
  /\ (forall key v,
        InitEdDSAVerifier alg (Some key) = Ok v
        <-> alg = Alg.EdDSA
            /\ v = {| edv_algorithm := alg; edv_pubKey := key |})
  /\ (exists e, InitEdDSASigner alg None = Err e)
  /\ (exists e, InitEdDSAVerifier alg None = Err e)
  /\ (forall key pub s v plaintext sig,
        ed25519_primitives_agree P key ->
        ed25519_Public key = Val pub ->
        InitEdDSASigner alg (Some key) = Ok s ->
        InitEdDSAVerifier alg (Some pub) = Ok v ->
        EdDSA_Sign P s plaintext = Ok sig ->
        sig = ed25519_Sign P key plaintext
        /\ EdDSA_Verify P v plaintext sig = (true, None)).
Proof.
  unfold InitEdDSASigner, InitEdDSAVerifier.
  split; [| split; [| split; [| split]]]; try (eexists; reflexivity).
  - intros key s. destruct (bytes_eqb [] alg) eqn:E.
    + apply bytes_eqb_eq in E. subst alg.
      split; [discriminate | intros [H _]; now elim H].
    + apply bytes_eqb_neq in E.
      split; [intro H; inversion H; split; congruence |].
      intros [_ ->]. reflexivity.
  - intros key v. destruct (bytes_eqb [] alg) eqn:E.
    + apply bytes_eqb_eq in E. subst alg.
      split; [discriminate | intros [H _]; discriminate].
    + destruct (bytes_eqb Alg.EdDSA alg) eqn:E2; cbn [negb].
      * apply bytes_eqb_eq in E2.
        split; [intro H; inversion H; split; congruence |].
        intros [_ ->]. reflexivity.
      * apply bytes_eqb_neq in E2.
        split; [discriminate | intros [H _]; congruence].
  - intros key pub s v plaintext sig Hagree Hpub Hs Hv Hsign.
    destruct (bytes_eqb [] alg); [discriminate |].
    destruct (negb (bytes_eqb Alg.EdDSA alg)); [discriminate |].
    inversion Hs; inversion Hv; subst s v.
    unfold EdDSA_Sign in Hsign. cbn in Hsign. inversion Hsign.
    split; [reflexivity |].
    unfold EdDSA_Verify. cbn [edv_pubKey]. now rewrite (Hagree pub _ Hpub).
Qed.

(** ** The constructors of the facade *)

Lemma InitRSA_spec_signer (alg : Algorithm) (key : rsa_PrivateKey) :
  (exists s, InitRSASigner alg (Some key) = Ok s) <-> In alg rsa_algs.
Proof.
  unfold InitRSASigner. fold rsa_algs. split.
  - intros [s H]. destruct (bytes_eqb [] alg); [discriminate |].
    destruct (alg_in alg rsa_algs) eqn:E; [| discriminate].
    now apply alg_in_In in E.
  - intro Ha. rewrite (empty_alg_eqb _ _ Ha rsa_algs_no_empty).
    destruct (getHashAlgorithm_total _ Ha) as [h Hh].
    apply alg_in_In in Ha. rewrite Ha, Hh. eexists; reflexivity.
Qed.

Lemma InitRSA_spec_verifier (alg : Algorithm) (key : rsa_PublicKey) :
  (exists v, InitRSAVerifier alg (Some key) = Ok v) <-> In alg rsa_algs.
Proof.
  unfold InitRSAVerifier. split.
  - intros [v H]. destruct (bytes_eqb [] alg); [discriminate |].
    destruct (getHashAlgorithm alg) as [h |] eqn:Hh; [| discriminate].
    now apply (getHashAlgorithm_spec demo _ _ []) in Hh.
  - intro Ha. rewrite (empty_alg_eqb _ _ Ha rsa_algs_no_empty).
    destruct (getHashAlgorithm_total _ Ha) as [h ->].
    eexists; reflexivity.
Qed.

Lemma EdDSA_verifier_alg (alg : Algorithm) (key : ed25519_PublicKey)
  (v : EdDSAVerifier) :
  InitEdDSAVerifier alg (Some key) = Ok v <-> alg = Alg.EdDSA
      /\ v = {| edv_algorithm := alg; edv_pubKey := key |}.
Proof.
  unfold InitEdDSAVerifier. destruct (bytes_eqb [] alg) eqn:E.
  - apply bytes_eqb_eq in E. subst alg.
    split; [discriminate | intros [H _]; discriminate].
  - destruct (bytes_eqb Alg.EdDSA alg) eqn:E2; cbn [negb].
    + apply bytes_eqb_eq in E2.
      split; [intro H; inversion H; split; congruence |].
      intros [_ ->]. reflexivity.
    + apply bytes_eqb_neq in E2.
      split; [discriminate | intros [H _]; congruence].
Qed.

Lemma InitHMACSignerVerifier_inv (alg : Algorithm) (key : bytes)
  (sv : HMACSignerVerifier) :
  InitHMACSignerVerifier alg key = Ok sv ->
  In alg hmac_algs.
Proof.
  unfold InitHMACSignerVerifier. fold hmac_algs.
  destruct (Nat.eqb (length key) 0); [discriminate |].
  destruct (bytes_eqb [] alg); [discriminate |].
  destruct (alg_in alg hmac_algs) eqn:E; [| discriminate].
  intros _. now apply alg_in_In in E.
Qed.


Lemma NewJOSESignerVerifier_inv (alg : Algorithm)
  (key : Key) (sv : JOSESignerVerifier) :
  NewJOSESignerVerifier alg key = Val (Ok sv) ->
  match key with
  | RSAPrivateKey (Some k) =>
      exists s v,
        InitRSASigner alg (Some k) = Ok s
        /\ InitRSAVerifier alg (Some (rsa_Public k)) = Ok v
        /\ sv = {| algorithm := alg; signer := Some (SignerRSA s);
                   verifier := Some (VerifierRSA v) |}
  | RSAPublicKey (Some k) =>
      exists v,
        InitRSAVerifier alg (Some k) = Ok v
        /\ sv = {| algorithm := alg; signer := None;
                   verifier := Some (VerifierRSA v) |}
  | ECDSAPrivateKey (Some k) =>
      exists s v,
        InitECDSASigner alg (Some k) = Ok s
        /\ InitECDSAVerifier alg (Some (ec_PublicKey k)) = Ok v
        /\ sv = {| algorithm := alg; signer := Some (SignerECDSA s);
                   verifier := Some (VerifierECDSA v) |}
  | ECDSAPublicKey (Some k) =>
      exists v,
        InitECDSAVerifier alg (Some k) = Ok v
        /\ sv = {| algorithm := alg; signer := None;
                   verifier := Some (VerifierECDSA v) |}
  | Ed25519PrivateKey (Some k) =>
      exists pub s v,
        ed25519_Public k = Val pub
        /\ InitEdDSASigner alg (Some k) = Ok s
        /\ InitEdDSAVerifier alg (Some pub) = Ok v
        /\ sv = {| algorithm := alg; signer := Some (SignerEdDSA s);
                   verifier := Some (VerifierEdDSA v) |}
  | Ed25519PublicKey (Some k) =>
      exists v,
        InitEdDSAVerifier alg (Some k) = Ok v
        /\ sv = {| algorithm := alg; signer := None;
                   verifier := Some (VerifierEdDSA v) |}
  | HMACKey k =>
      exists e,
        InitHMACSignerVerifier alg k = Ok e
        /\ sv = {| algorithm := alg; signer := Some (SignerHMAC e);
                   verifier := Some (VerifierHMAC e) |}
  | _ => False
  end.
Proof.
  destruct key as [[k |] | [k |] | [k |] | [k |] | [k |] | [k |] | k |];
    cbn [NewJOSESignerVerifier];
    unfold newFromRSAPrivate, newFromRSAPublic, newFromECDSAPrivate,
      newFromECDSAPublic, newFromEd25519Private, newFromEd25519Public,
      newFromHMACBytes; cbn [deref run_bind]; intro H;
    try discriminate H;
    try (unfold InitRSAVerifier, InitECDSAVerifier, InitEdDSAVerifier in H;
         discriminate H).
  - destruct (InitRSAVerifier alg (Some (rsa_Public k))) as [v |];
      [| discriminate].
    destruct (InitRSASigner alg (Some k)) as [s |]; [| discriminate].
    inversion H. now exists s, v.
  - destruct (InitRSAVerifier alg (Some k)) as [v |]; [| discriminate].
    inversion H. now exists v.
  - destruct (InitECDSAVerifier alg (Some (ec_PublicKey k))) as [v |];
      [| discriminate].
    destruct (InitECDSASigner alg (Some k)) as [s |]; [| discriminate].
    inversion H. now exists s, v.
  - destruct (InitECDSAVerifier alg (Some k)) as [v |]; [| discriminate].
    inversion H. now exists v.
  - destruct (ed25519_Public k) as [pub | p] eqn:Hpub;
      cbn [run_bind] in H; [| discriminate].
    destruct (InitEdDSAVerifier alg (Some pub)) as [v |] eqn:Hv;
      [| discriminate].
    destruct (InitEdDSASigner alg (Some k)) as [s |] eqn:Hs;
      [| discriminate].
    inversion H. exists pub, s, v. cbn [algorithm verifier].
    repeat split; trivial.
  - destruct (InitEdDSAVerifier alg (Some k)) as [v |]; [| discriminate].
    inversion H. now exists v.
  - destruct (InitHMACSignerVerifier alg k) as [e |]; [| discriminate].
    inversion H. now exists e.
Qed.

Lemma InitHMACSignerVerifier_record (alg : Algorithm) (key : bytes)
  (sv : HMACSignerVerifier) :
  InitHMACSignerVerifier alg key = Ok sv ->
  In alg hmac_algs /\ sv = {| hmac_algorithm := alg; hmac_key := key |}.
Proof.
  unfold InitHMACSignerVerifier. fold hmac_algs.
  destruct (Nat.eqb (length key) 0); [discriminate |].
  destruct (bytes_eqb [] alg); [discriminate |].
  destruct (alg_in alg hmac_algs) eqn:E; [| discriminate].
  intro H. inversion H. now apply alg_in_In in E.
Qed.

Lemma facade_algorithm (alg : Algorithm) (key : Key)
  (sv : JOSESignerVerifier) :
  NewJOSESignerVerifier alg key = Val (Ok sv) ->
  In alg (key_algs key) /\ alg <> Alg.None.
Proof.
  intro Hnew. pose proof (NewJOSESignerVerifier_inv alg key sv Hnew) as H.
  assert (Hin : In alg (key_algs key)).
  { destruct key as [[k |] | [k |] | [k |] | [k |] | [k |] | [k |] | k |];
      try contradiction; cbn [key_algs].
    - destruct H as (s & v & Hs & _).
      apply (proj1 (InitRSA_spec_signer alg k)). now exists s.
    - destruct H as (v & Hv & _).
      apply (proj1 (InitRSA_spec_verifier alg k)). now exists v.
    - destruct H as (s & v & Hs & _).
      apply InitECDSASigner_inv in Hs.
      destruct Hs as [_ [[-> _] | [[-> _] | [-> _]]]]; cbn; tauto.
    - destruct H as (v & Hv & _). apply InitECDSAVerifier_inv in Hv.
      destruct Hv as [_ [-> | [-> | ->]]]; cbn; tauto.
    - destruct H as (pub & s & v & _ & _ & Hv & _).
      apply (proj1 (EdDSA_verifier_alg alg _ v)) in Hv. now left.
    - destruct H as (v & Hv & _).
      apply (proj1 (EdDSA_verifier_alg alg _ v)) in Hv. now left.
    - destruct H as (e & He & _).
      now apply InitHMACSignerVerifier_inv in He. }
  split; [exact Hin |].
  intros ->.
  destruct key as [[k |] | [k |] | [k |] | [k |] | [k |] | [k |] | k |];
    vm_compute in Hin;
    repeat (destruct Hin as [Hin | Hin]; [discriminate Hin |]);
    exact Hin.
Qed.

Lemma facade_algorithm_field (alg : Algorithm) (key : Key)
  (sv : JOSESignerVerifier) :
  NewJOSESignerVerifier alg key = Val (Ok sv) -> algorithm sv = alg.
Proof.
  intro Hnew. pose proof (NewJOSESignerVerifier_inv alg key sv Hnew) as H.
  destruct key as [[k |] | [k |] | [k |] | [k |] | [k |] | [k |] | k |];
    try contradiction.
  - now destruct H as (s & v & _ & _ & ->).
  - now destruct H as (v & _ & ->).
  - now destruct H as (s & v & _ & _ & ->).
  - now destruct H as (v & _ & ->).
  - now destruct H as (pub & s & v & _ & _ & _ & ->).
  - now destruct H as (v & _ & ->).
  - now destruct H as (e & _ & ->).
Qed.

(** C4.  The None algorithm generates no token.  The insecure
    constructor accepts None and returns a facade that has this
    algorithm and no verifier; on it [GenerateToken] returns the
    configuration error for every header and body, because the test for
    a nil verifier comes before the branch for None.  That branch, on a
    facade with the None algorithm and a verifier, returns the two
    encoded segments with one dot between them; but such a facade is made
    by no constructor: the insecure constructor returns this one facade
    only, and a facade of [NewJOSESignerVerifier] never has the None
    algorithm. *)
Theorem GenerateToken_None_unreachable (P : Platform) :
  NewInsecureJOSESignerVerifier Alg.None = Ok insecure_facade
  /\ algorithm insecure_facade = Alg.None
  /\ (forall header body,
        GenerateToken P insecure_facade header body
        = Val (Err not_configured_error))
  /\ (forall sv header body joseHeader jwsPayload,
        algorithm sv = Alg.None ->
        verifier sv <> None ->
        json_Marshal P header = Ok joseHeader ->
        json_Marshal P body = Ok jwsPayload ->
        GenerateToken P sv header body
        = Val (Ok (Base64URLEncode joseHeader
                   ++ "."%byte :: Base64URLEncode jwsPayload)))
  /\ (forall alg sv,
        NewInsecureJOSESignerVerifier alg = Ok sv -> sv = insecure_facade)
  /\ (forall alg key sv,
        NewJOSESignerVerifier alg key = Val (Ok sv) ->
        algorithm sv <> Alg.None).
Proof.
  split; [reflexivity |]. split; [reflexivity |]. split; [reflexivity |].
  split; [| split].
  - intros sv header body joseHeader jwsPayload Ha Hv Hh Hb.
    unfold GenerateToken. destruct (verifier sv); [| contradiction].
    now rewrite Hh, Hb, Ha.
  - intros alg sv. unfold NewInsecureJOSESignerVerifier.
    destruct (bytes_eqb alg Alg.None) eqn:E; cbn [negb]; [| discriminate].
    apply bytes_eqb_eq in E. subst alg. intro H. now inversion H.
  - intros alg key sv Hnew.
    rewrite (facade_algorithm_field alg key sv Hnew).
    exact (proj2 (facade_algorithm alg key sv Hnew)).
Qed.

(** X13.  What [NewJOSESignerVerifier] returns.  A facade it makes has the
    algorithm asked for, which is one the shape of the key goes with and
    is never None; it always has a verifier; and it has no signer exactly
    when the key is a public key. *)
Theorem NewJOSESignerVerifier_facade (alg : Algorithm)
  (key : Key) (sv : JOSESignerVerifier) :
  NewJOSESignerVerifier alg key = Val (Ok sv) ->
  algorithm sv = alg
  /\ In alg (key_algs key)
  /\ alg <> Alg.None
  /\ verifier sv <> None
  /\ (signer sv = None <-> is_public_key key = true).
Proof.
  intro Hnew. pose proof (NewJOSESignerVerifier_inv alg key sv Hnew) as H.
  destruct (facade_algorithm alg key sv Hnew) as [Hin Hnone].
  destruct key as [[k |] | [k |] | [k |] | [k |] | [k |] | [k |] | k |];
    try contradiction; cbn [is_public_key].
  - destruct H as (s & v & _ & _ & ->). cbn.
    repeat split; trivial; discriminate.
  - destruct H as (v & _ & ->). cbn. repeat split; trivial; discriminate.
  - destruct H as (s & v & _ & _ & ->). cbn.
    repeat split; trivial; discriminate.
  - destruct H as (v & _ & ->). cbn. repeat split; trivial; discriminate.
  - destruct H as (pub & s & v & _ & _ & _ & ->). cbn.
    repeat split; trivial; discriminate.
  - destruct H as (v & _ & ->). cbn. repeat split; trivial; discriminate.
  - destruct H as (e & _ & ->). cbn. repeat split; trivial; discriminate.
Qed.

Lemma NewJOSESignerVerifier_facade_witness :
  NewJOSESignerVerifier Alg.HS256 (HMACKey demo_hmac_key)
  = Val (Ok demo_hmac_facade)
  /\ verifier demo_hmac_facade <> None
  /\ Alg.HS256 <> Alg.None.
Proof.
  split; [reflexivity |].
  destruct (NewJOSESignerVerifier_facade Alg.HS256
              (HMACKey demo_hmac_key) demo_hmac_facade eq_refl)
    as (_ & _ & Hn & Hv & _).
  split; [exact Hv | exact Hn].
Defined.

(** X14.  The keys [NewJOSESignerVerifier] cannot use.  A nil pointer to a
    private key (RSA, ECDSA or Ed25519) makes it panic, the public key
    being read through the pointer before any check, and so does an
    Ed25519 private key of fewer than 32 bytes, whose public half is cut
    out before any check; a nil pointer to a public key, an empty HMAC key
    and a key of any other type give an error. *)
Theorem NewJOSESignerVerifier_unusable_keys (alg : Algorithm) :
  NewJOSESignerVerifier alg (RSAPrivateKey None) = Panic NilDereference
  /\ NewJOSESignerVerifier alg (ECDSAPrivateKey None)
     = Panic NilDereference
  /\ NewJOSESignerVerifier alg (Ed25519PrivateKey None)
     = Panic NilDereference
  /\ (exists e,
        NewJOSESignerVerifier alg (RSAPublicKey None) = Val (Err e))
  /\ (exists e,
        NewJOSESignerVerifier alg (ECDSAPublicKey None) = Val (Err e))
  /\ (exists e,
        NewJOSESignerVerifier alg (Ed25519PublicKey None) = Val (Err e))
  /\ (exists e, NewJOSESignerVerifier alg (HMACKey []) = Val (Err e))
  /\ (exists e, NewJOSESignerVerifier alg OtherKey = Val (Err e))
  /\ (forall k,
        length k < 32 ->
        NewJOSESignerVerifier alg (Ed25519PrivateKey (Some k))
        = Panic SliceBoundsOutOfRange).
Proof.
  repeat split; try (eexists; reflexivity).
  intros k Hk. cbn [NewJOSESignerVerifier].
  unfold newFromEd25519Private, ed25519_Public. cbn [deref run_bind].
  destruct (Nat.ltb_spec (length k) 32); [reflexivity | lia].
Qed.

(** ** The facade of the insecure constructor *)

(** X15.  [NewInsecureJOSESignerVerifier] accepts the None algorithm only,
    and the facade it returns, which has neither signer nor verifier, is
    of no use: [GenerateToken] returns the configuration error for every
    header and body, and [VerifySignature] either returns an error of
    the parsing or panics on the nil verifier, so that it verifies no
    token at all. *)
Theorem insecure_facade_unusable (P : Platform) :
  (forall alg sv,
     NewInsecureJOSESignerVerifier alg = Ok sv
     <-> alg = Alg.None /\ sv = insecure_facade)
  /\ (forall header body,
        GenerateToken P insecure_facade header body
        = Val (Err not_configured_error))
  /\ (forall rawToken,
        VerifySignature P insecure_facade rawToken = Panic NilDereference
        \/ VerifySignature P insecure_facade rawToken
           = Panic (IndexOutOfRange 1 1)
        \/ exists e,
             VerifySignature P insecure_facade rawToken
             = Val (None, false, Some e)).
Proof.
  split; [| split].
  - intros alg sv. unfold NewInsecureJOSESignerVerifier.
    destruct (bytes_eqb alg Alg.None) eqn:E; cbn [negb].
    + apply bytes_eqb_eq in E. subst alg.
      split; [intro H; inversion H; split; reflexivity |].
      intros [_ ->]. reflexivity.
    + apply bytes_eqb_neq in E.
      split; [discriminate | intros [H _]; contradiction].
  - reflexivity.
  - intro rawToken. unfold VerifySignature, GetRawTokenParts.
    rewrite part_count_guard_dead.
    pose proof (strings_Split_nonempty rawToken "."%byte) as Hne.
    destruct (strings_Split rawToken "."%byte) as [| p0 ps];
      [contradiction |].
    cbn [index nth_error run_bind].
    destruct (Base64URLDecode p0) as [dh | e];
      [| right; right; now exists e].
    destruct ps as [| p1 ps]; [right; left; reflexivity |].
    cbn [index nth_error run_bind].
    destruct (Base64URLDecode p1) as [db | e];
      [| right; right; now exists e].
    destruct ps as [| p2 [| p3 ps]]; cbn [length Nat.eqb].
    + cbn [run_bind]. destruct (GetHeader P _) as [hdr | e];
        [left; reflexivity | right; right; now exists e].
    + cbn [index nth_error run_bind].
      destruct (Base64URLDecode p2) as [ds | e];
        [| right; right; now exists e].
      cbn [run_bind]. destruct (GetHeader P _) as [hdr | e];
        [left; reflexivity | right; right; now exists e].
    + cbn [run_bind]. destruct (GetHeader P _) as [hdr | e];
        [left; reflexivity | right; right; now exists e].
Qed.

(** ** Generating, parsing and verifying *)

Lemma GetRawTokenParts_two (joseHeader jwsPayload : bytes) :
  GetRawTokenParts
    (appendWithDot (Base64URLEncode joseHeader)
                   (Base64URLEncode jwsPayload))
  = Val (Ok {| t_Alg := []; RegisteredHeader := zero_Header;
               RegisteredClaims := zero_Claims;
               RawToken :=
                 appendWithDot (Base64URLEncode joseHeader)
                               (Base64URLEncode jwsPayload);
               RawHeader := Base64URLEncode joseHeader;
               RawBody := Base64URLEncode jwsPayload;
               RawSignature := [];
               DecodedHeader := joseHeader;
               DecodedBody := jwsPayload;
               DecodedSignature := [];
               signatureValid := false; claimsValid := false |}).
Proof.
  unfold GetRawTokenParts, appendWithDot.
  rewrite strings_Split_app_sep by apply Base64URLEncode_no_dot.
  rewrite strings_Split_no_sep by apply Base64URLEncode_no_dot.
  cbn [length Nat.ltb Nat.leb andb index nth_error run_bind Nat.eqb].
  now rewrite !Base64URLDecode_Encode.
Qed.

Lemma GenerateToken_inv (P : Platform) (sv : JOSESignerVerifier)
  (header body : GoValue P) (rawToken : bytes) :
  GenerateToken P sv header body = Val (Ok rawToken) ->
  exists joseHeader jwsPayload,
    json_Marshal P header = Ok joseHeader
    /\ json_Marshal P body = Ok jwsPayload
    /\ verifier sv <> None
    /\ let hc := appendWithDot (Base64URLEncode joseHeader)
                               (Base64URLEncode jwsPayload) in
       (algorithm sv = Alg.None /\ rawToken = hc
        \/ algorithm sv <> Alg.None
           /\ exists s jwSignature,
                signer sv = Some s
                /\ Sign P s hc = Val (Ok jwSignature)
                /\ rawToken
                   = appendWithDot hc (Base64URLEncode jwSignature)).
Proof.
  unfold GenerateToken. intro H.
  destruct (verifier sv) as [v |]; [| discriminate].
  destruct (json_Marshal P header) as [jh |]; [| discriminate].
  destruct (json_Marshal P body) as [jb |]; [| discriminate].
  exists jh, jb. repeat split; try discriminate.
  cbv zeta.
  destruct (bytes_eqb (algorithm sv) Alg.None) eqn:E.
  - apply bytes_eqb_eq in E. inversion H. now left.
  - apply bytes_eqb_neq in E. right. split; [exact E |].
    destruct (signer sv) as [s |]; [| discriminate].
    cbn [deref run_bind] in H.
    destruct (Sign P s _) as [[sig | e] | p] eqn:Hs; try discriminate.
    cbn [run_bind] in H. inversion H. now exists s, sig.
Qed.

(** X16.  What [GenerateToken] returns, [GetRawTokenParts] reads back:
    the header and the body come out as the JSON texts that went in, the
    raw token is kept, and for the None algorithm the token has no
    signature. *)
Theorem GenerateToken_GetRawTokenParts (P : Platform)
  (sv : JOSESignerVerifier) (header body : GoValue P) (rawToken : bytes) :
  GenerateToken P sv header body = Val (Ok rawToken) ->
  exists token,
    GetRawTokenParts rawToken = Val (Ok token)
    /\ RawToken token = rawToken
    /\ json_Marshal P header = Ok (DecodedHeader token)
    /\ json_Marshal P body = Ok (DecodedBody token)
    /\ RawHeader token = Base64URLEncode (DecodedHeader token)
    /\ RawBody token = Base64URLEncode (DecodedBody token)
    /\ RawSignature token = Base64URLEncode (DecodedSignature token)
    /\ (algorithm sv = Alg.None -> DecodedSignature token = []).
Proof.
  intro H. apply GenerateToken_inv in H.
  destruct H as (jh & jb & Hh & Hb & _ & [[Ha ->] | [Ha H]]).
  - eexists. split; [apply GetRawTokenParts_two |].
    cbn. repeat split; trivial.
  - destruct H as (s & sig & _ & _ & ->).
    eexists. split; [apply GetRawTokenParts_three |].
    cbn. repeat split; trivial. intro. contradiction.
Qed.

Lemma GenerateToken_GetRawTokenParts_witness :
  GenerateToken demo demo_hmac_facade
    (GoHeader demo_header) (GoClaims demo_claims)
  = Val (Ok (str "eyJhbGciOiJIUzI1NiIsInR5cCI6IkpXVCJ9.eyJpc3MiOiJqb2UiLCJleHAiOiIxMzAwODE5MzgwIn0.ATXC"))
  /\ exists token,
       GetRawTokenParts (str "eyJhbGciOiJIUzI1NiIsInR5cCI6IkpXVCJ9.eyJpc3MiOiJqb2UiLCJleHAiOiIxMzAwODE5MzgwIn0.ATXC")
       = Val (Ok token)
       /\ json_Marshal demo (GoClaims demo_claims)
          = Ok (DecodedBody token).
Proof.
  assert (E : GenerateToken demo demo_hmac_facade
                (GoHeader demo_header) (GoClaims demo_claims)
              = Val (Ok (str "eyJhbGciOiJIUzI1NiIsInR5cCI6IkpXVCJ9.eyJpc3MiOiJqb2UiLCJleHAiOiIxMzAwODE5MzgwIn0.ATXC")))
    by (vm_compute; reflexivity).
  split; [exact E |].
  destruct (GenerateToken_GetRawTokenParts demo demo_hmac_facade _ _ _ E)
    as (token & Hp & _ & _ & Hb & _).
  exists token. split; [exact Hp | exact Hb].
Defined.

Lemma VerifySignature_signed (P : Platform) (sv : JOSESignerVerifier)
  (v : TokenVerifier) (joseHeader jwsPayload jwSignature : bytes)
  (hdr : Header) :
  verifier sv = Some v ->
  json_Unmarshal (json_decode_Header P) joseHeader = Ok hdr ->
  Verify P v (appendWithDot (Base64URLEncode joseHeader)
                            (Base64URLEncode jwsPayload)) jwSignature
  = (true, None) ->
  VerifySignature P sv
    (appendWithDot (appendWithDot (Base64URLEncode joseHeader)
                                  (Base64URLEncode jwsPayload))
                   (Base64URLEncode jwSignature))
  = Val (Some (set_signatureValid
                 (set_RegisteredHeader
                    (parsed_token joseHeader jwsPayload jwSignature) hdr)
                 true),
         true, None).
Proof.
  intros Hv Hhdr Hver. unfold VerifySignature.
  rewrite GetRawTokenParts_three. cbn [run_bind]. unfold GetHeader.
  cbn [parsed_token DecodedHeader]. rewrite Hhdr, Hv.
  cbn [deref run_bind].
  change (RawHeader (set_RegisteredHeader
                       (parsed_token joseHeader jwsPayload jwSignature)
                       hdr))
    with (Base64URLEncode joseHeader).
  change (RawBody (set_RegisteredHeader
                     (parsed_token joseHeader jwsPayload jwSignature) hdr))
    with (Base64URLEncode jwsPayload).
  change (DecodedSignature
            (set_RegisteredHeader
               (parsed_token joseHeader jwsPayload jwSignature) hdr))
    with jwSignature.
  now rewrite Hver.
Qed.

Lemma appendWithDot_nonempty (a b : bytes) : appendWithDot a b <> [].
Proof. unfold appendWithDot. destruct a; discriminate. Qed.

(** X17.  Generating a token and checking its signature, for every shape
    of key.  On a platform whose primitives agree for the key, and with a
    header that the JSON decoder reads back, a token that
    [GenerateToken] returns on a facade made by [NewJOSESignerVerifier]
    passes [VerifySignature] on the same facade: the result is [true]
    without an error, and the token returned carries the header read
    back, the JSON texts of header and body, and the raw token. *)
Theorem GenerateToken_VerifySignature (P : Platform) (alg : Algorithm)
  (key : Key) (sv : JOSESignerVerifier) (header body : GoValue P)
  (joseHeader : bytes) (hdr : Header) (rawToken : bytes) :
  primitives_agree_for P key ->
  NewJOSESignerVerifier alg key = Val (Ok sv) ->
  json_Marshal P header = Ok joseHeader ->
  json_Unmarshal (json_decode_Header P) joseHeader = Ok hdr ->
  GenerateToken P sv header body = Val (Ok rawToken) ->
  exists token,
    VerifySignature P sv rawToken = Val (Some token, true, None)
    /\ RegisteredHeader token = hdr
    /\ DecodedHeader token = joseHeader
    /\ json_Marshal P body = Ok (DecodedBody token)
    /\ RawToken token = rawToken
    /\ signatureValid token = true.
Proof.
  intros Hagree Hnew Hh Hhdr Hgen.
  destruct (facade_algorithm alg key sv Hnew) as [_ Hnone].
  pose proof (NewJOSESignerVerifier_inv alg key sv Hnew) as Hinv.
  apply GenerateToken_inv in Hgen.
  destruct Hgen as (jh & jb & Hh' & Hb & _ & Hcases). cbv zeta in Hcases.
  assert (jh = joseHeader) by congruence. subst jh.
  pose proof (facade_algorithm_field alg key sv Hnew) as Halg.
  destruct Hcases as [[Ha _] | (_ & s & sig & Hs & Hsign & ->)];
    [congruence |].
  set (hc := appendWithDot (Base64URLEncode joseHeader)
                           (Base64URLEncode jb)) in *.
  enough (Hver : exists v, verifier sv = Some v
                           /\ Verify P v hc sig = (true, None)).
  { destruct Hver as (v & Hv & Hver).
    eexists. split; [apply (VerifySignature_signed P sv v); eassumption |].
    cbn. repeat split; trivial. }
  destruct key as [[k |] | [k |] | [k |] | [k |] | [k |] | [k |] | k |];
    try contradiction; cbn [primitives_agree_for] in Hagree.
  - destruct Hinv as (s0 & v & Hs0 & Hv & ->). cbn in Hs.
    inversion Hs; subst s. cbn [Sign] in Hsign.
    exists (VerifierRSA v). split; [reflexivity |]. cbn [Verify].
    apply (RSA_Verify_Sign P alg k s0 v hc sig Hagree Hs0 Hv).
    congruence.
  - destruct Hinv as (v & _ & ->). discriminate.
  - destruct Hinv as (s0 & v & Hs0 & Hv & ->). cbn in Hs.
    inversion Hs; subst s. cbn [Sign] in Hsign.
    exists (VerifierECDSA v). split; [reflexivity |]. cbn [Verify].
    destruct (ECDSA_Verify_Sign P alg k s0 v hc Hagree Hs0 Hv)
      as [[e He] | (sig' & Hsig' & _ & Hok)]; [congruence |].
    assert (sig' = sig) by congruence. now subst.
  - destruct Hinv as (v & _ & ->). discriminate.
  - destruct Hinv as (pub & s0 & v & Hpub & Hs0 & Hv & ->). cbn in Hs.
    inversion Hs; subst s. cbn [Sign] in Hsign.
    exists (VerifierEdDSA v). split; [reflexivity |]. cbn [Verify].
    apply EdDSA_verifier_alg in Hv. destruct Hv as [_ ->].
    unfold InitEdDSASigner in Hs0.
    destruct (bytes_eqb [] alg); [discriminate |]. inversion Hs0; subst s0.
    unfold EdDSA_Sign in Hsign. cbn in Hsign. inversion Hsign.
    unfold EdDSA_Verify. cbn [edv_pubKey]. now rewrite (Hagree pub _ Hpub).
  - destruct Hinv as (v & _ & ->). discriminate.
  - destruct Hinv as (e & He & ->). cbn in Hs.
    inversion Hs; subst s. cbn [Sign] in Hsign.
    exists (VerifierHMAC e). split; [reflexivity |]. cbn [Verify].
    apply InitHMACSignerVerifier_record in He. destruct He as [Ha ->].
    assert (Hsig : HMAC_Sign P {| hmac_algorithm := alg; hmac_key := k |}
                     hc = Ok sig) by congruence.
    apply HMAC_Verify_Sign; trivial.
    + apply appendWithDot_nonempty.
    + rewrite HMAC_Sign_initialized in Hsig
        by (trivial; apply appendWithDot_nonempty).
      inversion Hsig. apply Hagree.
Qed.

Lemma GenerateToken_VerifySignature_witness :
  primitives_agree_for demo (HMACKey demo_hmac_key)
  /\ exists token,
       VerifySignature demo demo_hmac_facade
         (str "eyJhbGciOiJIUzI1NiIsInR5cCI6IkpXVCJ9.eyJpc3MiOiJqb2UiLCJleHAiOiIxMzAwODE5MzgwIn0.ATXC")
       = Val (Some token, true, None)
       /\ RegisteredHeader token = demo_header.
Proof.
  assert (Hmac : primitives_agree_for demo (HMACKey demo_hmac_key))
    by (intros h k m; discriminate).
  split; [exact Hmac |].
  destruct (GenerateToken_VerifySignature demo Alg.HS256
              (HMACKey demo_hmac_key) demo_hmac_facade
              (GoHeader demo_header) (GoClaims demo_claims) _ demo_header
              (str "eyJhbGciOiJIUzI1NiIsInR5cCI6IkpXVCJ9.eyJpc3MiOiJqb2UiLCJleHAiOiIxMzAwODE5MzgwIn0.ATXC")
              Hmac eq_refl eq_refl eq_refl eq_refl)
    as (token & Hv & Hh & _).
  exists token. split; [exact Hv | exact Hh].
Defined.

Lemma Verify_empty_signature (P : Platform) (v : TokenVerifier)
  (plaintext : bytes) :
  (exists e, v = VerifierHMAC e) \/ (exists e, v = VerifierECDSA e) ->
  exists err, Verify P v plaintext [] = (false, Some err).
Proof.
  intros [[e ->] | [e ->]]; cbn [Verify].
  - unfold HMAC_Verify. destruct (Nat.eqb (length plaintext) 0);
      eexists; reflexivity.
  - unfold ECDSA_Verify.
    destruct (GetHash P (ecv_algorithm e) plaintext);
      [| eexists; reflexivity].
    destruct (ec_Curve (ecv_pubKey e)); eexists; reflexivity.
Qed.

(** X18.  A token without a signature segment is never accepted by a
    facade made from an HMAC key or an ECDSA key.  When the raw token
    does not split in exactly three parts, [VerifySignature] either
    panics on the missing second part or returns [false] together with
    an error, whatever the primitives of the platform do. *)
Theorem VerifySignature_unsigned_rejected (P : Platform) (alg : Algorithm)
  (key : Key) (sv : JOSESignerVerifier) (rawToken : bytes) :
  is_hmac_or_ecdsa_key key = true ->
  NewJOSESignerVerifier alg key = Val (Ok sv) ->
  length (strings_Split rawToken "."%byte) <> 3 ->
  VerifySignature P sv rawToken = Panic (IndexOutOfRange 1 1)
  \/ exists token e,
       VerifySignature P sv rawToken = Val (token, false, Some e).
Proof.
  intros Hkey Hnew Hparts.
  pose proof (NewJOSESignerVerifier_inv alg key sv Hnew) as Hinv.
  assert (Hv : exists v, verifier sv = Some v
               /\ ((exists e, v = VerifierHMAC e)
                   \/ exists e, v = VerifierECDSA e)).
  { destruct key as [[k |] | [k |] | [k |] | [k |] | [k |] | [k |] | k |];
      try discriminate; try contradiction.
    - destruct Hinv as (s & v & _ & _ & ->).
      eexists; split; [reflexivity | right; now exists v].
    - destruct Hinv as (v & _ & ->).
      eexists; split; [reflexivity | right; now exists v].
    - destruct Hinv as (e & _ & ->).
      eexists; split; [reflexivity | left; now exists e]. }
  destruct Hv as (v & Hv & Hkind).
  unfold VerifySignature, GetRawTokenParts.
  rewrite part_count_guard_dead.
  pose proof (strings_Split_nonempty rawToken "."%byte) as Hne.
  destruct (strings_Split rawToken "."%byte) as [| p0 ps];
    [contradiction |].
  cbn [index nth_error run_bind].
  destruct (Base64URLDecode p0) as [dh | e];
    [| right; now exists None, e].
  destruct ps as [| p1 ps]; [left; reflexivity |].
  cbn [index nth_error run_bind].
  destruct (Base64URLDecode p1) as [db | e];
    [| right; now exists None, e].
  assert (Hl : Nat.eqb (length (p0 :: p1 :: ps)) 3 = false)
    by now apply Nat.eqb_neq.
  rewrite Hl. cbn [run_bind].
  destruct (GetHeader P _) as [hdr | e]; [| right; now exists None, e].
  rewrite Hv.
  cbn [deref run_bind set_RegisteredHeader DecodedSignature RawHeader
       RawBody].
  destruct (Verify_empty_signature P v
              (appendWithDot p0 p1) Hkind) as [err Herr].
  rewrite Herr.
  right. eexists _, err. reflexivity.
Qed.

Lemma VerifySignature_unsigned_rejected_witness :
  is_hmac_or_ecdsa_key (HMACKey demo_hmac_key) = true
  /\ (VerifySignature demo demo_hmac_facade
        (str "eyJhbGciOiJIUzI1NiIsInR5cCI6IkpXVCJ9.eyJpc3MiOiJqb2UiLCJleHAiOiIxMzAwODE5MzgwIn0")
      = Panic (IndexOutOfRange 1 1)
      \/ exists token e,
           VerifySignature demo demo_hmac_facade
             (str "eyJhbGciOiJIUzI1NiIsInR5cCI6IkpXVCJ9.eyJpc3MiOiJqb2UiLCJleHAiOiIxMzAwODE5MzgwIn0")
           = Val (token, false, Some e)).
Proof.
  split; [reflexivity |].
  apply (VerifySignature_unsigned_rejected demo Alg.HS256
           (HMACKey demo_hmac_key) demo_hmac_facade _ eq_refl eq_refl).
  vm_compute. discriminate.
Defined.

(** ** The claims validator, further *)

(** X19.  The not-before rule.  Without [nbf] the check passes; a string
    that is not the decimal writing of an integer in the range of int64
    gives [false] and an error; the writing of [n] gives [true] exactly
    when the instant of [currentTime], plus the leeway, is strictly after
    the instant [n] seconds after the epoch: at that instant itself the
    token is not yet accepted.  This is for an [n] below
    [2 ^ 63 - 62135596800 - 1]; from [2 ^ 63 - 62135596800] on the
    seconds of [time.Unix] wrap to the far past, and the token is
    accepted for every [currentTime] from year 1 on. *)
Theorem VerifyNotBefore_rule (claims : Claims) (currentTime : Time)
  (leeway : Duration) :
  Time_wf currentTime ->
  (- 2 ^ 63 <= leeway < 2 ^ 63)%Z ->
  (NotBefore claims = [] ->
   VerifyNotBefore claims currentTime leeway = (true, None))
  /\ (NotBefore claims <> [] ->
      (forall n, signed_numeral (NotBefore claims) n ->
                 ~ (- 2 ^ 63 <= n < 2 ^ 63)%Z) ->
      exists e, VerifyNotBefore claims currentTime leeway = (false, Some e))
  /\ (forall n,
        signed_numeral (NotBefore claims) n ->
        (- 2 ^ 63 <= n < 2 ^ 63 - 62135596800 - 1)%Z ->
        VerifyNotBefore claims currentTime leeway
        = ((n * second <? instant currentTime + leeway)%Z, None)
        /\ ((instant currentTime + leeway = n * second)%Z ->
            VerifyNotBefore claims currentTime leeway = (false, None)))
  /\ (forall n,
        signed_numeral (NotBefore claims) n ->
        (2 ^ 63 - 62135596800 <= n < 2 ^ 63)%Z ->
        (- 62135596800 * second <= instant currentTime)%Z ->
        VerifyNotBefore claims currentTime leeway = (true, None)).
Proof.
  intros Hwf Hl. unfold VerifyNotBefore.
  split; [intros ->; reflexivity |].
  split; [| split].
  - intros Hne Hnot. apply bytes_eqb_neq in Hne. rewrite Hne.
    destruct (strconv_ParseInt (NotBefore claims)) as [v | e] eqn:Hp.
    + apply strconv_ParseInt_numeral in Hp. destruct Hp as [Hnum Hr].
      now destruct (Hnot v Hnum).
    + now exists e.
  - intros n Hnum Hn.
    assert (Hp : strconv_ParseInt (NotBefore claims) = Ok n).
    { apply strconv_ParseInt_numeral. split; [exact Hnum |].
      time_consts. lia. }
    assert (Hne : NotBefore claims <> []).
    { intro E. rewrite E in Hp. discriminate Hp. }
    apply bytes_eqb_neq in Hne. rewrite Hne, Hp.
    rewrite time_After_Add_Unix by assumption.
    split; [reflexivity |].
    intros ->. now rewrite Z.ltb_irrefl.
  - intros n Hnum Hn Hyear.
    assert (Hp : strconv_ParseInt (NotBefore claims) = Ok n).
    { apply strconv_ParseInt_numeral. split; [exact Hnum |].
      time_consts. lia. }
    assert (Hne : NotBefore claims <> []).
    { intro E. rewrite E in Hp. discriminate Hp. }
    apply bytes_eqb_neq in Hne. rewrite Hne, Hp. f_equal.
    destruct (time_Add_not_far_past currentTime leeway Hwf Hl Hyear)
      as (Hw' & Hs').
    rewrite time_Unix_wrap by exact Hn.
    rewrite time_After_Unix by exact Hw'.
    change (2 ^ 34)%Z with 17179869184%Z in Hs'.
    apply orb_true_iff. left. rewrite Z.gtb_ltb. apply Z.ltb_lt.
    time_consts. lia.
Qed.

Lemma VerifyNotBefore_rule_witness :
  Time_wf (time_Unix 1300819380 0)
  /\ (- 2 ^ 63 <= 0 < 2 ^ 63)%Z
  /\ VerifyNotBefore
       {| Issuer := []; Subject := []; Audience := []; Expiration := [];
          NotBefore := str "1300819380"; IssuedAt := []; JWTID := [] |}
       (time_Unix 1300819380 0) 0%Z
     = (false, None).
Proof.
  assert (Hw : Time_wf (time_Unix 1300819380 0))
    by (vm_compute; intuition discriminate).
  assert (Hl : (- 2 ^ 63 <= 0 < 2 ^ 63)%Z)
    by (vm_compute; intuition discriminate).
  split; [exact Hw |]. split; [exact Hl |].
  destruct (VerifyNotBefore_rule
    {| Issuer := []; Subject := []; Audience := []; Expiration := [];
       NotBefore := str "1300819380"; IssuedAt := []; JWTID := [] |}
    (time_Unix 1300819380 0) 0%Z Hw Hl) as (_ & _ & H & _).
  assert (Hnum : signed_numeral (str "1300819380") 1300819380).
  { exists [], [1; 3; 0; 0; 8; 1; 9; 3; 8; 0]. split; [reflexivity |].
    split; [discriminate |]. split; [repeat constructor |].
    left. split; [now left | reflexivity]. }
  destruct (H 1300819380%Z Hnum ltac:(vm_compute; intuition discriminate))
    as (_ & E).
  apply E. reflexivity.
Defined.

Lemma anyEquals_In (haystack : list bytes) (needle : bytes) :
  anyEquals haystack needle = true <-> In needle haystack.
Proof.
  unfold anyEquals. rewrite existsb_exists. split.
  - intros (x & Hx & E). apply bytes_eqb_eq in E. now subst.
  - intro H. exists needle. split; [exact H | apply bytes_eqb_refl].
Qed.

(** X20.  The issuer, subject and audience rules: a claim is accepted
    exactly when it is absent (the empty string) or equal to one of the
    accepted values; with no accepted value, every claim that is present
    is refused. *)
Theorem Verify_accepted_values (claims : Claims) (accepted : list bytes) :
  (VerifyIssuer claims accepted = true
   <-> Issuer claims = [] \/ In (Issuer claims) accepted)
  /\ (VerifySubject claims accepted = true
      <-> Subject claims = [] \/ In (Subject claims) accepted)
  /\ (VerifyAudience claims accepted = true
      <-> Audience claims = [] \/ In (Audience claims) accepted)
  /\ (Issuer claims <> [] -> VerifyIssuer claims [] = false)
  /\ (Subject claims <> [] -> VerifySubject claims [] = false)
  /\ (Audience claims <> [] -> VerifyAudience claims [] = false).
Proof.
  unfold VerifyIssuer, VerifySubject, VerifyAudience.
  repeat split;
    try (intro H; apply bytes_eqb_neq in H; now rewrite H).
  all: match goal with
       | |- context [bytes_eqb ?x []] =>
           destruct (bytes_eqb x []) eqn:E;
           [ apply bytes_eqb_eq in E | apply bytes_eqb_neq in E ]
       end;
       try rewrite anyEquals_In; tauto.
Qed.

Lemma VerifyNotBefore_true (claims : Claims) (t : Time) (d : Duration)
  (e : option error) :
  VerifyNotBefore claims t d = (true, e) -> e = None.
Proof.
  unfold VerifyNotBefore. destruct (bytes_eqb _ _); [congruence |].
  destruct (strconv_ParseInt _); congruence.
Qed.

Lemma VerifyExpiration_true (claims : Claims) (t : Time) (d : Duration)
  (e : option error) :
  VerifyExpiration claims t d = (true, e) -> e = None.
Proof.
  unfold VerifyExpiration. destruct (bytes_eqb _ _); [congruence |].
  destruct (strconv_ParseInt _); congruence.
Qed.

(** X21.  [ValidateRegisteredClaims] with validation parameters that are
    not nil does not panic.  It returns [true] exactly when the five
    checks pass (not-before, expiration, issuer, subject, audience), and
    then without an error; an error, when there is one, is the parse
    error of [nbf], or that of [exp] when [nbf] passed. *)
Theorem ValidateRegisteredClaims_spec (claims : Claims)
  (vc : ValidationClaims) :
  let nbf := VerifyNotBefore claims (vc_NotBefore vc)
               (vc_NotBeforeLeeway vc) in
  let exp := VerifyExpiration claims (vc_Expiration vc)
               (vc_ExpirationLeeway vc) in
  exists valid err,
    ValidateRegisteredClaims claims (Some vc) = Val (valid, err)
    /\ (valid = true
        <-> fst nbf = true /\ fst exp = true
            /\ VerifyIssuer claims (vc_Issuer vc) = true
            /\ VerifySubject claims (vc_Subject vc) = true
            /\ VerifyAudience claims (vc_Audience vc) = true)
    /\ (valid = true -> err = None)
    /\ (err <> None ->
        err = snd nbf \/ fst nbf = true /\ err = snd exp).
Proof.
  intros nbf exp. unfold ValidateRegisteredClaims. cbn [deref run_bind].
  fold nbf. fold exp.
  destruct nbf as [[|] en] eqn:Hn; cbn [negb orb fst snd].
  2: { exists false, en. repeat split; try discriminate; try tauto;
         intuition discriminate. }
  pose proof (VerifyNotBefore_true _ _ _ _ Hn) as ->. cbn [is_some].
  destruct exp as [[|] ee] eqn:He; cbn [negb orb fst snd].
  2: { exists false, ee. repeat split; try discriminate; try tauto;
         intuition discriminate. }
  pose proof (VerifyExpiration_true _ _ _ _ He) as ->. cbn [is_some].
  destruct (VerifyIssuer claims (vc_Issuer vc)); cbn [negb].
  2: { exists false, None. repeat split; try discriminate; try tauto;
         intuition discriminate. }
  destruct (VerifySubject claims (vc_Subject vc)); cbn [negb].
  2: { exists false, None. repeat split; try discriminate; try tauto;
         intuition discriminate. }
  destruct (VerifyAudience claims (vc_Audience vc)); cbn [negb].
  2: { exists false, None. repeat split; try discriminate; try tauto;
         intuition discriminate. }
  exists true, None. repeat split; try tauto.
Qed.

(** X22.  Nothing is done with the JWT ID and the issued-at time: the
    result of [ValidateRegisteredClaims] does not change with the [jti]
    and [iat] of the claims nor with the accepted JWT IDs of the
    validation parameters. *)
Theorem ValidateRegisteredClaims_ignores_jti_iat (claims : Claims)
  (vc : option ValidationClaims) (jti iat : bytes)
  (accepted : list bytes) :
  ValidateRegisteredClaims (set_jti_iat claims jti iat)
    (option_map (fun vc => set_vc_JWTID vc accepted) vc)
  = ValidateRegisteredClaims claims vc.
Proof. destruct vc; reflexivity. Qed.

(** ** Parsing and the full verification *)

Lemma GetRawTokenParts_inv (rawToken : bytes) (token : Token) :
  GetRawTokenParts rawToken = Val (Ok token) ->
  RawToken token = rawToken
  /\ Base64URLDecode (RawHeader token) = Ok (DecodedHeader token)
  /\ Base64URLDecode (RawBody token) = Ok (DecodedBody token)
  /\ (exists rest,
        strings_Split rawToken "."%byte
        = RawHeader token :: RawBody token :: rest
        /\ (rest = [RawSignature token]
            /\ Base64URLDecode (RawSignature token)
               = Ok (DecodedSignature token)
            \/ length rest <> 1
               /\ RawSignature token = []
               /\ DecodedSignature token = []))
  /\ RegisteredHeader token = zero_Header
  /\ RegisteredClaims token = zero_Claims
  /\ signatureValid token = false
  /\ claimsValid token = false.
Proof.
  unfold GetRawTokenParts. rewrite part_count_guard_dead.
  destruct (strings_Split rawToken "."%byte) as [| p0 ps];
    [discriminate |].
  cbn [index nth_error run_bind].
  destruct (Base64URLDecode p0) as [dh |] eqn:E0; [| discriminate].
  destruct ps as [| p1 ps]; [discriminate |].
  cbn [index nth_error run_bind].
  destruct (Base64URLDecode p1) as [db |] eqn:E1; [| discriminate].
  destruct ps as [| p2 [| p3 ps]]; cbn [length Nat.eqb].
  - intro H. inversion H. cbn. repeat split; trivial.
    exists []. split; [reflexivity |]. right. cbn. repeat split.
    discriminate.
  - cbn [index nth_error run_bind].
    destruct (Base64URLDecode p2) as [ds |] eqn:E2; [| discriminate].
    intro H. inversion H. cbn. repeat split; trivial.
    exists [p2]. split; [reflexivity |]. left. now split.
  - intro H. inversion H. cbn. repeat split; trivial.
    exists (p2 :: p3 :: ps). split; [reflexivity |]. right. cbn.
    repeat split. discriminate.
Qed.

(** X23.  What a token that [GetRawTokenParts] returns is made of.  The
    raw token is kept; the header and body segments are the first two
    parts of the raw token between dots, and the decoded fields are
    their base64url decodings; the signature fields are those of the
    third part when there are exactly three parts and are empty
    otherwise; the header, the claims and the two flags are not set
    yet. *)
Theorem GetRawTokenParts_token (rawToken : bytes) (token : Token) :
  GetRawTokenParts rawToken = Val (Ok token) ->
  RawToken token = rawToken
  /\ Base64URLDecode (RawHeader token) = Ok (DecodedHeader token)
  /\ Base64URLDecode (RawBody token) = Ok (DecodedBody token)
  /\ (exists rest,
        strings_Split rawToken "."%byte
        = RawHeader token :: RawBody token :: rest
        /\ (rest = [RawSignature token]
            /\ Base64URLDecode (RawSignature token)
               = Ok (DecodedSignature token)
            \/ length rest <> 1
               /\ RawSignature token = []
               /\ DecodedSignature token = []))
  /\ RegisteredHeader token = zero_Header
  /\ RegisteredClaims token = zero_Claims
  /\ signatureValid token = false
  /\ claimsValid token = false.
Proof. apply GetRawTokenParts_inv. Qed.

Lemma GetRawTokenParts_token_witness :
  exists token,
    GetRawTokenParts (str "e30.e30") = Val (Ok token)
    /\ RawToken token = str "e30.e30"
    /\ claimsValid token = false.
Proof.
  assert (E : exists token,
             GetRawTokenParts (str "e30.e30") = Val (Ok token))
    by (eexists; vm_compute; reflexivity).
  destruct E as [token E]. exists token. split; [exact E |].
  destruct (GetRawTokenParts_token _ _ E)
    as (Hr & _ & _ & _ & _ & _ & _ & Hcv).
  split; [exact Hr | exact Hcv].
Defined.

Lemma VerifySignature_inv (P : Platform) (sv : JOSESignerVerifier)
  (rawToken : bytes) (token : Token) (valid : bool) (err : option error) :
  VerifySignature P sv rawToken = Val (Some token, valid, err) ->
  exists parsed hdr v,
    GetRawTokenParts rawToken = Val (Ok parsed)
    /\ GetHeader P parsed = Ok hdr
    /\ verifier sv = Some v
    /\ Verify P v (appendWithDot (RawHeader parsed) (RawBody parsed))
         (DecodedSignature parsed) = (valid, err)
    /\ token = set_signatureValid (set_RegisteredHeader parsed hdr) valid.
Proof.
  unfold VerifySignature.
  destruct (GetRawTokenParts rawToken) as [[parsed | e] | p] eqn:Hp;
    try discriminate.
  cbn [run_bind].
  destruct (GetHeader P parsed) as [hdr | e] eqn:Hh; [| discriminate].
  destruct (verifier sv) as [v |] eqn:Hv; [| discriminate].
  cbn [deref run_bind].
  change (RawHeader (set_RegisteredHeader parsed hdr))
    with (RawHeader parsed).
  change (RawBody (set_RegisteredHeader parsed hdr)) with (RawBody parsed).
  change (DecodedSignature (set_RegisteredHeader parsed hdr))
    with (DecodedSignature parsed).
  destruct (Verify P v _ _) as [b e] eqn:Hver.
  intro H. inversion H; subst. exists parsed, hdr, v.
  repeat split; trivial.
Qed.

Lemma ValidateRegisteredClaims_true (claims : Claims)
  (vc : option ValidationClaims) (err : option error) :
  ValidateRegisteredClaims claims vc = Val (true, err) ->
  err = None /\ vc <> None.
Proof.
  destruct vc as [vc |]; [| discriminate].
  unfold ValidateRegisteredClaims. cbn [deref run_bind].
  destruct (VerifyNotBefore _ _ _) as [[|] en]; cbn [negb orb];
    [| intro H; inversion H].
  destruct (is_some en); [intro H; inversion H |].
  destruct (VerifyExpiration _ _ _) as [[|] ee]; cbn [negb orb];
    [| intro H; inversion H].
  destruct (is_some ee); [intro H; inversion H |].
  destruct (negb (VerifyIssuer _ _)); [intro H; inversion H |].
  destruct (negb (VerifySubject _ _)); [intro H; inversion H |].
  destruct (negb (VerifyAudience _ _)); intro H; inversion H.
  split; [reflexivity | discriminate].
Qed.

(** X24.  When [VerifyToken] returns [true].  It then returns no error
    and a token; [VerifySignature] accepted the raw token without an
    error; the validation parameters are not nil; the claims were read
    from the token and passed [ValidateRegisteredClaims]; the token
    returned is the one of [VerifySignature] with these claims, its flag
    [signatureValid] set, and its flag [claimsValid] still [false]: that
    flag is never set. *)
Theorem VerifyToken_true (P : Platform) (sv : JOSESignerVerifier)
  (rawToken : bytes) (validationCriteria : option ValidationClaims)
  (token : option Token) (err : option error) :
  VerifyToken P sv rawToken validationCriteria = Val (token, true, err) ->
  err = None
  /\ validationCriteria <> None
  /\ exists verified claims,
       VerifySignature P sv rawToken = Val (Some verified, true, None)
       /\ GetClaims P verified = Ok claims
       /\ ValidateRegisteredClaims claims validationCriteria
          = Val (true, None)
       /\ token = Some (set_RegisteredClaims verified claims)
       /\ signatureValid (set_RegisteredClaims verified claims) = true
       /\ claimsValid (set_RegisteredClaims verified claims) = false.
Proof.
  unfold VerifyToken.
  destruct (VerifySignature P sv rawToken) as [[[t0 b] e0] | p] eqn:Hsig;
    [| discriminate].
  cbn [run_bind].
  destruct e0 as [e0 |]; cbn [is_some orb]; [discriminate |].
  destruct b; cbn [negb]; [| discriminate].
  destruct t0 as [t0 |]; cbn [deref run_bind]; [| discriminate].
  destruct (GetClaims P t0) as [claims | e] eqn:Hc; [| discriminate].
  destruct (ValidateRegisteredClaims claims validationCriteria)
    as [[cv ev] | p] eqn:Hval; [| discriminate].
  cbn [run_bind andb]. intro H. inversion H; subst.
  destruct (ValidateRegisteredClaims_true _ _ _ Hval) as [-> Hvc].
  split; [reflexivity |]. split; [exact Hvc |].
  exists t0, claims. repeat split; trivial.
  - destruct (VerifySignature_inv _ _ _ _ _ _ Hsig)
      as (parsed & hdr & v & _ & _ & _ & _ & ->). reflexivity.
  - destruct (VerifySignature_inv _ _ _ _ _ _ Hsig)
      as (parsed & hdr & v & Hp & _ & _ & _ & ->). cbn.
    now apply GetRawTokenParts_inv in Hp.
Qed.

Lemma VerifyToken_true_witness :
  exists token,
    VerifyToken demo_null demo_hmac_facade demo_null_token
      (Some demo_criteria) = Val (Some token, true, None)
    /\ claimsValid token = false.
Proof.
  assert (E : exists token,
             VerifyToken demo_null demo_hmac_facade demo_null_token
               (Some demo_criteria) = Val (Some token, true, None))
    by (eexists; vm_compute; reflexivity).
  destruct E as [token E]. exists token. split; [exact E |].
  destruct (VerifyToken_true demo_null demo_hmac_facade demo_null_token
              (Some demo_criteria) (Some token) None E)
    as (_ & _ & verified & claims & _ & _ & _ & Ht & _ & Hcv).
  inversion Ht. exact Hcv.
Defined.

(** ** The width of a coordinate *)

(** X25.  [padAndJoin] returns the two coordinates on the width of the
    key's curve when both fit, and panics on the slice expression when
    one of them needs more bytes than that width: it never cuts a
    coordinate short. *)
Theorem padAndJoin_spec (sv : ECDSASigner) (r s : Z) :
  let w := getSignatureLength (ec_Curve (ec_PublicKey (ecs_prvKey sv))) in
  (length (big_Bytes r) <= w /\ length (big_Bytes s) <= w ->
   padAndJoin sv r s = Val (fixed_width w r ++ fixed_width w s))
  /\ (w < length (big_Bytes r) \/ w < length (big_Bytes s) ->
      padAndJoin sv r s = Panic SliceBoundsOutOfRange).
Proof.
  intro w. unfold padAndJoin. fold w. split.
  - intros [Hr Hs]. now rewrite !pad_left_fixed_width by assumption.
  - intros H. unfold pad_left.
    destruct (Z.ltb_spec (Z.of_nat w - Z.of_nat (length (big_Bytes r))) 0);
      [reflexivity |].
    destruct (Z.ltb_spec (Z.of_nat w - Z.of_nat (length (big_Bytes s))) 0);
      [reflexivity | lia].
Qed.

(** X26.  [getSignatureLength] is the number of bytes that hold the bits
    of the curve for P-256, P-384 and P-521 (32, 48 and 66), and one more
    than that number for P-224 (29 instead of 28): the test that adds one
    looks at the byte count modulo eight. *)
Theorem getSignatureLength_curves (curve : Curve) :
  (getSignatureLength curve = ceil8 (Curve_BitSize curve)
   <-> curve <> P224)
  /\ (curve = P224 ->
      getSignatureLength curve = S (ceil8 (Curve_BitSize curve))).
Proof.
  destruct curve; cbn; repeat split; try discriminate; try congruence;
    intros; try reflexivity; congruence.
Qed.
